(** * TimeLeap [.dat] archives: the byte cipher and the index codec

    A shallow embedding of [TimeLeap/python/extract_dat.py] and
    [TimeLeap/python/pack_dat.py], and the properties of the two programs;
    then the same for the [.pak] archives of the Xbox 360 version,
    [extract_pak.py] and [pack_pak.py].

    Bytes are integers in [0, 256); a [bytearray] is a list of them that a
    computation threads through and updates in place; a Python [str] is the
    list of its code points.  Python integers are unbounded, hence [Z].
    The file system that the extractors write to is any that offers their
    operations, each of which may raise. *)

From Stdlib Require Import ZArith List Lia Bool String Ascii Sorted Permutation.
From stdpp Require Import base list.

Local Open Scope Z_scope.

(** ** Python built-ins used by the two [.dat] programs *)

Module Py.

(** [OSError] carries its [errno]: 17 is [FileExistsError], 20
    [NotADirectoryError], 21 [IsADirectoryError], 36 a name too long. *)
Inductive exn :=
| IndexError
| OverflowError
| UnicodeEncodeError
| OSError (errno : Z).

Inductive result (A : Type) :=
| Ok (a : A)
| Raise (e : exn).
Arguments Ok {A} a.
Arguments Raise {A} e.

(** [seq[i]]: a negative index counts from the end; [None] is out of
    range. *)
Definition index (n : nat) (i : Z) : option nat :=
  let i' := if i <? 0 then i + Z.of_nat n else i in
  if (0 <=? i') && (i' <? Z.of_nat n) then Some (Z.to_nat i') else None.

(** Computations on one [bytearray]: they return or raise, and the buffer
    keeps what was stored in it either way. *)
Definition Buf (A : Type) : Type := list Z -> result A * list Z.

#[global] Instance Buf_ret : MRet Buf := fun A a buf => (Ok a, buf).

#[global] Instance Buf_bind : MBind Buf := fun A B k m buf =>
  match m buf with
  | (Ok a, buf') => k a buf'
  | (Raise e, buf') => (Raise e, buf')
  end.

Definition len : Buf Z := fun buf => (Ok (Z.of_nat (length buf)), buf).

Definition getitem (i : Z) : Buf Z := fun buf =>
  match index (length buf) i with
  | Some n => (Ok (nth n buf 0), buf)
  | None => (Raise IndexError, buf)
  end.

(** [buf[i] = v]; the two programs only store values masked to a byte
    (lemmas [negate_byte], [xor_key_byte] and [swap_nibbles_byte]), so the
    range check of [bytearray] is left out. *)
Definition setitem (i v : Z) : Buf unit := fun buf =>
  match index (length buf) i with
  | Some n => (Ok tt, <[n := v]> buf)
  | None => (Raise IndexError, buf)
  end.

(** [lst[i]] on an immutable table. *)
Definition list_getitem (l : list Z) (i : Z) : Buf Z := fun buf =>
  match index (length l) i with
  | Some n => (Ok (nth n l 0), buf)
  | None => (Raise IndexError, buf)
  end.

(** [while i < end_: body(i); i += step], unrolled [fuel] times. *)
Fixpoint while_lt (fuel : nat) (step : Z) (body : Z -> Buf unit)
    (i end_ : Z) : Buf unit :=
  match fuel with
  | O => mret tt
  | S fuel' =>
      if i <? end_
      then body i ;; while_lt fuel' step body (i + step) end_
      else mret tt
  end.

(** The loops below advance by at least one, so [end_ - i] iterations
    are enough (lemma [while_unfold]). *)
Definition while_ (step : Z) (body : Z -> Buf unit) (i end_ : Z) : Buf unit :=
  while_lt (Z.to_nat (end_ - i)) step body i end_.

(** Code that only returns or raises. *)
#[global] Instance result_ret : MRet result := fun A a => Ok a.

#[global] Instance result_bind : MBind result := fun A B k m =>
  match m with
  | Ok a => k a
  | Raise e => Raise e
  end.

(** [pathlib] on the output directory.  What the file system answers is
    not the program's to decide: each operation returns or raises, as the
    file system the program runs on has it, and leaves the file system in
    a new state. *)
Class FileSystem (FS : Type) := {
  (** [out_dir.mkdir(exist_ok=True)] *)
  out_dir_mkdir : FS -> result unit * FS;
  (** [(out_dir / name).parent.mkdir(parents=True, exist_ok=True)] *)
  parent_mkdir : list Z -> FS -> result unit * FS;
  (** [(out_dir / name).write_bytes(data)] *)
  write_bytes : list Z -> list Z -> FS -> result unit * FS
}.

(** [seq[start:stop]]: an omitted bound is [None], a negative bound counts
    from the end, and bounds are clamped to the sequence; never raises. *)
Definition slice {A} (l : list A) (start stop : option Z) : list A :=
  let n := Z.of_nat (length l) in
  let norm i := if i <? 0 then Z.max 0 (i + n) else Z.min i n in
  let a := match start with Some i => norm i | None => 0 end in
  let b := match stop with Some i => norm i | None => n end in
  take (Z.to_nat (b - a)) (drop (Z.to_nat a) l).

(** [seq[start:stop] = xs] for bounds that are not negative. *)
Definition slice_assign {A} (l : list A) (start stop : nat) (xs : list A)
    : list A :=
  let a := Nat.min start (length l) in
  let b := Nat.max a (Nat.min stop (length l)) in
  take a l ++ xs ++ drop b l.

(** [int.from_bytes(bs, "little")] *)
Fixpoint from_bytes_little (bs : list Z) : Z :=
  match bs with
  | [] => 0
  | b :: bs' => b + 256 * from_bytes_little bs'
  end.

Fixpoint le_digits (n : nat) (v : Z) : list Z :=
  match n with
  | O => []
  | S n' => v mod 256 :: le_digits n' (v / 256)
  end.

(** [v.to_bytes(4, "little")] *)
Definition to_bytes4_little (v : Z) : result (list Z) :=
  if (0 <=? v) && (v <? 2 ^ 32) then Ok (le_digits 4 v) else Raise OverflowError.

(** [range(n)] *)
Definition range (n : Z) : list Z := map Z.of_nat (seq 0 (Z.to_nat n)).

(** [bs.split(b"\x00", 1)[0]] *)
Fixpoint before_nul (bs : list Z) : list Z :=
  match bs with
  | [] => []
  | b :: bs' => if b =? 0 then [] else b :: before_nul bs'
  end.

(** *** [str.encode("utf-8")] and [bytes.decode("utf-8", errors="ignore")]

    A [str] is the list of its code points, each in [0, 0x10FFFF].
    Encoding raises on a surrogate.  Decoding with [errors="ignore"]
    skips an invalid start byte, skips the bytes of a sequence up to
    (not including) the byte that breaks it, and drops a sequence that
    the end of the data cuts short together with all that follows. *)

Definition utf8_encode_char (c : Z) : result (list Z) :=
  if c <? 0x80 then Ok [c]
  else if c <? 0x800 then
    Ok [Z.lor 0xC0 (Z.shiftr c 6); Z.lor 0x80 (Z.land c 0x3F)]
  else if (0xD800 <=? c) && (c <=? 0xDFFF) then Raise UnicodeEncodeError
  else if c <? 0x10000 then
    Ok [Z.lor 0xE0 (Z.shiftr c 12);
        Z.lor 0x80 (Z.land (Z.shiftr c 6) 0x3F);
        Z.lor 0x80 (Z.land c 0x3F)]
  else
    Ok [Z.lor 0xF0 (Z.shiftr c 18);
        Z.lor 0x80 (Z.land (Z.shiftr c 12) 0x3F);
        Z.lor 0x80 (Z.land (Z.shiftr c 6) 0x3F);
        Z.lor 0x80 (Z.land c 0x3F)].

Fixpoint utf8_encode (s : list Z) : result (list Z) :=
  match s with
  | [] => Ok []
  | c :: s' =>
      bs ← utf8_encode_char c;
      bs' ← utf8_encode s';
      mret (bs ++ bs')
  end.

Definition is_continuation (b : Z) : bool := (0x80 <=? b) && (b <? 0xC0).

Fixpoint utf8_decode_ignore (bs : list Z) : list Z :=
  match bs with
  | [] => []
  | ch :: r1 =>
    if ch <? 0x80 then ch :: utf8_decode_ignore r1
    else if ch <? 0xC2 then utf8_decode_ignore r1
    else if ch <? 0xE0 then
      match r1 with
      | [] => []
      | ch2 :: r2 =>
        if negb (is_continuation ch2) then utf8_decode_ignore r1
        else (Z.shiftl ch 6 + ch2 - (Z.shiftl 0xC0 6 + 0x80))
               :: utf8_decode_ignore r2
      end
    else if ch <? 0xF0 then
      match r1 with
      | [] => []
      | ch2 :: r2 =>
        if negb (is_continuation ch2)
           || (if ch2 <? 0xA0 then ch =? 0xE0 else ch =? 0xED)
        then utf8_decode_ignore r1
        else
          match r2 with
          | [] => []
          | ch3 :: r3 =>
            if negb (is_continuation ch3) then utf8_decode_ignore r2
            else (Z.shiftl ch 12 + Z.shiftl ch2 6 + ch3
                  - (Z.shiftl 0xE0 12 + Z.shiftl 0x80 6 + 0x80))
                   :: utf8_decode_ignore r3
          end
      end
    else if ch <? 0xF5 then
      match r1 with
      | [] => []
      | ch2 :: r2 =>
        if negb (is_continuation ch2)
           || (if ch2 <? 0x90 then ch =? 0xF0 else ch =? 0xF4)
        then utf8_decode_ignore r1
        else
          match r2 with
          | [] => []
          | ch3 :: r3 =>
            if negb (is_continuation ch3) then utf8_decode_ignore r2
            else
              match r3 with
              | [] => []
              | ch4 :: r4 =>
                if negb (is_continuation ch4) then utf8_decode_ignore r3
                else (Z.shiftl ch 18 + Z.shiftl ch2 12 + Z.shiftl ch3 6 + ch4
                      - (Z.shiftl 0xF0 18 + Z.shiftl 0x80 12
                         + Z.shiftl 0x80 6 + 0x80))
                       :: utf8_decode_ignore r4
              end
          end
      end
    else utf8_decode_ignore r1
  end.

(** An ASCII literal as a [str]. *)
Definition str_of (s : string) : list Z :=
  map (fun a => Z.of_N (N_of_ascii a)) (list_ascii_of_string s).

(** *** Ordering and [sorted]

    [a < b] on two [str] and on two lists: the first differing items
    decide, a proper prefix is smaller. *)

Fixpoint seq_eqb {A} (eqb : A -> A -> bool) (a b : list A) : bool :=
  match a, b with
  | [], [] => true
  | x :: a', y :: b' => eqb x y && seq_eqb eqb a' b'
  | _, _ => false
  end.

Fixpoint seq_lt {A} (eqb ltb : A -> A -> bool) (a b : list A) : bool :=
  match a, b with
  | _, [] => false
  | [], _ :: _ => true
  | x :: a', y :: b' => if eqb x y then seq_lt eqb ltb a' b' else ltb x y
  end.

Definition str_eqb : list Z -> list Z -> bool := seq_eqb Z.eqb.
Definition str_lt : list Z -> list Z -> bool := seq_lt Z.eqb Z.ltb.
Definition list_str_lt : list (list Z) -> list (list Z) -> bool :=
  seq_lt str_eqb str_lt.

(** [sorted(xs)] is stable and only asks [<]. *)
Fixpoint insert_sorted {A} (lt : A -> A -> bool) (x : A) (l : list A)
    : list A :=
  match l with
  | [] => [x]
  | y :: l' => if lt x y then x :: l else y :: insert_sorted lt x l'
  end.

Definition sorted {A} (lt : A -> A -> bool) (xs : list A) : list A :=
  fold_left (fun acc x => insert_sorted lt x acc) xs [].

(** [sep.join(parts)] *)
Fixpoint join (sep : list Z) (parts : list (list Z)) : list Z :=
  match parts with
  | [] => []
  | [p] => p
  | p :: ps => p ++ sep ++ join sep ps
  end.

(** [s.replace(old, new)] for one-character [old] and [new] *)
Definition replace_char (old new : Z) (s : list Z) : list Z :=
  map (fun c => if c =? old then new else c) s.

End Py.
Import Py.

(** ** The three position-stepped transforms

    The four loops of [decode_buffer] and of [encode_buffer] are the same
    three loops in two orders; they are written once here. *)

Module Transform.

Definition v12 : list Z :=
  [0xFF; 0xFF; 0xFF; 0x01; 0x9C; 0xAA; 0xA5; 0x00; 0x30; 0xFF].

(** [(-(b if b < 128 else b - 256)) & 0xFF] *)
Definition negate (b : Z) : Z :=
  Z.land (- (if b <? 128 then b else b - 256)) 0xFF.

(** [((b & 0x0F) << 4) | ((b & 0xF0) >> 4)] *)
Definition swap_nibbles (b : Z) : Z :=
  Z.lor (Z.shiftl (Z.land b 0x0F) 4) (Z.shiftr (Z.land b 0xF0) 4).

(** Transform 1: negate bytes at positions 4n+1 *)
Definition transform1 (a4 end_ : Z) : Buf unit :=
  while_ 4 (fun i =>
    if i >=? a4 then
      b ← getitem (i - a4);
      setitem (i - a4) (negate b)
    else mret tt) (4 * Z.shiftr a4 2 + 1) end_.

(** Transform 2: XOR with the lookup table at positions 3n *)
Definition transform2 (a4 end_ : Z) : Buf unit :=
  while_ 3 (fun j =>
    if j >=? a4 then
      let idx := j mod 6 + (j / 5) mod 5 in
      b ← getitem (j - a4);
      k ← list_getitem v12 idx;
      setitem (j - a4) (Z.lxor b (Z.land k 0xFF))
    else mret tt) (3 * (a4 / 3)) end_.

(** Transform 3: nibble swap at positions 6n+2 *)
Definition transform3 (a4 end_ : Z) : Buf unit :=
  while_ 6 (fun k =>
    if k >=? a4 then
      b ← getitem (k - a4);
      setitem (k - a4) (swap_nibbles b)
    else mret tt) (6 * (a4 / 6) + 2) end_.

(** [mode = 1] unless [start_offset] is zero and [buf[0] < 0x80]. *)
Definition choose_mode (a4 : Z) : Buf Z :=
  if negb (a4 =? 0) then mret 1
  else b0 ← getitem 0; if b0 <? 0x80 then mret 2 else mret 1.

End Transform.

(** ** [extract_dat.py] *)

Module ExtractDat.
Import Transform.

Definition nibble_swap_byte (b : Z) : Z :=
  Z.lor (Z.shiftl (Z.land b 0x0F) 4) (Z.shiftr (Z.land b 0xF0) 4).

Definition nibble_swap (data : list Z) : list Z := map nibble_swap_byte data.

Definition decode_buffer (start_offset : Z) : Buf unit :=
  let a4 := start_offset in
  a2 ← len;
  mode ← choose_mode a4;
  let end_ := a4 + a2 in
  if mode =? 1 then
    transform1 a4 end_ ;; transform2 a4 end_ ;; transform3 a4 end_
  else if mode =? 2 then
    transform3 a4 end_ ;; transform2 a4 end_ ;; transform1 a4 end_
  else mret tt.

Record Entry := {
  name : list Z;
  packed_size : Z;
  unpacked_size : Z;
  offset : Z
}.

(** The trailing little-endian count, [int.from_bytes(dat_bytes[-4:])]. *)
Definition file_count (dat_bytes : list Z) : Z :=
  from_bytes_little (slice dat_bytes (Some (-4)) None).

Definition index_start (dat_bytes : list Z) : Z :=
  Z.of_nat (length dat_bytes) - 4 - file_count dat_bytes * 80.

(** The body of the loop over [range(file_count)]. *)
Definition parse_entry (index : list Z) (i : Z) : Entry :=
  let ent := slice index (Some (i * 80)) (Some ((i + 1) * 80)) in
  {| name := utf8_decode_ignore (before_nul (slice ent None (Some 64)));
     offset := from_bytes_little (slice ent (Some 64) (Some 68));
     unpacked_size := from_bytes_little (slice ent (Some 68) (Some 72));
     packed_size := from_bytes_little (slice ent (Some 72) (Some 76)) |}.

Definition parse_dat_index (dat_bytes : list Z) : result (list Entry) :=
  let file_count := file_count dat_bytes in
  let index_size := file_count * 80 in
  let index_start := Z.of_nat (length dat_bytes) - 4 - index_size in
  let index :=
    nibble_swap
      (slice dat_bytes (Some index_start) (Some (index_start + index_size))) in
  Ok (map (parse_entry index) (range file_count)).

(** The body of the loop over the entries, all of it inside the [try]:
    the slice is decoded, the parent directories are made and the file is
    written.  The result is the name with the bytes written, or with the
    exception that the loop catches and reports. *)
Definition extract_entry {FS} `{!FileSystem FS} (dat : list Z) (e : Entry)
    (fs : FS) : (list Z * result (list Z)) * FS :=
  let raw := slice dat (Some (offset e)) (Some (offset e + packed_size e)) in
  match decode_buffer 0 raw with
  | (Raise ex, _) => ((name e, Raise ex), fs)
  | (Ok _, raw') =>
      match parent_mkdir (name e) fs with
      | (Raise ex, fs') => ((name e, Raise ex), fs')
      | (Ok _, fs') =>
          match write_bytes (name e) raw' fs' with
          | (Raise ex, fs'') => ((name e, Raise ex), fs'')
          | (Ok _, fs'') => ((name e, Ok raw'), fs'')
          end
      end
  end.

(** The loop over the entries. *)
Fixpoint extract_entries {FS} `{!FileSystem FS} (dat : list Z)
    (entries : list Entry) (fs : FS)
    : list (list Z * result (list Z)) * FS :=
  match entries with
  | [] => ([], fs)
  | e :: entries' =>
      let '(out, fs') := extract_entry dat e fs in
      let '(outs, fs'') := extract_entries dat entries' fs' in
      (out :: outs, fs'')
  end.

(** [extract_and_decode] on the bytes of the archive: per entry, in index
    order, the name and the outcome; [Ok None] when it stops at "Error
    parsing index".  [out_dir.mkdir] is under no [try]: what it raises,
    the call raises. *)
Definition extract_and_decode {FS} `{!FileSystem FS} (dat : list Z) (fs : FS)
    : result (option (list (list Z * result (list Z)))) * FS :=
  match parse_dat_index dat with
  | Raise _ => (Ok None, fs)
  | Ok entries =>
      match out_dir_mkdir fs with
      | (Raise ex, fs') => (Raise ex, fs')
      | (Ok _, fs') =>
          let '(outs, fs'') := extract_entries dat entries fs' in
          (Ok (Some outs), fs'')
      end
  end.

(** The files that end up written, in order. *)
Definition written (out : list (list Z * result (list Z)))
    : list (list Z * list Z) :=
  omap (fun o => match o with
                 | (n, Ok d) => Some (n, d)
                 | (_, Raise _) => None
                 end) out.

End ExtractDat.

(** ** [pack_dat.py] *)

Module PackDat.
Import Transform.

Definition nibble_swap_byte (b : Z) : Z :=
  Z.lor (Z.shiftl (Z.land b 0x0F) 4) (Z.shiftr (Z.land b 0xF0) 4).

Definition nibble_swap (data : list Z) : list Z := map nibble_swap_byte data.

Definition encode_buffer (start_offset : Z) : Buf unit :=
  let a4 := start_offset in
  a2 ← len;
  mode ← choose_mode a4;
  let end_ := a4 + a2 in
  if mode =? 1 then
    transform3 a4 end_ ;; transform2 a4 end_ ;; transform1 a4 end_
  else if mode =? 2 then
    transform1 a4 end_ ;; transform2 a4 end_ ;; transform3 a4 end_
  else mret tt.

Record FileEntry := {
  name : list Z;
  data : list Z;
  offset : Z
}.

(** One result of [input_path.rglob("*")]: the components of the path
    below [input_path], and the bytes of a regular file ([None] when
    [is_file()] is false). *)
Record DirItem := {
  rel_parts : list (list Z);
  file_bytes : option (list Z)
}.

(** [Path] objects compare by their components, each a [str]; those of
    [input_path] are shared by all the items.  (On Windows the components
    are first folded to lower case; this is the POSIX flavour.) *)
Definition path_lt (a b : DirItem) : bool :=
  list_str_lt (rel_parts a) (rel_parts b).

(** [str(file_path.relative_to(input_path)).replace("\\", "/")] *)
Definition relative_name (parts : list (list Z)) : list Z :=
  replace_char 92 47 (join [47] parts).

(** The loop that collects [files]. *)
Definition collect_files (items : list DirItem) : list FileEntry :=
  omap (fun it =>
          match file_bytes it with
          | Some d =>
              Some {| name := relative_name (rel_parts it); data := d;
                      offset := 0 |}
          | None => None
          end) (sorted path_lt items).

(** The loop that encodes each file and calculates the offsets. *)
Fixpoint encode_files (files : list FileEntry) (current_offset : Z)
    : result (list FileEntry) :=
  match files with
  | [] => Ok []
  | f :: files' =>
      match encode_buffer 0 (data f) with
      | (Raise e, _) => Raise e
      | (Ok _, encoded) =>
          rest ← encode_files files'
                   (current_offset + Z.of_nat (length encoded));
          mret ({| name := name f; data := encoded;
                   offset := current_offset |} :: rest)
      end
  end.

(** The body of the loop that builds the index: one 80-byte entry. *)
Definition index_entry (f : FileEntry) : result (list Z) :=
  let entry := replicate 80 0 in
  encoded_name ← utf8_encode (name f);
  let name_bytes := slice encoded_name None (Some 63) in
  let entry := slice_assign entry 0 (length name_bytes) name_bytes in
  off ← to_bytes4_little (offset f);
  let entry := slice_assign entry 64 68 off in
  unpacked ← to_bytes4_little (Z.of_nat (length (data f)));
  let entry := slice_assign entry 68 72 unpacked in
  packed ← to_bytes4_little (Z.of_nat (length (data f)));
  let entry := slice_assign entry 72 76 packed in
  mret entry.

Fixpoint build_index (encoded_files : list FileEntry) : result (list Z) :=
  match encoded_files with
  | [] => Ok []
  | f :: fs =>
      entry ← index_entry f;
      rest ← build_index fs;
      mret (entry ++ rest)
  end.

(** [create_dat_archive] from the directory listing to the bytes written
    to the archive; [Ok None] when it stops at "No files found". *)
Definition create_dat_archive (items : list DirItem)
    : result (option (list Z)) :=
  let files := collect_files items in
  match files with
  | [] => Ok None
  | _ =>
      encoded_files ← encode_files files 0;
      let archive := concat (map data encoded_files) in
      index ← build_index encoded_files;
      let index_swapped := nibble_swap index in
      let archive := archive ++ index_swapped in
      count ← to_bytes4_little (Z.of_nat (length files));
      mret (Some (archive ++ count))
  end.

End PackDat.

(** ** Python built-ins used by the two [.pak] programs

    [struct] for the integers of the header, binary files, the search
    methods of [bytes] and [str], and the format [04d]. *)

Module PyFile.

(** [OSError] carries its [errno]. *)
Inductive exn :=
| ValueError
| RuntimeError
| StructError
| IndexError
| OSError (errno : Z).

Inductive outcome (A : Type) :=
| Returns (a : A)
| Raises (e : exn).
Arguments Returns {A} a.
Arguments Raises {A} e.

#[export] Instance outcome_ret : MRet outcome := fun A a => Returns a.

#[export] Instance outcome_bind : MBind outcome := fun A B k m =>
  match m with
  | Returns a => k a
  | Raises e => Raises e
  end.

(** Computations on a state [S], which keeps what was done to it when
    the computation raises. *)
Definition St (S A : Type) : Type := S -> outcome A * S.

#[export] Instance St_ret {S} : MRet (St S) := fun A a s => (Returns a, s).

#[export] Instance St_bind {S} : MBind (St S) := fun A B k m s =>
  match m s with
  | (Returns a, s') => k a s'
  | (Raises e, s') => (Raises e, s')
  end.

Definition raise {S A} (e : exn) : St S A := fun s => (Raises e, s).

Definition lift {S A} (o : outcome A) : St S A := fun s => (o, s).

(** [struct.unpack("<I", bs)[0]] *)
Definition unpack_u32 (bs : list Z) : outcome Z :=
  if (length bs =? 4)%nat then Returns (from_bytes_little bs)
  else Raises StructError.

(** [struct.pack("<I", v)] *)
Definition pack_u32 (v : Z) : outcome (list Z) :=
  if (0 <=? v) && (v <? 2 ^ 32) then Returns (le_digits 4 v)
  else Raises StructError.

(** [struct.unpack_from("<H", data, offset)[0]]; a negative [offset]
    counts from the end. *)
Definition unpack_from_u16 (data : list Z) (offset : Z) : outcome Z :=
  let n := Z.of_nat (length data) in
  if offset <? 0 then
    if (0 <? offset + 2) || (offset + n <? 0) then Raises StructError
    else Returns (from_bytes_little
                    (take 2 (drop (Z.to_nat (offset + n)) data)))
  else if n - offset <? 2 then Raises StructError
  else Returns (from_bytes_little (take 2 (drop (Z.to_nat offset) data))).

(** A file opened with ["rb"]: the state is the position.  The programs
    seek to unsigned values only. *)
Definition seek (offset : Z) : St Z unit := fun _ => (Returns tt, offset).

(** [f.read(n)]: up to [n] bytes from the position, all that is left for
    a negative [n]. *)
Definition read (file : list Z) (n : Z) : St Z (list Z) := fun pos =>
  let rest := drop (Z.to_nat pos) file in
  let bs := if n <? 0 then rest else take (Z.to_nat n) rest in
  (Returns bs, pos + Z.of_nat (length bs)).

(** [os.path.getsize] *)
Definition getsize (file : list Z) : Z := Z.of_nat (length file).

(** [os] and [open] on the output directory.  As with [pathlib], what the
    file system answers is not the program's to decide: each operation
    returns or raises and leaves the file system in a new state. *)
Class OutDir (FS : Type) := {
  (** [os.makedirs(out_dir, exist_ok=True)] *)
  makedirs : FS -> outcome unit * FS;
  (** [with open(os.path.join(out_dir, out_name), "wb") as out_f:
      out_f.write(data)] *)
  write_out : list Z -> list Z -> FS -> outcome unit * FS
}.

(** A file opened with ["wb"]: the state is what has been written. *)
Definition write (bs : list Z) : St (list Z) unit := fun pak =>
  (Returns tt, pak ++ bs).

Definition tell : St (list Z) Z := fun pak =>
  (Returns (Z.of_nat (length pak)), pak).

(** [seq[i]] for [i >= 0] *)
Definition item (l : list Z) (i : Z) : outcome Z :=
  match l !! Z.to_nat i with
  | Some v => Returns v
  | None => Raises IndexError
  end.

(** [data.startswith(prefix)] *)
Fixpoint startswith (data prefix : list Z) {struct prefix} : bool :=
  match prefix, data with
  | [], _ => true
  | p :: prefix', d :: data' => (d =? p) && startswith data' prefix'
  | _ :: _, [] => false
  end.

(** [needle in s] *)
Fixpoint contains (needle s : list Z) : bool :=
  startswith s needle
  || match s with
     | [] => false
     | _ :: s' => contains needle s'
     end.

Fixpoint find_from (needle data : list Z) (i : Z) : Z :=
  if startswith data needle then i
  else match data with
       | [] => -1
       | _ :: data' => find_from needle data' (i + 1)
       end.

(** [data.find(needle)] *)
Definition find (data needle : list Z) : Z := find_from needle data 0.

(** The decimal digits of [n >= 0]; a number has at most as many digits
    as its value plus one (lemma [decimal_fuel]). *)
Fixpoint decimal (fuel : nat) (n : Z) : list Z :=
  match fuel with
  | O => []
  | S fuel' =>
      (if n <? 10 then [] else decimal fuel' (n / 10)) ++ [48 + n mod 10]
  end.

(** [f"{i:04d}"] for [i >= 0] *)
Definition format_04d (i : Z) : list Z :=
  let digits := decimal (S (Z.to_nat i)) i in
  replicate (4 - length digits) 48 ++ digits.

End PyFile.

(** ** [XBox 360 Version/extract_pak.py] *)

Module ExtractPak.
Import PyFile.

Record Entry := {
  offset : Z;
  size : Z
}.

Definition SIGNATURES : list (list Z * list Z) :=
  [ ([0x89; 0x50; 0x4E; 0x47; 0x0D; 0x0A; 0x1A; 0x0A], str_of ".png");
    (str_of "BM", str_of ".bmp");
    (str_of "RIFF", str_of ".wav");
    (str_of "OggS", str_of ".ogg");
    ([0xFF; 0xD8; 0xFF], str_of ".jpg") ].

(** The loop over [SIGNATURES.items()], in the order of the literal. *)
Fixpoint first_signature (sigs : list (list Z * list Z)) (data : list Z)
    : option (list Z) :=
  match sigs with
  | [] => None
  | (magic, ext) :: sigs' =>
      if startswith data magic then Some ext
      else first_signature sigs' data
  end.

Section Lower.

(** [str.lower] *)
Variable lower : list Z -> list Z.

Definition detect_file_type (data pak_name : list Z) : list Z :=
  match first_signature SIGNATURES data with
  | Some ext => ext
  | None =>
      let lower_name := lower pak_name in
      if contains (str_of "cg") lower_name then str_of ".png"
      else if contains (str_of "se") lower_name
              || contains (str_of "snd") lower_name then str_of ".wav"
      else if contains (str_of "text") lower_name
              || contains (str_of "txt") lower_name
              || contains (str_of "scr") lower_name then str_of ".txt"
      else str_of ".bin"
  end.

End Lower.

(** Only [struct.error] is caught. *)
Definition is_xma2_wave (data : list Z) : outcome bool :=
  if negb (startswith data (str_of "RIFF")) then Returns false
  else
    let idx := find data (str_of "fmt ") in
    if idx =? -1 then Returns false
    else
      match unpack_from_u16 data (idx + 8) with
      | Returns w_format_tag => Returns (w_format_tag =? 0x0166)
      | Raises StructError => Returns false
      | Raises e => Raises e
      end.

(** [[struct.unpack("<I", f.read(4))[0] for _ in range(n)]] *)
Fixpoint read_offsets (file : list Z) (n : nat) : St Z (list Z) :=
  match n with
  | O => mret []
  | S n' =>
      bs ← read file 4;
      off ← lift (unpack_u32 bs);
      rest ← read_offsets file n';
      mret (off :: rest)
  end.

(** The loop that builds [entries], over [i] in [range(file_count)]. *)
Fixpoint build_entries (offsets : list Z) (indices : list Z)
    : outcome (list Entry) :=
  match indices with
  | [] => Returns []
  | i :: indices' =>
      start ← item offsets i;
      end_ ← item offsets (i + 1);
      let size := end_ - start in
      if size <? 0 then Raises ValueError
      else
        entries ← build_entries offsets indices';
        mret ({| offset := start; size := size |} :: entries)
  end.

Definition parse_index (file : list Z) : St Z (list Entry) :=
  seek 0 ;;
  header ← read file 4;
  if (length header <? 4)%nat then raise ValueError
  else
    file_count ← lift (unpack_u32 header);
    if (file_count <=? 0) || (100000 <? file_count) then raise ValueError
    else
      offsets ← read_offsets file (Z.to_nat file_count);
      let offsets := offsets ++ [getsize file] in
      lift (build_entries offsets (range file_count)).

(** The files written to [out_dir], in the order they are written: the
    name and the bytes of each. *)
Definition Written : Type := list (list Z * list Z).

Section Extraction.

Variable lower : list Z -> list Z.
Context {FS : Type} `{!OutDir FS}.

(** An extraction in progress: the position in the archive, the file
    system, and the files written so far. *)
Definition State : Type := Z * (FS * Written).

Definition on_file {A} (m : St Z A) : St State A := fun s =>
  let '(r, pos) := m (fst s) in (r, (pos, snd s)).

(** [with open(out_path, "wb") as out_f: out_f.write(data)]; what the
    file system raises is under no [try]. *)
Definition write_file (out_name data : list Z) : St State unit := fun s =>
  match write_out out_name data (fst (snd s)) with
  | (Returns _, fs') =>
      (Returns tt, (fst s, (fs', snd (snd s) ++ [(out_name, data)])))
  | (Raises e, fs') => (Raises e, (fst s, (fs', snd (snd s))))
  end.

(** The loop over [enumerate(entries)], from index [i] on. *)
Fixpoint extract_entries (file pak_name base_name : list Z) (i : Z)
    (entries : list Entry) : St State unit :=
  match entries with
  | [] => mret tt
  | entry :: entries' =>
      on_file (seek (offset entry)) ;;
      data ← on_file (read file (size entry));
      let ext := detect_file_type lower (slice data None (Some 64)) pak_name in
      xma2 ← lift (if str_eqb ext (str_of ".wav") then is_xma2_wave data
                   else Returns false);
      let ext := if xma2 : bool then str_of ".xma" else ext in
      let out_name := base_name ++ str_of "_" ++ format_04d i ++ ext in
      write_file out_name data ;;
      extract_entries file pak_name base_name (i + 1) entries'
  end.

(** [extract_pak] on the bytes of the archive; [pak_name] is the base name
    of its path and [base_name] is [pak_name] without its extension.  The
    result is the outcome, the file system it leaves and the files
    written. *)
Definition extract_pak (file pak_name base_name : list Z) (fs : FS)
    : outcome unit * (FS * Written) :=
  match makedirs fs with
  | (Raises e, fs') => (Raises e, (fs', []))
  | (Returns _, fs') =>
      let '(r, s) :=
        (entries ← on_file (parse_index file);
         extract_entries file pak_name base_name 0 entries) (0, (fs', [])) in
      (r, snd s)
  end.

End Extraction.

End ExtractPak.

(** ** [XBox 360 Version/pack_pak.py] *)

Module PackPak.
Import PyFile.

Definition FIRST_FILE_OFFSET : Z := 0x800.

(** [sorted([f for f in Path(input_dir).rglob('*') if f.is_file()])] *)
Definition collect_files (items : list PackDat.DirItem)
    : list PackDat.DirItem :=
  sorted PackDat.path_lt
    (filter (fun f => is_Some (PackDat.file_bytes f)) items).

(** The loop that reads the files and calculates the offsets; the result
    is [file_data], [offsets] and the last [current_offset]. *)
Fixpoint prepare (all_files : list PackDat.DirItem) (current_offset : Z)
    : list (list Z) * list Z * Z :=
  match all_files with
  | [] => ([], [], current_offset)
  | file_path :: all_files' =>
      let data := default [] (PackDat.file_bytes file_path) in
      let '(file_data, offsets, end_offset) :=
        prepare all_files' (current_offset + Z.of_nat (length data)) in
      (data :: file_data, current_offset :: offsets, end_offset)
  end.

Fixpoint write_offsets (offsets : list Z) : St (list Z) unit :=
  match offsets with
  | [] => mret tt
  | off :: offsets' =>
      bs ← lift (pack_u32 off);
      write bs ;;
      write_offsets offsets'
  end.

Fixpoint write_data (file_data : list (list Z)) : St (list Z) unit :=
  match file_data with
  | [] => mret tt
  | data :: file_data' => write data ;; write_data file_data'
  end.

(** The body of [with open(output_pak, 'wb') as pak]. *)
Definition write_pak (file_count : Z) (offsets : list Z)
    (file_data : list (list Z)) : St (list Z) unit :=
  bs ← lift (pack_u32 file_count);
  write bs ;;
  write_offsets offsets ;;
  pos ← tell;
  let pad_len := FIRST_FILE_OFFSET - pos in
  if pad_len <? 0 then raise RuntimeError
  else
    (if 0 <? pad_len then write (replicate (Z.to_nat pad_len) 0)
     else mret tt) ;;
    write_data file_data.

(** [pack_pak] on the listing of [input_dir] ([None] when it is not a
    directory).  The result is the outcome and the bytes of [output_pak],
    [None] when the file was not opened. *)
Definition pack_pak (input_dir : option (list PackDat.DirItem))
    : outcome unit * option (list Z) :=
  match input_dir with
  | None => (Raises ValueError, None)
  | Some items =>
      let all_files := collect_files items in
      match all_files with
      | [] => (Raises ValueError, None)
      | _ =>
          let file_count := Z.of_nat (length all_files) in
          let '(file_data, offsets, current_offset) :=
            prepare all_files FIRST_FILE_OFFSET in
          let offsets := offsets ++ [current_offset] in
          let '(r, pak) := write_pak file_count offsets file_data [] in
          (r, Some pak)
      end
  end.

(** [offsets[-1]] *)
Definition last_item (l : list Z) : outcome Z :=
  match last l with
  | Some v => Returns v
  | None => Raises IndexError
  end.

(** The body of the [try] of [verify_pak]. *)
Definition verify_body (file : list Z) : St Z bool :=
  bs ← read file 4;
  file_count ← lift (unpack_u32 bs);
  offsets ← ExtractPak.read_offsets file (Z.to_nat (file_count + 1));
  let pak_size := getsize file in
  _ ← lift (item offsets 0);
  end_offset ← lift (last_item offsets);
  if negb (end_offset =? pak_size) then mret false
  else mret true.

(** [except Exception] catches whatever the body raises. *)
Definition verify_pak (file : list Z) : bool :=
  match verify_body file 0 with
  | (Returns ok, _) => ok
  | (Raises _, _) => false
  end.

End PackPak.

(** * Specification

    The vocabulary of the statements: the transforms as maps, well-formed
    bytes and strings, the layout of the index, and the inputs of the
    examples. *)

(** ** The transforms as maps over the buffer

    What one loop does to a buffer whose first byte sits at absolute
    position [s]: the byte at every position congruent to [r] modulo [m]
    goes through [op], the others stay. *)

Definition stage (m r : Z) (op : Z -> Z -> Z) (s : Z) (buf : list Z) : list Z :=
  imap (fun p b =>
          if (s + Z.of_nat p) mod m =? r then op (s + Z.of_nat p) b else b) buf.

(** The key byte that position [j] is XORed with. *)
Definition key (j : Z) : Z :=
  Z.land (nth (Z.to_nat (j mod 6 + (j / 5) mod 5)) Transform.v12 0) 0xFF.

Definition T1 : Z -> list Z -> list Z := stage 4 1 (fun _ b => Transform.negate b).
Definition T2 : Z -> list Z -> list Z := stage 3 0 (fun j b => Z.lxor b (key j)).
Definition T3 : Z -> list Z -> list Z :=
  stage 6 2 (fun _ b => Transform.swap_nibbles b).

(** ** Well-formed values *)

(** What a [bytes] or [bytearray] can hold. *)
Definition is_byte (b : Z) : Prop := 0 <= b < 256.
Definition bytes_ok (bs : list Z) : Prop := Forall is_byte bs.

(** What a [str] can hold. *)
Definition is_code_point (c : Z) : Prop := 0 <= c <= 0x10FFFF.
Definition str_ok (s : list Z) : Prop := Forall is_code_point s.

(** No character U+0000. *)
Definition no_nul (s : list Z) : Prop := Forall (fun c => c <> 0) s.

(** A name that fits the name field. *)
Definition name_fits (n : list Z) : Prop :=
  str_ok n /\ no_nul n
  /\ exists enc, utf8_encode n = Ok enc /\ (length enc <= 63)%nat.

(** A payload that [decode_buffer] gives back from what [encode_buffer]
    made of it, both at offset zero. *)
Definition survives (d : list Z) : Prop :=
  exists enc,
    PackDat.encode_buffer 0 d = (Ok tt, enc)
    /\ ExtractDat.decode_buffer 0 enc = (Ok tt, d).

(** ** The index *)

(** The 80 bytes that [index_entry] lays out. *)
Definition entry_layout (name_bytes : list Z) (off size : Z) : list Z :=
  name_bytes ++ replicate (64 - length name_bytes) 0
  ++ le_digits 4 off ++ le_digits 4 size ++ le_digits 4 size ++ [0; 0; 0; 0].

Definition encoded_name (f : PackDat.FileEntry) : list Z :=
  match utf8_encode (PackDat.name f) with
  | Ok bs => bs
  | Raise _ => []
  end.

(** The 80 bytes of the index entry of [f]. *)
Definition slot (f : PackDat.FileEntry) : list Z :=
  entry_layout (take 63 (encoded_name f)) (PackDat.offset f)
    (Z.of_nat (length (PackDat.data f))).

(** The entry that the reader should find for [f]. *)
Definition entry_of (f : PackDat.FileEntry) : ExtractDat.Entry :=
  {| ExtractDat.name := PackDat.name f;
     ExtractDat.packed_size := Z.of_nat (length (PackDat.data f));
     ExtractDat.unpacked_size := Z.of_nat (length (PackDat.data f));
     ExtractDat.offset := PackDat.offset f |}.

(** An entry that [index_entry] can write and [parse_entry] read back. *)
Definition indexable (f : PackDat.FileEntry) : Prop :=
  name_fits (PackDat.name f)
  /\ 0 <= PackDat.offset f < 2 ^ 32
  /\ Z.of_nat (length (PackDat.data f)) < 2 ^ 32.

(** ** The write path *)

(** [a] does not come after [b]: what [sorted] guarantees of neighbours. *)
Definition path_le (a b : PackDat.DirItem) : Prop := PackDat.path_lt b a = false.

(** What the encoding loop builds when it does not raise. *)
Fixpoint placed (files : list PackDat.FileEntry) (current_offset : Z)
    : list PackDat.FileEntry :=
  match files with
  | [] => []
  | f :: files' =>
      let encoded := snd (PackDat.encode_buffer 0 (PackDat.data f)) in
      {| PackDat.name := PackDat.name f; PackDat.data := encoded;
         PackDat.offset := current_offset |}
        :: placed files' (current_offset + Z.of_nat (length encoded))
  end.

(** The names of the regular files of a listing, in its order. *)
Definition file_names (items : list PackDat.DirItem) : list (list Z) :=
  omap (fun it =>
          match PackDat.file_bytes it with
          | Some _ => Some (PackDat.relative_name (PackDat.rel_parts it))
          | None => None
          end) items.

(** The (name, payload) pairs of the regular files of a listing. *)
Definition input_pairs (items : list PackDat.DirItem) : list (list Z * list Z) :=
  omap (fun it =>
          match PackDat.file_bytes it with
          | Some d => Some (PackDat.relative_name (PackDat.rel_parts it), d)
          | None => None
          end) items.

Definition pair_of (f : PackDat.FileEntry) : list Z * list Z :=
  (PackDat.name f, PackDat.data f).

(** The bytes of all the payloads together. *)
Definition total_size (pairs : list (list Z * list Z)) : Z :=
  Z.of_nat (length (concat (map snd pairs))).

(** ** Reading back what was written *)

(** A name that [str.encode] accepts: code points, none a surrogate. *)
Definition encodable (n : list Z) : Prop :=
  str_ok n /\ exists enc, utf8_encode n = Ok enc.

(** The name that the reader finds in the field written for [n]: what
    [decode] makes of the first 63 bytes, up to the first NUL. *)
Definition name_read_back (n : list Z) : list Z :=
  match utf8_encode n with
  | Ok enc => utf8_decode_ignore (before_nul (take 63 enc))
  | Raise _ => []
  end.

(** The payload that the reader makes of the encoded payload. *)
Definition payload_read_back (d : list Z) : list Z :=
  snd (ExtractDat.decode_buffer 0 (snd (PackDat.encode_buffer 0 d))).

(** An entry that [index_entry] can write. *)
Definition packable (f : PackDat.FileEntry) : Prop :=
  encodable (PackDat.name f)
  /\ 0 <= PackDat.offset f < 2 ^ 32
  /\ Z.of_nat (length (PackDat.data f)) < 2 ^ 32.

(** The entry that the reader finds for [f]. *)
Definition entry_read (f : PackDat.FileEntry) : ExtractDat.Entry :=
  {| ExtractDat.name := name_read_back (PackDat.name f);
     ExtractDat.packed_size := Z.of_nat (length (PackDat.data f));
     ExtractDat.unpacked_size := Z.of_nat (length (PackDat.data f));
     ExtractDat.offset := PackDat.offset f |}.

(** ** The read path and the file system *)

(** What the read path decodes from an entry, before it writes anything:
    the name, and [decode_buffer] of the slice or the exception it
    raises. *)
Definition decoded_entry (dat : list Z) (e : ExtractDat.Entry)
    : list Z * result (list Z) :=
  let raw := slice dat (Some (ExtractDat.offset e))
               (Some (ExtractDat.offset e + ExtractDat.packed_size e)) in
  match ExtractDat.decode_buffer 0 raw with
  | (Ok _, raw') => (ExtractDat.name e, Ok raw')
  | (Raise ex, _) => (ExtractDat.name e, Raise ex)
  end.

(** The same for every entry of the index. *)
Definition decode_entries (dat : list Z)
    : result (list (list Z * result (list Z))) :=
  entries ← ExtractDat.parse_dat_index dat;
  mret (map (decoded_entry dat) entries).

(** What the loop asks of the file system for one file: its parent
    directories, then the file. *)
Definition store {FS} `{!FileSystem FS} (name payload : list Z) (fs : FS)
    : result unit * FS :=
  match parent_mkdir name fs with
  | (Ok _, fs') => write_bytes name payload fs'
  | (Raise ex, fs') => (Raise ex, fs')
  end.

(** The outcome reported for a file handed to the file system. *)
Definition store_entry {FS} `{!FileSystem FS} (name payload : list Z) (fs : FS)
    : (list Z * result (list Z)) * FS :=
  let '(r, fs') := store name payload fs in
  ((name, match r with Ok _ => Ok payload | Raise ex => Raise ex end), fs').

(** Decoded entries handed to the file system one after the other: an
    entry that did not decode is reported and the file system is not
    asked. *)
Fixpoint store_results {FS} `{!FileSystem FS}
    (ds : list (list Z * result (list Z))) (fs : FS)
    : list (list Z * result (list Z)) * FS :=
  match ds with
  | [] => ([], fs)
  | (n, r) :: ds' =>
      let '(out, fs') :=
        match r with
        | Ok payload => store_entry n payload fs
        | Raise ex => ((n, Raise ex), fs)
        end in
      let '(outs, fs'') := store_results ds' fs' in
      (out :: outs, fs'')
  end.

(** The output directory is made, and the decoded entries are stored. *)
Definition run_extraction {FS} `{!FileSystem FS}
    (ds : list (list Z * result (list Z))) (fs : FS)
    : result (option (list (list Z * result (list Z)))) * FS :=
  match out_dir_mkdir fs with
  | (Raise ex, fs') => (Raise ex, fs')
  | (Ok _, fs') =>
      let '(outs, fs'') := store_results ds fs' in
      (Ok (Some outs), fs'')
  end.

(** Every entry was written. *)
Definition all_written (outs : list (list Z * result (list Z))) : Prop :=
  Forall (fun o => exists d, snd o = Ok d) outs.

(** ** A file system for the examples

    An output directory on a POSIX file system where the program may
    write below [out_dir] only, with room for everything and names of at
    most 255 bytes.  The state is the paths below [out_dir] that exist,
    with what they are; the empty path is [out_dir] itself. *)

Inductive node :=
| Dir
| File (data : list Z).

Definition tree : Type := list (list (list Z) * node).

Fixpoint tree_lookup (t : tree) (p : list (list Z)) : option node :=
  match t with
  | [] => None
  | (q, n) :: t' => if seq_eqb str_eqb q p then Some n else tree_lookup t' p
  end.

(** [name.split("/")] *)
Fixpoint split_slash (name : list Z) : list (list Z) :=
  match name with
  | [] => [[]]
  | c :: name' =>
      if c =? 47 then [] :: split_slash name'
      else match split_slash name' with
           | [] => [[c]]
           | p :: ps => (c :: p) :: ps
           end
  end.

(** The components of [out_dir / name] below [out_dir]: empty components
    and [.] do not count. *)
Definition path_below (name : list Z) : list (list Z) :=
  List.filter (fun p => negb (str_eqb p []) && negb (str_eqb p [46]))
    (split_slash name).

(** A name that starts with [/] or goes through [..] leads out of
    [out_dir]. *)
Definition leaves_out_dir (name : list Z) : bool :=
  match name with
  | 47 :: _ => true
  | _ => false
  end
  || existsb (str_eqb [46; 46]) (split_slash name).

Definition name_too_long (p : list Z) : bool :=
  match utf8_encode p with
  | Ok bs => (255 <? length bs)%nat
  | Raise _ => true
  end.

(** The [errno] for a name the file system will not take, if any:
    13 ([EACCES]) outside [out_dir], 36 ([ENAMETOOLONG]). *)
Definition refused (name : list Z) : option Z :=
  if leaves_out_dir name then Some 13
  else if existsb name_too_long (path_below name) then Some 36
  else None.

(** [mkdir(parents=True, exist_ok=True)] of the path [pre ++ p], where
    the ancestors of [pre] exist: a file in the way gives 17 ([EEXIST])
    when it has the name of the directory itself, 20 ([ENOTDIR]) when it
    is above. *)
Fixpoint mkdir_from (pre p : list (list Z)) (t : tree) : option Z * tree :=
  match tree_lookup t pre with
  | Some (File _) => (Some (match p with [] => 17 | _ => 20 end), t)
  | found =>
      let t' := match found with None => (pre, Dir) :: t | _ => t end in
      match p with
      | [] => (None, t')
      | c :: p' => mkdir_from (pre ++ [c]) p' t'
      end
  end.

(** The directories above [pre ++ p], from [pre] down, are there: if not,
    20 ([ENOTDIR]) for a file in the way and 2 ([ENOENT]) for nothing. *)
Fixpoint ancestors (pre p : list (list Z)) (t : tree) : option Z :=
  match p with
  | [] => None
  | c :: p' =>
      match tree_lookup t pre with
      | Some Dir => ancestors (pre ++ [c]) p' t
      | Some (File _) => Some 20
      | None => Some 2
      end
  end.

Definition tree_parent_mkdir (name : list Z) (t : tree) : option Z * tree :=
  match refused name with
  | Some errno => (Some errno, t)
  | None =>
      match path_below name with
      | [] => (None, t)
      | p => mkdir_from [] (removelast p) t
      end
  end.

(** Opening [out_dir / name] for writing and writing [data]: a directory
    of that name gives 21 ([EISDIR]). *)
Definition tree_write (name data : list Z) (t : tree) : option Z * tree :=
  match refused name with
  | Some errno => (Some errno, t)
  | None =>
      let p := path_below name in
      match ancestors [] p t with
      | Some errno => (Some errno, t)
      | None =>
          match tree_lookup t p with
          | Some Dir => (Some 21, t)
          | _ => (None, (p, File data) :: t)
          end
      end
  end.

Definition os_result (r : option Z * tree) : result unit * tree :=
  match r with
  | (None, t) => (Ok tt, t)
  | (Some errno, t) => (Raise (OSError errno), t)
  end.

#[global] Instance tree_fs : FileSystem tree := {|
  out_dir_mkdir t := os_result (mkdir_from [] [] t);
  parent_mkdir name t := os_result (tree_parent_mkdir name t);
  write_bytes name data t := os_result (tree_write name data t)
|}.

(** ** Inputs of the examples *)

(** The file [a.txt] holding [ABCDE]. *)
Definition a_txt : PackDat.DirItem :=
  {| PackDat.rel_parts := [str_of "a.txt"];
     PackDat.file_bytes := Some [0x41; 0x42; 0x43; 0x44; 0x45] |}.

Definition entry_sample : PackDat.FileEntry :=
  {| PackDat.name := str_of "bg/title.png";
     PackDat.data := [1; 2; 3];
     PackDat.offset := 70000 |}.

(** An archive of one data byte whose only entry claims five bytes at
    offset zero. *)
Definition oversized_entry_archive : list Z :=
  [0xBE] ++ ExtractDat.nibble_swap (entry_layout [97] 0 5) ++ [1; 0; 0; 0].

(** A directory with the file [a.txt], the directory [a] and the file
    [a/b], listed in that order. *)
Definition dir_a_b : list PackDat.DirItem :=
  [ {| PackDat.rel_parts := [str_of "a.txt"];
       PackDat.file_bytes := Some [0x32] |};
    {| PackDat.rel_parts := [str_of "a"]; PackDat.file_bytes := None |};
    {| PackDat.rel_parts := [str_of "a"; str_of "b"];
       PackDat.file_bytes := Some [0x31] |} ].

(** An entry whose name is seventy times the letter [a]. *)
Definition long_name_entry : PackDat.FileEntry :=
  {| PackDat.name := replicate 70 0x61; PackDat.data := [1; 2];
     PackDat.offset := 5 |}.

(** A directory with one file whose name is seventy times the letter [a]
    and whose twelve bytes are zero. *)
Definition dir_long_name : list PackDat.DirItem :=
  [ {| PackDat.rel_parts := [replicate 70 0x61];
       PackDat.file_bytes := Some (replicate 12 0) |} ].

(** An entry whose name is 62 times the letter [a] and a euro sign, which
    takes bytes 62 to 64. *)
Definition euro_name_entry : PackDat.FileEntry :=
  {| PackDat.name := replicate 62 0x61 ++ [0x20AC]; PackDat.data := [1];
     PackDat.offset := 0 |}.

(** A directory with [a.txt] and an empty file [b.txt]. *)
Definition dir_empty_file : list PackDat.DirItem :=
  [ {| PackDat.rel_parts := [str_of "a.txt"];
       PackDat.file_bytes := Some [0x32] |};
    {| PackDat.rel_parts := [str_of "b.txt"]; PackDat.file_bytes := Some [] |} ].

(** A directory with [bg/title.png], nine bytes long, and [a.txt]. *)
Definition dir_two_files : list PackDat.DirItem :=
  [ {| PackDat.rel_parts := [str_of "bg"; str_of "title.png"];
       PackDat.file_bytes :=
         Some [0x89; 0x50; 0x4E; 0x47; 0x0D; 0x0A; 0x1A; 0x0A; 0x00] |};
    {| PackDat.rel_parts := [str_of "bg"]; PackDat.file_bytes := None |};
    a_txt ].

(** A directory with the two files [x] and [x\y]; on POSIX the
    backslash is a character of the name like any other. *)
Definition dir_x_and_x_backslash_y : list PackDat.DirItem :=
  [ {| PackDat.rel_parts := [str_of "x"]; PackDat.file_bytes := Some [0x41] |};
    {| PackDat.rel_parts := [[120; 92; 121]];
       PackDat.file_bytes := Some [0x42] |} ].

(** ** The [.pak] archive *)

(** The unsigned 32-bit integer at position [p] of a file. *)
Definition u32_at (file : list Z) (p : Z) : Z :=
  from_bytes_little (take 4 (drop (Z.to_nat p) file)).

(** The file count of the header. *)
Definition pak_count (file : list Z) : Z := u32_at file 0.

(** The offsets of the header, and the size of the file after them. *)
Definition pak_offsets (file : list Z) : list Z :=
  map (fun i => u32_at file (4 + 4 * Z.of_nat i))
      (seq 0 (Z.to_nat (pak_count file)))
  ++ [Z.of_nat (length file)].

Fixpoint nondecreasing (l : list Z) : bool :=
  match l with
  | a :: (b :: _) as l' => (a <=? b) && nondecreasing l'
  | _ => true
  end.

(** One entry between each offset and the next. *)
Fixpoint tile (l : list Z) : list ExtractPak.Entry :=
  match l with
  | a :: (b :: _) as l' =>
      {| ExtractPak.offset := a; ExtractPak.size := b - a |} :: tile l'
  | _ => []
  end.

(** The archives [parse_index] accepts. *)
Definition pak_accepted (file : list Z) : Prop :=
  4 <= Z.of_nat (length file)
  /\ 1 <= pak_count file <= 100000
  /\ 4 + 4 * pak_count file <= Z.of_nat (length file)
  /\ nondecreasing (pak_offsets file) = true.

(** The archives whose header announces more offsets than they hold. *)
Definition pak_truncated (file : list Z) : Prop :=
  4 <= Z.of_nat (length file)
  /\ 1 <= pak_count file <= 100000
  /\ Z.of_nat (length file) < 4 + 4 * pak_count file.

(** The bytes of an entry. *)
Definition entry_bytes (file : list Z) (e : ExtractPak.Entry) : list Z :=
  take (Z.to_nat (ExtractPak.size e))
       (drop (Z.to_nat (ExtractPak.offset e)) file).

(** The extensions [extract_pak] gives. *)
Definition extensions : list (list Z) :=
  map str_of [".png"; ".bmp"; ".wav"; ".ogg"; ".jpg"; ".txt"; ".bin"; ".xma"]%string.

(** A decimal digit. *)
Definition is_digit (c : Z) : Prop := 48 <= c <= 57.

(** The number a string of digits writes. *)
Definition digits_value (s : list Z) : Z :=
  fold_left (fun acc c => 10 * acc + (c - 48)) s 0.

(** The contents of the regular files of a listing, in the order
    [pack_pak] writes them. *)
Definition packed_data (items : list PackDat.DirItem) : list (list Z) :=
  map (fun f => default [] (PackDat.file_bytes f)) (PackPak.collect_files items).

(** The offsets [pack_pak] gives to files of these contents, and the end
    offset after them. *)
Fixpoint offsets_from (current_offset : Z) (datas : list (list Z)) : list Z :=
  match datas with
  | [] => [current_offset]
  | d :: datas' =>
      current_offset :: offsets_from (current_offset + Z.of_nat (length d)) datas'
  end.

(** What fits a [.pak] archive: at most 510 files, and an end offset
    below [2^32]. *)
Definition pak_fits (datas : list (list Z)) : Prop :=
  (1 <= length datas <= 510)%nat
  /\ 2048 + Z.of_nat (length (concat datas)) < 2 ^ 32.

(** [str.lower] on ASCII strings. *)
Definition ascii_lower (s : list Z) : list Z :=
  map (fun c => if (65 <=? c) && (c <=? 90) then c + 32 else c) s.

(** An archive of two entries, [[1; 2; 3]] and the empty one, with the
    offsets right after the header. *)
Definition small_pak : list Z :=
  [2; 0; 0; 0; 12; 0; 0; 0; 15; 0; 0; 0; 1; 2; 3].

(** An archive that announces three entries and holds one offset. *)
Definition truncated_pak : list Z := [3; 0; 0; 0; 8; 0; 0; 0].

(** ** What [extract_pak] writes *)

(** [is_xma2_wave] as a test. *)
Definition xma2 (data : list Z) : bool :=
  match ExtractPak.is_xma2_wave data with
  | PyFile.Returns b => b
  | PyFile.Raises _ => false
  end.

(** The extension of the file written for [data]. *)
Definition extension (lower : list Z -> list Z) (pak_name data : list Z)
    : list Z :=
  let ext :=
    ExtractPak.detect_file_type lower (slice data None (Some 64)) pak_name in
  if str_eqb ext (str_of ".wav") && xma2 data then str_of ".xma" else ext.

(** The name of the file written for entry [i], which holds [data]. *)
Definition out_name (lower : list Z -> list Z)
    (pak_name base_name : list Z) (i : Z) (data : list Z) : list Z :=
  base_name ++ str_of "_" ++ PyFile.format_04d i
  ++ extension lower pak_name data.

(** The files written for [entries], numbered from [i]. *)
Fixpoint outputs (lower : list Z -> list Z) (file pak_name base_name : list Z)
    (i : Z) (entries : list ExtractPak.Entry) : ExtractPak.Written :=
  match entries with
  | [] => []
  | e :: entries' =>
      (out_name lower pak_name base_name i (entry_bytes file e),
       entry_bytes file e)
      :: outputs lower file pak_name base_name (i + 1) entries'
  end.

(** ** What [pack_pak] writes *)

(** The integers of the header: the file count, the offset of each file
    and the end offset. *)
Definition pak_header (datas : list (list Z)) : list Z :=
  le_digits 4 (Z.of_nat (length datas))
  ++ concat (map (le_digits 4) (offsets_from 2048 datas)).

(** The archive: the header, zeros up to offset 2048, the files. *)
Definition pak_layout (datas : list (list Z)) : list Z :=
  pak_header datas
  ++ replicate (2048 - length (pak_header datas)) 0
  ++ concat datas.

(** A value that [struct.pack("<I", _)] accepts. *)
Definition is_u32 (v : Z) : Prop := 0 <= v < 2 ^ 32.

(** A directory of two files, listed out of order, and a subdirectory. *)
Definition pak_dir : list PackDat.DirItem :=
  [ {| PackDat.rel_parts := [str_of "b.bin"];
       PackDat.file_bytes := Some [1; 2; 3] |};
    {| PackDat.rel_parts := [str_of "sub"];
       PackDat.file_bytes := None |};
    {| PackDat.rel_parts := [str_of "a.wav"];
       PackDat.file_bytes := Some (str_of "RIFF") |} ].

(** The files handed to the file system one after the other, up to the
    first that it refuses; [written] are the files written before. *)
Fixpoint write_all {FS} `{!PyFile.OutDir FS} (files : ExtractPak.Written)
    (fs : FS) (written : ExtractPak.Written)
    : PyFile.outcome unit * (FS * ExtractPak.Written) :=
  match files with
  | [] => (PyFile.Returns tt, (fs, written))
  | (n, d) :: files' =>
      match PyFile.write_out n d fs with
      | (PyFile.Returns _, fs') => write_all files' fs' (written ++ [(n, d)])
      | (PyFile.Raises e, fs') => (PyFile.Raises e, (fs', written))
      end
  end.

Definition os_outcome (r : option Z * tree) : PyFile.outcome unit * tree :=
  match r with
  | (None, t) => (PyFile.Returns tt, t)
  | (Some errno, t) => (PyFile.Raises (PyFile.OSError errno), t)
  end.

(** The file system of the examples, as [extract_pak] uses it. *)
#[global] Instance tree_out_dir : PyFile.OutDir tree := {|
  PyFile.makedirs t := os_outcome (mkdir_from [] [] t);
  PyFile.write_out name data t := os_outcome (tree_write name data t)
|}.

(** An archive of one entry, a RIFF file whose format tag is [0x0166]. *)
Definition xma_pak : list Z :=
  [1; 0; 0; 0; 8; 0; 0; 0]
  ++ str_of "RIFF" ++ str_of "fmt " ++ [16; 0; 0; 0; 0x66; 0x01].

(** The listing of [out_dir] after [extract_pak] has written into the
    empty directory: one regular file for each file written, directly
    below [out_dir], since [base_name] comes from [os.path.basename] and
    holds no separator. *)
Definition extracted_dir (written : ExtractPak.Written)
    : list PackDat.DirItem :=
  map (fun w => {| PackDat.rel_parts := [fst w];
                   PackDat.file_bytes := Some (snd w) |}) written.

(** [needle] is in [data] at position [p]. *)
Definition occurs_at (needle data : list Z) (p : nat) : Prop :=
  take (length needle) (drop p data) = needle.

(** A RIFF file with the tag [0x0166] eight bytes after [fmt ]. *)
Definition xma_data : list Z :=
  str_of "RIFF" ++ str_of "fmt " ++ [16; 0; 0; 0; 0x66; 0x01].

(** A directory of 511 empty files. *)
Definition crowded_dir : list PackDat.DirItem :=
  map (fun i => {| PackDat.rel_parts := [PyFile.format_04d i];
                   PackDat.file_bytes := Some [] |}) (range 511).

(** * Properties *)

(** ** Loops *)

Lemma while_lt_fuel step body end_ fuel1 :
  0 < step ->
  forall fuel2 i,
    (Z.to_nat (end_ - i) <= fuel1)%nat -> (Z.to_nat (end_ - i) <= fuel2)%nat ->
    while_lt fuel1 step body i end_ = while_lt fuel2 step body i end_.
Proof.
  intros Hstep. induction fuel1 as [|fuel1 IH]; intros fuel2 i H1 H2.
  - destruct fuel2 as [|fuel2]; [reflexivity|]. simpl.
    destruct (Z.ltb_spec i end_); [lia | reflexivity].
  - destruct fuel2 as [|fuel2]; simpl.
    + destruct (Z.ltb_spec i end_); [lia | reflexivity].
    + destruct (Z.ltb_spec i end_); [|reflexivity].
      rewrite (IH fuel2 (i + step)) by lia. reflexivity.
Qed.

(** The loop equation: [while_] has fuel enough to be the [while] loop. *)
Lemma while_unfold step body i end_ :
  0 < step ->
  while_ step body i end_
  = if i <? end_ then body i ;; while_ step body (i + step) end_ else mret tt.
Proof.
  intros Hstep. unfold while_.
  destruct (Z.ltb_spec i end_) as [Hlt|Hge].
  - destruct (Z.to_nat (end_ - i)) as [|n] eqn:E; [lia|]. simpl.
    destruct (Z.ltb_spec i end_); [|lia].
    rewrite (while_lt_fuel step body end_ n Hstep
               (Z.to_nat (end_ - (i + step))) (i + step)) by lia.
    reflexivity.
  - replace (Z.to_nat (end_ - i)) with O by lia. reflexivity.
Qed.

Lemma index_in_range n i :
  0 <= i < Z.of_nat n -> index n i = Some (Z.to_nat i).
Proof.
  intros H. unfold index.
  destruct (Z.ltb_spec i 0); [lia|].
  destruct (Z.leb_spec 0 i); [|lia].
  destruct (Z.ltb_spec i (Z.of_nat n)); [|lia]. reflexivity.
Qed.

Lemma mod_same_window m x i :
  0 < m -> i <= x < i + m -> x mod m = i mod m -> x = i.
Proof.
  intros Hm Hx Hmod.
  assert (H : (x - i) mod m = 0).
  { rewrite Zminus_mod, Hmod, Z.sub_diag. apply Z.mod_0_l. lia. }
  rewrite Z.mod_small in H by lia. lia.
Qed.

(** A stride loop whose body rewrites the byte at [i - s] with [op i]
    computes [stage], from any starting point of the right residue. *)
Lemma while_lt_stage m r op body s :
  0 < m ->
  (forall i buf, i < s + Z.of_nat (length buf) ->
     body i buf
     = (Ok tt, if i >=? s then alter (op i) (Z.to_nat (i - s)) buf else buf)) ->
  forall fuel i buf,
    i mod m = r ->
    (Z.to_nat (s + Z.of_nat (length buf) - i) <= fuel)%nat ->
    while_lt fuel m body i (s + Z.of_nat (length buf)) buf
    = (Ok tt,
       imap (fun p b =>
               if (i <=? s + Z.of_nat p) && ((s + Z.of_nat p) mod m =? r)
               then op (s + Z.of_nat p) b else b) buf).
Proof.
  intros Hm Hbody. induction fuel as [|fuel IH]; intros i buf Hi Hfuel.
  - simpl. unfold mret, Buf_ret. f_equal.
    apply list_eq. intros p. rewrite list_lookup_imap.
    destruct (buf !! p) as [b|] eqn:E; [|reflexivity]. simpl.
    apply lookup_lt_Some in E.
    destruct (Z.leb_spec i (s + Z.of_nat p)); [lia | reflexivity].
  - simpl. destruct (Z.ltb_spec i (s + Z.of_nat (length buf))) as [Hlt|Hge].
    + unfold mbind, Buf_bind. rewrite Hbody by lia.
      set (buf1 := if i >=? s then alter (op i) (Z.to_nat (i - s)) buf else buf).
      assert (Hlen : length buf1 = length buf).
      { subst buf1. destruct (i >=? s); [apply length_alter | reflexivity]. }
      rewrite <- Hlen. rewrite IH; rewrite ?Hlen.
      2:{ replace (i + m) with (i + 1 * m) by lia.
          rewrite Z_mod_plus_full. exact Hi. }
      2:{ lia. }
      f_equal. apply list_eq. intros p. rewrite !list_lookup_imap.
      subst buf1. destruct (Z.geb_spec i s) as [Hs|Hs].
      * destruct (decide (p = Z.to_nat (i - s))) as [->|Hne].
        -- rewrite list_lookup_alter_eq.
           destruct (buf !! Z.to_nat (i - s)) as [b|] eqn:E; [|reflexivity].
           simpl. rewrite Z2Nat.id by lia.
           replace (s + (i - s)) with i by lia.
           destruct (Z.leb_spec (i + m) i); [lia|].
           rewrite Z.leb_refl, Hi, Z.eqb_refl. reflexivity.
        -- rewrite list_lookup_alter_ne by congruence.
           destruct (buf !! p) as [b|] eqn:E; [|reflexivity]. simpl.
           destruct (Z.eqb_spec ((s + Z.of_nat p) mod m) r) as [Hr|Hr];
             rewrite ?andb_false_r; [|reflexivity].
           rewrite !andb_true_r.
           destruct (Z.leb_spec (i + m) (s + Z.of_nat p)),
                    (Z.leb_spec i (s + Z.of_nat p)); try reflexivity; try lia.
           exfalso. apply Hne.
           assert (s + Z.of_nat p = i) by (apply (mod_same_window m); lia).
           lia.
      * destruct (buf !! p) as [b|] eqn:E; [|reflexivity]. simpl.
        destruct (Z.eqb_spec ((s + Z.of_nat p) mod m) r) as [Hr|Hr];
          rewrite ?andb_false_r; [|reflexivity].
        rewrite !andb_true_r.
        destruct (Z.leb_spec (i + m) (s + Z.of_nat p)),
                 (Z.leb_spec i (s + Z.of_nat p)); try reflexivity; try lia.
        exfalso.
        assert (s + Z.of_nat p = i) by (apply (mod_same_window m); lia).
        lia.
    + unfold mret, Buf_ret. f_equal.
      apply list_eq. intros p. rewrite list_lookup_imap.
      destruct (buf !! p) as [b|] eqn:E; [|reflexivity]. simpl.
      apply lookup_lt_Some in E.
      destruct (Z.leb_spec i (s + Z.of_nat p)); [lia | reflexivity].
Qed.

Lemma while_stage m r op body s buf :
  0 < m -> 0 <= r < m ->
  (forall i buf, i < s + Z.of_nat (length buf) ->
     body i buf
     = (Ok tt, if i >=? s then alter (op i) (Z.to_nat (i - s)) buf else buf)) ->
  while_ m body (m * (s / m) + r) (s + Z.of_nat (length buf)) buf
  = (Ok tt, stage m r op s buf).
Proof.
  intros Hm Hr Hbody. unfold while_.
  rewrite (while_lt_stage m r op body s Hm Hbody); [|
    rewrite Z.add_comm, Z.mul_comm, Z.mod_add by lia; apply Z.mod_small; lia |
    lia].
  unfold stage. f_equal. apply imap_ext. intros p b _. simpl.
  destruct (Z.eqb_spec ((s + Z.of_nat p) mod m) r) as [E|E];
    rewrite ?andb_false_r; [|reflexivity].
  rewrite andb_true_r.
  destruct (Z.leb_spec (m * (s / m) + r) (s + Z.of_nat p)); [reflexivity|].
  exfalso.
  assert (s / m <= (s + Z.of_nat p) / m) by (apply Z.div_le_mono; lia).
  pose proof (Z.div_mod (s + Z.of_nat p) m ltac:(lia)). nia.
Qed.

(** ** The three transforms compute [T1], [T2] and [T3] *)

Lemma insert_nth_alter (f : Z -> Z) n (buf : list Z) :
  <[n := f (nth n buf 0)]> buf = alter f n buf.
Proof.
  apply list_eq. intros p. destruct (decide (p = n)) as [->|Hne].
  - rewrite list_lookup_alter_eq. destruct (buf !! n) as [b|] eqn:E.
    + rewrite list_lookup_insert_eq by (eapply lookup_lt_Some; eauto).
      simpl. f_equal. f_equal. rewrite nth_lookup, E. reflexivity.
    + rewrite list_insert_ge by (apply lookup_ge_None; exact E).
      rewrite E. reflexivity.
  - rewrite list_lookup_insert_ne, list_lookup_alter_ne by congruence.
    reflexivity.
Qed.

Lemma length_stage m r op s buf : length (stage m r op s buf) = length buf.
Proof. apply length_imap. Qed.

Lemma lookup_stage m r op s buf p :
  stage m r op s buf !! p
  = (fun b => if (s + Z.of_nat p) mod m =? r
              then op (s + Z.of_nat p) b else b) <$> buf !! p.
Proof. unfold stage. apply list_lookup_imap. Qed.

Lemma key_index_range j : 0 <= j mod 6 + (j / 5) mod 5 < 10.
Proof.
  pose proof (Z.mod_pos_bound j 6 ltac:(lia)).
  pose proof (Z.mod_pos_bound (j / 5) 5 ltac:(lia)). lia.
Qed.

Lemma transform1_stage s buf :
  Transform.transform1 s (s + Z.of_nat (length buf)) buf = (Ok tt, T1 s buf).
Proof.
  unfold Transform.transform1, T1. rewrite Z.shiftr_div_pow2 by lia.
  change (2 ^ 2) with 4.
  apply while_stage; [lia | lia |]. intros i b Hi.
  destruct (Z.geb_spec i s) as [Hs|Hs]; [|reflexivity].
  unfold mbind, Buf_bind, getitem, setitem.
  rewrite index_in_range by lia. rewrite index_in_range by lia.
  rewrite insert_nth_alter. reflexivity.
Qed.

Lemma transform2_stage s buf :
  Transform.transform2 s (s + Z.of_nat (length buf)) buf = (Ok tt, T2 s buf).
Proof.
  unfold Transform.transform2, T2.
  rewrite <- (Z.add_0_r (3 * (s / 3))).
  apply while_stage; [lia | lia |]. intros i b Hi.
  destruct (Z.geb_spec i s) as [Hs|Hs]; [|reflexivity].
  unfold mbind, Buf_bind, getitem, setitem, list_getitem.
  rewrite index_in_range by lia.
  rewrite (index_in_range (length Transform.v12)) by (apply key_index_range).
  rewrite index_in_range by lia.
  fold (key i). rewrite (insert_nth_alter (fun b => Z.lxor b (key i))).
  reflexivity.
Qed.

Lemma transform3_stage s buf :
  Transform.transform3 s (s + Z.of_nat (length buf)) buf = (Ok tt, T3 s buf).
Proof.
  unfold Transform.transform3, T3.
  apply while_stage; [lia | lia |]. intros i b Hi.
  destruct (Z.geb_spec i s) as [Hs|Hs]; [|reflexivity].
  unfold mbind, Buf_bind, getitem, setitem.
  rewrite index_in_range by lia. rewrite index_in_range by lia.
  rewrite insert_nth_alter. reflexivity.
Qed.

(** Three transforms in a row, in any order. *)
Lemma three_stages (t1 t2 t3 : Z -> Z -> Buf unit) (f1 f2 f3 : Z -> list Z -> list Z)
    s buf :
  (forall b, t1 s (s + Z.of_nat (length b)) b = (Ok tt, f1 s b)) ->
  (forall b, t2 s (s + Z.of_nat (length b)) b = (Ok tt, f2 s b)) ->
  (forall b, t3 s (s + Z.of_nat (length b)) b = (Ok tt, f3 s b)) ->
  (forall b, length (f1 s b) = length b) ->
  (forall b, length (f2 s b) = length b) ->
  (t1 s (s + Z.of_nat (length buf)) ;; t2 s (s + Z.of_nat (length buf)) ;;
   t3 s (s + Z.of_nat (length buf))) buf
  = (Ok tt, f3 s (f2 s (f1 s buf))).
Proof.
  intros H1 H2 H3 L1 L2. unfold mbind, Buf_bind.
  rewrite H1. rewrite <- (L1 buf) at 1. rewrite H2.
  rewrite <- (L1 buf), <- (L2 (f1 s buf)). rewrite H3. reflexivity.
Qed.

Lemma mode1_decode s buf :
  (Transform.transform1 s (s + Z.of_nat (length buf)) ;;
   Transform.transform2 s (s + Z.of_nat (length buf)) ;;
   Transform.transform3 s (s + Z.of_nat (length buf))) buf
  = (Ok tt, T3 s (T2 s (T1 s buf))).
Proof.
  apply (three_stages Transform.transform1 Transform.transform2
           Transform.transform3 T1 T2 T3);
    auto using transform1_stage, transform2_stage, transform3_stage;
    intros; apply length_stage.
Qed.

Lemma mode2_decode s buf :
  (Transform.transform3 s (s + Z.of_nat (length buf)) ;;
   Transform.transform2 s (s + Z.of_nat (length buf)) ;;
   Transform.transform1 s (s + Z.of_nat (length buf))) buf
  = (Ok tt, T1 s (T2 s (T3 s buf))).
Proof.
  apply (three_stages Transform.transform3 Transform.transform2
           Transform.transform1 T3 T2 T1);
    auto using transform1_stage, transform2_stage, transform3_stage;
    intros; apply length_stage.
Qed.

(** ** What [decode_buffer] and [encode_buffer] compute *)

Lemma bind_ok {A B} (m : Buf A) (k : A -> Buf B) buf a buf' :
  m buf = (Ok a, buf') -> (m ≫= k) buf = k a buf'.
Proof. intros H. unfold mbind, Buf_bind. rewrite H. reflexivity. Qed.

Lemma choose_mode_nonzero s buf :
  s <> 0 -> Transform.choose_mode s buf = (Ok 1, buf).
Proof.
  intros Hs. unfold Transform.choose_mode.
  destruct (Z.eqb_spec s 0); [contradiction | reflexivity].
Qed.

Lemma choose_mode_zero b0 rest :
  Transform.choose_mode 0 (b0 :: rest)
  = (Ok (if b0 <? 0x80 then 2 else 1), b0 :: rest).
Proof.
  unfold Transform.choose_mode. change (negb (0 =? 0)) with false. cbv iota.
  rewrite (bind_ok _ _ _ b0 (b0 :: rest)) by reflexivity.
  destruct (b0 <? 128); reflexivity.
Qed.

Lemma choose_mode_empty : Transform.choose_mode 0 [] = (Raise IndexError, []).
Proof. reflexivity. Qed.

Lemma decode_buffer_nonzero s buf :
  s <> 0 -> ExtractDat.decode_buffer s buf = (Ok tt, T3 s (T2 s (T1 s buf))).
Proof.
  intros Hs. unfold ExtractDat.decode_buffer.
  rewrite (bind_ok len _ buf (Z.of_nat (length buf)) buf) by reflexivity.
  rewrite (bind_ok _ _ buf 1 buf) by (apply choose_mode_nonzero, Hs).
  change (1 =? 1) with true. cbv iota. apply mode1_decode.
Qed.

Lemma encode_buffer_nonzero s buf :
  s <> 0 -> PackDat.encode_buffer s buf = (Ok tt, T1 s (T2 s (T3 s buf))).
Proof.
  intros Hs. unfold PackDat.encode_buffer.
  rewrite (bind_ok len _ buf (Z.of_nat (length buf)) buf) by reflexivity.
  rewrite (bind_ok _ _ buf 1 buf) by (apply choose_mode_nonzero, Hs).
  change (1 =? 1) with true. cbv iota. apply mode2_decode.
Qed.

Lemma decode_buffer_zero b0 rest :
  ExtractDat.decode_buffer 0 (b0 :: rest)
  = (Ok tt, if b0 <? 0x80 then T1 0 (T2 0 (T3 0 (b0 :: rest)))
            else T3 0 (T2 0 (T1 0 (b0 :: rest)))).
Proof.
  unfold ExtractDat.decode_buffer.
  rewrite (bind_ok len _ _ (Z.of_nat (length (b0 :: rest))) (b0 :: rest))
    by reflexivity.
  rewrite (bind_ok _ _ _ _ _ (choose_mode_zero b0 rest)).
  destruct (b0 <? 128).
  - change (2 =? 1) with false. change (2 =? 2) with true. cbv iota.
    apply mode2_decode.
  - change (1 =? 1) with true. cbv iota. apply mode1_decode.
Qed.

Lemma encode_buffer_zero b0 rest :
  PackDat.encode_buffer 0 (b0 :: rest)
  = (Ok tt, if b0 <? 0x80 then T3 0 (T2 0 (T1 0 (b0 :: rest)))
            else T1 0 (T2 0 (T3 0 (b0 :: rest)))).
Proof.
  unfold PackDat.encode_buffer.
  rewrite (bind_ok len _ _ (Z.of_nat (length (b0 :: rest))) (b0 :: rest))
    by reflexivity.
  rewrite (bind_ok _ _ _ _ _ (choose_mode_zero b0 rest)).
  destruct (b0 <? 128).
  - change (2 =? 1) with false. change (2 =? 2) with true. cbv iota.
    apply mode1_decode.
  - change (1 =? 1) with true. cbv iota. apply mode2_decode.
Qed.

Lemma decode_buffer_empty : ExtractDat.decode_buffer 0 [] = (Raise IndexError, []).
Proof. reflexivity. Qed.

Lemma encode_buffer_empty : PackDat.encode_buffer 0 [] = (Raise IndexError, []).
Proof. reflexivity. Qed.

(** ** Bytes *)

Lemma byte_cases (P : Z -> bool) :
  forallb P (range 256) = true -> forall b, is_byte b -> P b = true.
Proof.
  intros H b [Hlo Hhi]. rewrite forallb_forall in H. apply H.
  unfold range. rewrite <- (Z2Nat.id b) by lia.
  apply in_map, in_seq. lia.
Qed.

Lemma negate_byte b : is_byte b -> is_byte (Transform.negate b).
Proof.
  intros H.
  pose proof (byte_cases
    (fun b => (0 <=? Transform.negate b) && (Transform.negate b <? 256))
    ltac:(vm_compute; reflexivity) b H) as C.
  cbv beta in C. apply andb_true_iff in C as [C1 C2]. unfold is_byte. lia.
Qed.

Lemma negate_involutive b :
  is_byte b -> Transform.negate (Transform.negate b) = b.
Proof.
  intros H.
  pose proof (byte_cases
    (fun b => Transform.negate (Transform.negate b) =? b)
    ltac:(vm_compute; reflexivity) b H) as C.
  cbv beta in C. lia.
Qed.

Lemma swap_nibbles_byte b : is_byte b -> is_byte (Transform.swap_nibbles b).
Proof.
  intros H.
  pose proof (byte_cases
    (fun b => (0 <=? Transform.swap_nibbles b)
              && (Transform.swap_nibbles b <? 256))
    ltac:(vm_compute; reflexivity) b H) as C.
  cbv beta in C. apply andb_true_iff in C as [C1 C2]. unfold is_byte. lia.
Qed.

Lemma swap_nibbles_involutive b :
  is_byte b -> Transform.swap_nibbles (Transform.swap_nibbles b) = b.
Proof.
  intros H.
  pose proof (byte_cases
    (fun b => Transform.swap_nibbles (Transform.swap_nibbles b) =? b)
    ltac:(vm_compute; reflexivity) b H) as C.
  cbv beta in C. lia.
Qed.

Lemma key_cases (P : Z -> bool) :
  forallb (fun i => P (Z.land (nth i Transform.v12 0) 0xFF)) (seq 0 10) = true ->
  forall j, P (key j) = true.
Proof.
  intros H j. rewrite forallb_forall in H. unfold key. apply H.
  apply in_seq. pose proof (key_index_range j). lia.
Qed.

Lemma xor_key_byte j b : is_byte b -> is_byte (Z.lxor b (key j)).
Proof.
  intros H.
  set (P k := forallb (fun b => (0 <=? Z.lxor b k) && (Z.lxor b k <? 256))
                (range 256)).
  assert (C : P (key j) = true) by (apply (key_cases P); vm_compute; reflexivity).
  pose proof (byte_cases _ C b H) as C'. cbv beta in C'.
  apply andb_true_iff in C' as [C1 C2]. unfold is_byte. lia.
Qed.

Lemma xor_key_involutive j b : Z.lxor (Z.lxor b (key j)) (key j) = b.
Proof. rewrite Z.lxor_assoc, Z.lxor_nilpotent, Z.lxor_0_r. reflexivity. Qed.

Lemma xor_ff_high_bit b : is_byte b -> (Z.lxor b 0xFF <? 0x80) = negb (b <? 0x80).
Proof.
  intros H.
  pose proof (byte_cases
    (fun b => Bool.eqb (Z.lxor b 0xFF <? 0x80) (negb (b <? 0x80)))
    ltac:(vm_compute; reflexivity) b H) as C.
  cbv beta in C. apply eqb_prop in C. exact C.
Qed.

(** ** Stages on well-formed buffers *)

Lemma stage_bytes_ok m r op s buf :
  (forall j b, is_byte b -> is_byte (op j b)) ->
  bytes_ok buf -> bytes_ok (stage m r op s buf).
Proof.
  intros Hop Hbuf. unfold bytes_ok in *. rewrite Forall_lookup in *.
  intros p x. rewrite lookup_stage.
  destruct (buf !! p) as [b|] eqn:E; [|discriminate]. simpl.
  intros [= <-]. specialize (Hbuf p b E).
  destruct (_ =? _); auto.
Qed.

Lemma stage_involutive m r op s buf :
  (forall j b, is_byte b -> op j (op j b) = b) ->
  bytes_ok buf -> stage m r op s (stage m r op s buf) = buf.
Proof.
  intros Hop Hbuf. unfold bytes_ok in Hbuf. rewrite Forall_lookup in Hbuf.
  apply list_eq. intros p. rewrite !lookup_stage.
  destruct (buf !! p) as [b|] eqn:E; [|reflexivity]. simpl.
  specialize (Hbuf p b E).
  destruct (_ =? _); [rewrite Hop by assumption|]; reflexivity.
Qed.

Lemma T1_bytes_ok s buf : bytes_ok buf -> bytes_ok (T1 s buf).
Proof. apply stage_bytes_ok. intros _ b. apply negate_byte. Qed.

Lemma T2_bytes_ok s buf : bytes_ok buf -> bytes_ok (T2 s buf).
Proof. apply stage_bytes_ok. intros j b. apply xor_key_byte. Qed.

Lemma T3_bytes_ok s buf : bytes_ok buf -> bytes_ok (T3 s buf).
Proof. apply stage_bytes_ok. intros _ b. apply swap_nibbles_byte. Qed.

Lemma T1_involutive s buf : bytes_ok buf -> T1 s (T1 s buf) = buf.
Proof. apply stage_involutive. intros _ b. apply negate_involutive. Qed.

Lemma T2_involutive s buf : bytes_ok buf -> T2 s (T2 s buf) = buf.
Proof. apply stage_involutive. intros j b _. apply xor_key_involutive. Qed.

Lemma T3_involutive s buf : bytes_ok buf -> T3 s (T3 s buf) = buf.
Proof. apply stage_involutive. intros _ b. apply swap_nibbles_involutive. Qed.

Create HintDb bytes.
#[local] Hint Resolve T1_bytes_ok T2_bytes_ok T3_bytes_ok : bytes.

(** ** The same mode on both sides *)

(** C4: with a start offset other than zero both routines take mode 1, and
    decoding what was encoded at the same offset gives the buffer back. *)
Theorem decode_encode_nonzero_offset (buf : list Z) (s : Z) :
  bytes_ok buf -> s <> 0 ->
  exists enc,
    Transform.choose_mode s buf = (Ok 1, buf)
    /\ PackDat.encode_buffer s buf = (Ok tt, enc)
    /\ Transform.choose_mode s enc = (Ok 1, enc)
    /\ ExtractDat.decode_buffer s enc = (Ok tt, buf).
Proof.
  intros Hbuf Hs. exists (T1 s (T2 s (T3 s buf))).
  split; [apply choose_mode_nonzero, Hs|].
  split; [apply encode_buffer_nonzero, Hs|].
  split; [apply choose_mode_nonzero, Hs|].
  rewrite decode_buffer_nonzero by exact Hs.
  rewrite T1_involutive by auto with bytes.
  rewrite T2_involutive by auto with bytes.
  rewrite T3_involutive by assumption. reflexivity.
Qed.

Lemma decode_encode_nonzero_offset_witness :
  exists enc,
    Transform.choose_mode 7 [0x10; 0x80; 0xFF; 0x00; 0x7F; 0x41]
    = (Ok 1, [0x10; 0x80; 0xFF; 0x00; 0x7F; 0x41])
    /\ PackDat.encode_buffer 7 [0x10; 0x80; 0xFF; 0x00; 0x7F; 0x41] = (Ok tt, enc)
    /\ Transform.choose_mode 7 enc = (Ok 1, enc)
    /\ ExtractDat.decode_buffer 7 enc
       = (Ok tt, [0x10; 0x80; 0xFF; 0x00; 0x7F; 0x41]).
Proof.
  apply (decode_encode_nonzero_offset [0x10; 0x80; 0xFF; 0x00; 0x7F; 0x41] 7).
  - repeat constructor; unfold is_byte; lia.
  - lia.
Defined.

(** ** Positions no transform visits *)

Lemma stage_frame m r op s buf (p : nat) :
  (s + Z.of_nat p) mod m <> r -> stage m r op s buf !! p = buf !! p.
Proof.
  intros H. rewrite lookup_stage.
  destruct (Z.eqb_spec ((s + Z.of_nat p) mod m) r); [contradiction|].
  destruct (buf !! p); reflexivity.
Qed.

Lemma decode_buffer_cases s buf :
  snd (ExtractDat.decode_buffer s buf) = buf
  \/ snd (ExtractDat.decode_buffer s buf) = T3 s (T2 s (T1 s buf))
  \/ snd (ExtractDat.decode_buffer s buf) = T1 s (T2 s (T3 s buf)).
Proof.
  destruct (Z.eq_dec s 0) as [->|Hs].
  - destruct buf as [|b0 rest]; [left; reflexivity|].
    rewrite decode_buffer_zero. destruct (b0 <? 128); auto.
  - rewrite decode_buffer_nonzero by exact Hs. auto.
Qed.

Lemma encode_buffer_cases s buf :
  snd (PackDat.encode_buffer s buf) = buf
  \/ snd (PackDat.encode_buffer s buf) = T3 s (T2 s (T1 s buf))
  \/ snd (PackDat.encode_buffer s buf) = T1 s (T2 s (T3 s buf)).
Proof.
  destruct (Z.eq_dec s 0) as [->|Hs].
  - destruct buf as [|b0 rest]; [left; reflexivity|].
    rewrite encode_buffer_zero. destruct (b0 <? 128); auto.
  - rewrite encode_buffer_nonzero by exact Hs. auto.
Qed.

Lemma three_stages_frame s buf (p : nat) out :
  out = buf \/ out = T3 s (T2 s (T1 s buf)) \/ out = T1 s (T2 s (T3 s buf)) ->
  length out = length buf
  /\ ((s + Z.of_nat p) mod 4 <> 1 -> (s + Z.of_nat p) mod 3 <> 0 ->
      (s + Z.of_nat p) mod 6 <> 2 -> out !! p = buf !! p).
Proof.
  unfold T1, T2, T3. intros [-> | [-> | ->]]; split; try reflexivity;
    rewrite ?length_stage; try reflexivity;
    intros H1 H2 H3; rewrite !stage_frame by assumption; reflexivity.
Qed.

(** C10: a position whose absolute index is outside the three residue
    classes keeps its byte, under both routines, and the length of the
    buffer never changes. *)
Theorem untouched_positions (buf : list Z) (s : Z) :
  length (snd (ExtractDat.decode_buffer s buf)) = length buf
  /\ length (snd (PackDat.encode_buffer s buf)) = length buf
  /\ forall p : nat,
       (s + Z.of_nat p) mod 4 <> 1 ->
       (s + Z.of_nat p) mod 3 <> 0 ->
       (s + Z.of_nat p) mod 6 <> 2 ->
       snd (ExtractDat.decode_buffer s buf) !! p = buf !! p
       /\ snd (PackDat.encode_buffer s buf) !! p = buf !! p.
Proof.
  split; [|split].
  - apply (three_stages_frame s buf 0), decode_buffer_cases.
  - apply (three_stages_frame s buf 0), encode_buffer_cases.
  - intros p H1 H2 H3. split.
    + apply (three_stages_frame s buf p); auto using decode_buffer_cases.
    + apply (three_stages_frame s buf p); auto using encode_buffer_cases.
Qed.

Lemma untouched_positions_witness :
  snd (ExtractDat.decode_buffer 3 [0x11; 0x22; 0x33; 0x44; 0x55]) !! 4%nat
  = Some 0x55
  /\ snd (PackDat.encode_buffer 3 [0x11; 0x22; 0x33; 0x44; 0x55]) !! 4%nat
     = Some 0x55.
Proof.
  destruct (untouched_positions [0x11; 0x22; 0x33; 0x44; 0x55] 3)
    as (_ & _ & H).
  apply (H 4%nat); vm_compute; discriminate.
Defined.

(** ** The empty buffer *)

(** C9: at offset zero both routines read [buf[0]] before any transform,
    so the empty buffer raises [IndexError]; at any other offset the empty
    buffer passes through unchanged. *)
Theorem empty_buffer :
  ExtractDat.decode_buffer 0 [] = (Raise IndexError, [])
  /\ PackDat.encode_buffer 0 [] = (Raise IndexError, [])
  /\ forall s, s <> 0 ->
       ExtractDat.decode_buffer s [] = (Ok tt, [])
       /\ PackDat.encode_buffer s [] = (Ok tt, []).
Proof.
  split; [reflexivity | split; [reflexivity |]].
  intros s Hs. split.
  - rewrite decode_buffer_nonzero by exact Hs. reflexivity.
  - rewrite encode_buffer_nonzero by exact Hs. reflexivity.
Qed.

Lemma empty_buffer_witness :
  ExtractDat.decode_buffer 5 [] = (Ok tt, [])
  /\ PackDat.encode_buffer 5 [] = (Ok tt, []).
Proof.
  destruct empty_buffer as (_ & _ & H). apply (H 5). discriminate.
Defined.

(** ** Offset zero: the two sides never agree on the mode *)

Lemma stage_cons m r op s b buf :
  stage m r op s (b :: buf)
  = (if s mod m =? r then op s b else b) :: stage m r op (s + 1) buf.
Proof.
  unfold stage. rewrite imap_cons. rewrite Z.add_0_r. f_equal.
  apply imap_ext. intros p x _. simpl.
  replace (s + Z.of_nat (S p)) with (s + 1 + Z.of_nat p) by lia. reflexivity.
Qed.

(** Whatever the order, the first byte at offset zero is XORed with
    [v12[0] = 0xFF] and nothing else. *)
Lemma stages_head b0 rest out :
  out = T3 0 (T2 0 (T1 0 (b0 :: rest))) \/ out = T1 0 (T2 0 (T3 0 (b0 :: rest))) ->
  exists tl, out = Z.lxor b0 0xFF :: tl.
Proof.
  unfold T1, T2, T3. intros [-> | ->]; rewrite !stage_cons; eexists; reflexivity.
Qed.

Lemma encode_buffer_head b0 rest :
  exists tl,
    PackDat.encode_buffer 0 (b0 :: rest) = (Ok tt, Z.lxor b0 0xFF :: tl).
Proof.
  rewrite encode_buffer_zero.
  destruct (stages_head b0 rest
              (if b0 <? 128 then T3 0 (T2 0 (T1 0 (b0 :: rest)))
               else T1 0 (T2 0 (T3 0 (b0 :: rest))))) as [tl E].
  { destruct (b0 <? 128); auto. }
  exists tl. rewrite E. reflexivity.
Qed.

(** The encoder always turns the high bit of the first byte over: a
    payload that starts below [0x80] never encodes to one that does. *)
Lemma encode_buffer_flips_high_bit b0 rest :
  is_byte b0 ->
  exists e0 tl,
    PackDat.encode_buffer 0 (b0 :: rest) = (Ok tt, e0 :: tl)
    /\ (e0 <? 0x80) = negb (b0 <? 0x80).
Proof.
  intros Hb. destruct (encode_buffer_head b0 rest) as [tl E].
  exists (Z.lxor b0 0xFF), tl. split; [exact E | apply xor_ff_high_bit, Hb].
Qed.

(** No payload meets both conditions "first byte below [0x80]" and "first
    encoded byte below [0x80]". *)
Lemma mode_B_premise_never_met b0 rest e0 tl :
  is_byte b0 -> b0 < 0x80 ->
  PackDat.encode_buffer 0 (b0 :: rest) = (Ok tt, e0 :: tl) ->
  0x80 <= e0.
Proof.
  intros Hb Hlt E.
  destruct (encode_buffer_flips_high_bit b0 rest Hb) as (e & t & E' & Hflip).
  rewrite E in E'. injection E' as -> ->.
  destruct (Z.ltb_spec b0 128); [|lia].
  destruct (Z.ltb_spec e 128); [discriminate | lia].
Qed.

(** So the decoder runs the same three transforms in the same order as the
    encoder did, not in the reverse order. *)
Lemma decode_encode_zero b0 rest :
  is_byte b0 ->
  exists enc,
    PackDat.encode_buffer 0 (b0 :: rest) = (Ok tt, enc)
    /\ ExtractDat.decode_buffer 0 enc
       = (Ok tt,
          if b0 <? 0x80
          then T3 0 (T2 0 (T1 0 (T3 0 (T2 0 (T1 0 (b0 :: rest))))))
          else T1 0 (T2 0 (T3 0 (T1 0 (T2 0 (T3 0 (b0 :: rest))))))).
Proof.
  intros Hb. destruct (encode_buffer_flips_high_bit b0 rest Hb)
    as (e0 & tl & E & Hflip).
  exists (e0 :: tl). split; [exact E|].
  rewrite decode_buffer_zero, Hflip.
  rewrite encode_buffer_zero in E. injection E as E. rewrite <- E.
  destruct (b0 <? 128); reflexivity.
Qed.

Lemma twice_same_order_lookup buf (q : nat) :
  bytes_ok buf -> Z.of_nat q mod 12 <> 9 ->
  T3 0 (T2 0 (T1 0 (T3 0 (T2 0 (T1 0 buf))))) !! q = buf !! q
  /\ T1 0 (T2 0 (T3 0 (T1 0 (T2 0 (T3 0 buf))))) !! q = buf !! q.
Proof.
  intros Hbuf Hq. unfold bytes_ok in Hbuf. rewrite Forall_lookup in Hbuf.
  unfold T1, T2, T3. rewrite !lookup_stage.
  destruct (buf !! q) as [b|] eqn:E; [|split; reflexivity].
  specialize (Hbuf q b E). simpl.
  destruct (Z.eqb_spec ((0 + Z.of_nat q) mod 4) 1) as [H1|H1],
           (Z.eqb_spec ((0 + Z.of_nat q) mod 3) 0) as [H2|H2],
           (Z.eqb_spec ((0 + Z.of_nat q) mod 6) 2) as [H3|H3];
    try (exfalso; revert Hq; try revert H1; try revert H2; try revert H3;
         clear; intros; Z.div_mod_to_equations; lia);
    rewrite ?negate_involutive, ?swap_nibbles_involutive,
            ?xor_key_involutive by assumption;
    split; reflexivity.
Qed.

(** Away from the positions 9, 21, 33, ... where a negation and an XOR
    meet, the payload comes back. *)
Lemma decode_encode_zero_lookup payload :
  bytes_ok payload -> payload <> [] ->
  exists enc dec,
    PackDat.encode_buffer 0 payload = (Ok tt, enc)
    /\ ExtractDat.decode_buffer 0 enc = (Ok tt, dec)
    /\ length dec = length payload
    /\ forall q : nat, Z.of_nat q mod 12 <> 9 -> dec !! q = payload !! q.
Proof.
  intros Hok Hne. destruct payload as [|b0 rest]; [contradiction|].
  assert (Hb : is_byte b0) by (inversion Hok; assumption).
  destruct (decode_encode_zero b0 rest Hb) as (enc & Henc & Hdec).
  exists enc. eexists. split; [exact Henc|]. split; [exact Hdec|]. split.
  - unfold T1, T2, T3. destruct (b0 <? 128); rewrite !length_stage; reflexivity.
  - intros q Hq. destruct (twice_same_order_lookup (b0 :: rest) q Hok Hq).
    destruct (b0 <? 128); assumption.
Qed.

(** Payloads of at most nine bytes survive the two passes. *)
Lemma decode_encode_zero_short payload :
  bytes_ok payload -> payload <> [] -> (length payload <= 9)%nat ->
  exists enc,
    PackDat.encode_buffer 0 payload = (Ok tt, enc)
    /\ ExtractDat.decode_buffer 0 enc = (Ok tt, payload).
Proof.
  intros Hok Hne Hlen.
  destruct (decode_encode_zero_lookup payload Hok Hne)
    as (enc & dec & Henc & Hdec & Hl & Hq).
  exists enc. split; [exact Henc|]. rewrite Hdec. f_equal.
  apply list_eq. intros q. destruct (decide (q < 9)%nat) as [Hlt|Hge].
  - apply Hq. rewrite Z.mod_small by lia. lia.
  - rewrite !lookup_ge_None_2 by lia. reflexivity.
Qed.

Example encode_abcde :
  PackDat.encode_buffer 0 [0x41; 0x42; 0x43; 0x44; 0x45]
  = (Ok tt, [0xBE; 0xBE; 0x34; 0x45; 0x45]).
Proof. vm_compute. reflexivity. Qed.


(** At position 69 a negation meets an XOR with [0xA5], and no byte
    survives the two passes: every payload of 70 bytes or more comes back
    changed. *)
Lemma decode_encode_zero_long payload :
  bytes_ok payload -> (70 <= length payload)%nat ->
  exists enc dec,
    PackDat.encode_buffer 0 payload = (Ok tt, enc)
    /\ ExtractDat.decode_buffer 0 enc = (Ok tt, dec)
    /\ dec <> payload.
Proof.
  intros Hok Hlen.
  destruct payload as [|b0 rest]; [simpl in Hlen; lia|].
  assert (Hb0 : is_byte b0) by (inversion Hok; assumption).
  destruct (decode_encode_zero b0 rest Hb0) as (enc & Henc & Hdec).
  exists enc. eexists. split; [exact Henc|]. split; [exact Hdec|].
  destruct (lookup_lt_is_Some_2 (b0 :: rest) 69 ltac:(lia)) as [b Hb].
  assert (Hbyte : is_byte b).
  { unfold bytes_ok in Hok. rewrite Forall_lookup in Hok. eauto. }
  intros E. apply (f_equal (fun l => l !! 69%nat)) in E. revert E.
  rewrite Hb. unfold T1, T2, T3.
  destruct (b0 <? 128); rewrite !lookup_stage, Hb;
    cbn [fmap option_fmap option_map];
    change ((0 + Z.of_nat 69) mod 4 =? 1) with true;
    change ((0 + Z.of_nat 69) mod 3 =? 0) with true;
    change ((0 + Z.of_nat 69) mod 6 =? 2) with false;
    change (key (0 + Z.of_nat 69)) with 0xA5; cbv iota; intros [= E].
  - pose proof (byte_cases
      (fun b => negb (Z.lxor (Transform.negate
                                (Z.lxor (Transform.negate b) 0xA5)) 0xA5 =? b))
      ltac:(vm_compute; reflexivity) b Hbyte) as C.
    cbv beta in C. rewrite E, Z.eqb_refl in C. discriminate.
  - pose proof (byte_cases
      (fun b => negb (Transform.negate
                        (Z.lxor (Transform.negate (Z.lxor b 0xA5)) 0xA5) =? b))
      ltac:(vm_compute; reflexivity) b Hbyte) as C.
    cbv beta in C. rewrite E, Z.eqb_refl in C. discriminate.
Qed.

(** C1 at a ten-byte payload that starts at [0x80]: the encoder takes mode
    1 and leaves a first byte below [0x80], the decoder then takes mode 2,
    and the byte at position 9 comes back as 8, not 0. *)
Theorem mode_A_round_trip_breaks :
  PackDat.encode_buffer 0 [0x80; 0; 0; 0; 0; 0; 0; 0; 0; 0]
  = (Ok tt, [0x7F; 0; 0; 0x01; 0; 0; 0xFF; 0; 0; 0x64])
  /\ ExtractDat.decode_buffer 0 [0x7F; 0; 0; 0x01; 0; 0; 0xFF; 0; 0; 0x64]
     = (Ok tt, [0x80; 0; 0; 0; 0; 0; 0; 0; 0; 8]).
Proof. split; vm_compute; reflexivity. Qed.

(** ** The read path: decoding, then the file system *)

Lemma extract_entry_decoded {FS} `{!FileSystem FS} dat e (fs : FS) :
  ExtractDat.extract_entry dat e fs
  = match decoded_entry dat e with
    | (n, Ok payload) => store_entry n payload fs
    | (n, Raise ex) => ((n, Raise ex), fs)
    end.
Proof.
  unfold ExtractDat.extract_entry, decoded_entry, store_entry, store.
  destruct (ExtractDat.decode_buffer 0 _) as [[[]|ex] raw']; [|reflexivity].
  destruct (parent_mkdir (ExtractDat.name e) fs) as [[[]|ex] fs'];
    [|reflexivity].
  destruct (write_bytes (ExtractDat.name e) raw' fs') as [[[]|ex] fs''];
    reflexivity.
Qed.

Lemma extract_entries_decoded {FS} `{!FileSystem FS} dat entries (fs : FS) :
  ExtractDat.extract_entries dat entries fs
  = store_results (map (decoded_entry dat) entries) fs.
Proof.
  revert fs. induction entries as [|e entries IH]; intros fs; [reflexivity|].
  cbn [ExtractDat.extract_entries map store_results].
  rewrite extract_entry_decoded.
  destruct (decoded_entry dat e) as [n [payload|ex]].
  - destruct (store_entry n payload fs) as [out fs']. rewrite IH. reflexivity.
  - rewrite IH. reflexivity.
Qed.

Lemma extract_and_decode_run {FS} `{!FileSystem FS} dat ds (fs : FS) :
  decode_entries dat = Ok ds ->
  ExtractDat.extract_and_decode dat fs = run_extraction ds fs.
Proof.
  unfold decode_entries, ExtractDat.extract_and_decode, run_extraction.
  destruct (ExtractDat.parse_dat_index dat) as [entries|ex]; [|discriminate].
  cbn [mbind result_bind mret result_ret]. intros [= <-].
  destruct (out_dir_mkdir fs) as [[[]|ex] fs']; [|reflexivity].
  rewrite extract_entries_decoded. reflexivity.
Qed.

Lemma store_results_names {FS} `{!FileSystem FS} ds (fs : FS) :
  map fst (fst (store_results ds fs)) = map fst ds.
Proof.
  revert fs. induction ds as [|[n r] ds IH]; intros fs; [reflexivity|].
  cbn [store_results].
  destruct r as [payload|ex].
  - unfold store_entry. destruct (store n payload fs) as [r fs'].
    specialize (IH fs'). destruct (store_results ds fs') as [outs fs''].
    cbn [fst map] in *. rewrite IH. reflexivity.
  - specialize (IH fs). destruct (store_results ds fs) as [outs fs''].
    cbn [fst map] in *. rewrite IH. reflexivity.
Qed.

(** When every entry was written, the outcomes are the decoded entries. *)
Lemma store_results_all_written {FS} `{!FileSystem FS} ds (fs : FS) :
  all_written (fst (store_results ds fs)) -> fst (store_results ds fs) = ds.
Proof.
  revert fs. induction ds as [|[n r] ds IH]; intros fs; [reflexivity|].
  cbn [store_results].
  destruct r as [payload|ex].
  - unfold store_entry. destruct (store n payload fs) as [r fs'].
    specialize (IH fs'). destruct (store_results ds fs') as [outs fs''].
    cbn [fst] in *. intros W. inversion W as [|? ? [d Hd] W']; subst.
    rewrite (IH W'). cbn [snd] in Hd. destruct r; [reflexivity | discriminate].
  - specialize (IH fs). destruct (store_results ds fs) as [outs fs''].
    cbn [fst] in *. intros W. inversion W as [|? ? [d Hd] W']; subst.
    discriminate.
Qed.

Lemma written_all_ok (l : list (list Z * list Z)) :
  ExtractDat.written (map (fun p => (fst p, Ok (snd p))) l) = l.
Proof.
  unfold ExtractDat.written. induction l as [|[n d] l IH]; [reflexivity|].
  cbn [map omap list_omap fst snd]. rewrite IH. reflexivity.
Qed.

(** What the outcomes of an extraction say of the files written, when
    the decoded entries are the pairs [pairs]. *)
Lemma run_extraction_pairs {FS} `{!FileSystem FS} pairs (fs : FS) outs fs' :
  run_extraction (map (fun p => (fst p, Ok (snd p))) pairs) fs
  = (Ok (Some outs), fs') ->
  map fst outs = map fst pairs
  /\ (all_written outs -> ExtractDat.written outs = pairs).
Proof.
  unfold run_extraction.
  destruct (out_dir_mkdir fs) as [[[]|ex] fs1]; [|discriminate].
  pose proof (store_results_names (map (fun p => (fst p, Ok (snd p))) pairs) fs1)
    as N.
  pose proof (store_results_all_written
                (map (fun p => (fst p, Ok (snd p))) pairs) fs1) as W.
  destruct (store_results _ fs1) as [outs' fs2]. cbn [fst] in N, W.
  intros [= <- <-]. split.
  - rewrite N, List.map_map. reflexivity.
  - intros A. rewrite (W A). apply written_all_ok.
Qed.

(** ** The scenario of the single file [a.txt] *)

(** C3: packing [a.txt] encodes its five bytes in mode 2, transform 1 then
    2 then 3; the decoder, choosing from the first byte of the ciphertext,
    takes mode 1; and extracting the archive gives the five bytes back:
    they are what is handed to the file system, whichever it is, and what
    an empty output directory holds afterwards as [a.txt]. *)
Theorem a_txt_round_trip :
  Transform.choose_mode 0 [0x41; 0x42; 0x43; 0x44; 0x45]
  = (Ok 2, [0x41; 0x42; 0x43; 0x44; 0x45])
  /\ PackDat.encode_buffer 0 [0x41; 0x42; 0x43; 0x44; 0x45]
     = (Ok tt, T3 0 (T2 0 (T1 0 [0x41; 0x42; 0x43; 0x44; 0x45])))
  /\ T3 0 (T2 0 (T1 0 [0x41; 0x42; 0x43; 0x44; 0x45]))
     = [0xBE; 0xBE; 0x34; 0x45; 0x45]
  /\ Transform.choose_mode 0 [0xBE; 0xBE; 0x34; 0x45; 0x45]
     = (Ok 1, [0xBE; 0xBE; 0x34; 0x45; 0x45])
  /\ exists archive,
       PackDat.create_dat_archive [a_txt] = Ok (Some archive)
       /\ ExtractDat.parse_dat_index archive
          = Ok [{| ExtractDat.name := str_of "a.txt";
                   ExtractDat.packed_size := 5;
                   ExtractDat.unpacked_size := 5;
                   ExtractDat.offset := 0 |}]
       /\ slice archive (Some 0) (Some (0 + 5))
          = [0xBE; 0xBE; 0x34; 0x45; 0x45]
       /\ (forall (FS : Type) (H : FileSystem FS) (fs : FS),
             ExtractDat.extract_and_decode archive fs
             = run_extraction
                 [(str_of "a.txt", Ok [0x41; 0x42; 0x43; 0x44; 0x45])] fs)
       /\ ExtractDat.extract_and_decode archive ([] : tree)
          = (Ok (Some [(str_of "a.txt", Ok [0x41; 0x42; 0x43; 0x44; 0x45])]),
             [([str_of "a.txt"], File [0x41; 0x42; 0x43; 0x44; 0x45]);
              ([], Dir)]).
Proof.
  split; [reflexivity|].
  split; [vm_compute; reflexivity|].
  split; [vm_compute; reflexivity|].
  split; [reflexivity|].
  eexists. split; [vm_compute; reflexivity|].
  split; [vm_compute; reflexivity|].
  split; [vm_compute; reflexivity|].
  split; [|vm_compute; reflexivity].
  intros FS H fs. apply extract_and_decode_run. vm_compute. reflexivity.
Qed.

(** ** UTF-8 *)

Lemma below_cases (n : nat) (P : Z -> bool) :
  forallb P (map Z.of_nat (seq 0 n)) = true ->
  forall x, 0 <= x < Z.of_nat n -> P x = true.
Proof.
  intros H x Hx. rewrite forallb_forall in H. apply H.
  rewrite <- (Z2Nat.id x) by lia. apply in_map, in_seq. lia.
Qed.

Lemma lor_80 x : 0 <= x < 64 -> Z.lor 0x80 x = 0x80 + x.
Proof.
  intros H. pose proof (below_cases 64 (fun x => Z.lor 0x80 x =? 0x80 + x)
    ltac:(vm_compute; reflexivity) x H) as C. cbv beta in C. lia.
Qed.

Lemma lor_C0 x : 0 <= x < 32 -> Z.lor 0xC0 x = 0xC0 + x.
Proof.
  intros H. pose proof (below_cases 32 (fun x => Z.lor 0xC0 x =? 0xC0 + x)
    ltac:(vm_compute; reflexivity) x H) as C. cbv beta in C. lia.
Qed.

Lemma lor_E0 x : 0 <= x < 16 -> Z.lor 0xE0 x = 0xE0 + x.
Proof.
  intros H. pose proof (below_cases 16 (fun x => Z.lor 0xE0 x =? 0xE0 + x)
    ltac:(vm_compute; reflexivity) x H) as C. cbv beta in C. lia.
Qed.

Lemma lor_F0 x : 0 <= x < 8 -> Z.lor 0xF0 x = 0xF0 + x.
Proof.
  intros H. pose proof (below_cases 8 (fun x => Z.lor 0xF0 x =? 0xF0 + x)
    ltac:(vm_compute; reflexivity) x H) as C. cbv beta in C. lia.
Qed.

Lemma land_3F x : Z.land x 0x3F = x mod 64.
Proof. change 0x3F with (Z.ones 6). rewrite Z.land_ones by lia. reflexivity. Qed.

(** The encoder in arithmetic. *)
Lemma utf8_encode_char_arith c :
  is_code_point c ->
  utf8_encode_char c
  = if c <? 0x80 then Ok [c]
    else if c <? 0x800 then Ok [0xC0 + c / 64; 0x80 + c mod 64]
    else if (0xD800 <=? c) && (c <=? 0xDFFF) then Raise UnicodeEncodeError
    else if c <? 0x10000 then
      Ok [0xE0 + c / 4096; 0x80 + (c / 64) mod 64; 0x80 + c mod 64]
    else
      Ok [0xF0 + c / 262144; 0x80 + (c / 4096) mod 64;
          0x80 + (c / 64) mod 64; 0x80 + c mod 64].
Proof.
  intros [Hlo Hhi]. unfold utf8_encode_char.
  rewrite !land_3F, !Z.shiftr_div_pow2 by lia.
  change (2 ^ 6) with 64. change (2 ^ 12) with 4096. change (2 ^ 18) with 262144.
  destruct (Z.ltb_spec c 128); [reflexivity|].
  destruct (Z.ltb_spec c 2048).
  { rewrite lor_C0, lor_80; [reflexivity | |]; Z.div_mod_to_equations; lia. }
  destruct ((55296 <=? c) && (c <=? 57343)); [reflexivity|].
  destruct (Z.ltb_spec c 65536).
  { rewrite lor_E0, !lor_80; [reflexivity | | |];
      Z.div_mod_to_equations; lia. }
  rewrite lor_F0, !lor_80; [reflexivity | | | |];
    Z.div_mod_to_equations; lia.
Qed.

Lemma utf8_decode_1 ch r :
  0 <= ch < 0x80 -> utf8_decode_ignore (ch :: r) = ch :: utf8_decode_ignore r.
Proof.
  intros H. cbn [utf8_decode_ignore].
  destruct (Z.ltb_spec ch 128); [reflexivity | lia].
Qed.

Lemma is_continuation_true b : 0x80 <= b < 0xC0 -> is_continuation b = true.
Proof.
  intros H. unfold is_continuation.
  destruct (Z.leb_spec 128 b), (Z.ltb_spec b 192); try reflexivity; lia.
Qed.

Lemma utf8_decode_2 ch ch2 r :
  0xC2 <= ch < 0xE0 -> 0x80 <= ch2 < 0xC0 ->
  utf8_decode_ignore (ch :: ch2 :: r)
  = (ch * 64 + ch2 - 0x3080) :: utf8_decode_ignore r.
Proof.
  intros H H2. cbn [utf8_decode_ignore].
  destruct (Z.ltb_spec ch 128); [lia|].
  destruct (Z.ltb_spec ch 194); [lia|].
  destruct (Z.ltb_spec ch 224); [|lia].
  rewrite is_continuation_true by assumption. cbn [negb].
  rewrite !Z.shiftl_mul_pow2 by lia. reflexivity.
Qed.

Lemma utf8_decode_3 ch ch2 ch3 r :
  0xE0 <= ch < 0xF0 -> 0x80 <= ch2 < 0xC0 -> 0x80 <= ch3 < 0xC0 ->
  (ch = 0xE0 -> 0xA0 <= ch2) -> (ch = 0xED -> ch2 < 0xA0) ->
  utf8_decode_ignore (ch :: ch2 :: ch3 :: r)
  = (ch * 4096 + ch2 * 64 + ch3 - 0xE2080) :: utf8_decode_ignore r.
Proof.
  intros H H2 H3 HE0 HED. cbn [utf8_decode_ignore].
  destruct (Z.ltb_spec ch 128); [lia|].
  destruct (Z.ltb_spec ch 194); [lia|].
  destruct (Z.ltb_spec ch 224); [lia|].
  destruct (Z.ltb_spec ch 240); [|lia].
  rewrite !is_continuation_true by assumption. cbn [negb orb].
  replace (if ch2 <? 160 then ch =? 224 else ch =? 237) with false.
  2:{ destruct (Z.ltb_spec ch2 160), (Z.eqb_spec ch 224), (Z.eqb_spec ch 237);
        try reflexivity; lia. }
  rewrite !Z.shiftl_mul_pow2 by lia. reflexivity.
Qed.

Lemma utf8_decode_4 ch ch2 ch3 ch4 r :
  0xF0 <= ch < 0xF5 ->
  0x80 <= ch2 < 0xC0 -> 0x80 <= ch3 < 0xC0 -> 0x80 <= ch4 < 0xC0 ->
  (ch = 0xF0 -> 0x90 <= ch2) -> (ch = 0xF4 -> ch2 < 0x90) ->
  utf8_decode_ignore (ch :: ch2 :: ch3 :: ch4 :: r)
  = (ch * 262144 + ch2 * 4096 + ch3 * 64 + ch4 - 0x3C82080)
      :: utf8_decode_ignore r.
Proof.
  intros H H2 H3 H4 HF0 HF4. cbn [utf8_decode_ignore].
  destruct (Z.ltb_spec ch 128); [lia|].
  destruct (Z.ltb_spec ch 194); [lia|].
  destruct (Z.ltb_spec ch 224); [lia|].
  destruct (Z.ltb_spec ch 240); [lia|].
  destruct (Z.ltb_spec ch 245); [|lia].
  rewrite !is_continuation_true by assumption. cbn [negb orb].
  replace (if ch2 <? 144 then ch =? 240 else ch =? 244) with false.
  2:{ destruct (Z.ltb_spec ch2 144), (Z.eqb_spec ch 240), (Z.eqb_spec ch 244);
        try reflexivity; lia. }
  rewrite !Z.shiftl_mul_pow2 by lia. reflexivity.
Qed.

(** One character: decoding what was encoded gives the code point back,
    whatever follows; the bytes are bytes, and none of them is zero unless
    the code point is. *)
Lemma utf8_char_round_trip c bs rest :
  is_code_point c -> utf8_encode_char c = Ok bs ->
  utf8_decode_ignore (bs ++ rest) = c :: utf8_decode_ignore rest
  /\ bytes_ok bs
  /\ (c <> 0 -> Forall (fun b => b <> 0) bs).
Proof.
  intros Hc. rewrite (utf8_encode_char_arith c Hc). destruct Hc as [Hlo Hhi].
  destruct (Z.ltb_spec c 128).
  { intros [= <-]. split; [apply utf8_decode_1; lia|].
    split; repeat constructor; unfold is_byte; lia. }
  destruct (Z.ltb_spec c 2048).
  { intros [= <-]. split; [|split].
    - cbn [app]. rewrite utf8_decode_2; [f_equal | |];
        Z.div_mod_to_equations; lia.
    - repeat constructor; unfold is_byte; Z.div_mod_to_equations; lia.
    - intros _. repeat constructor; Z.div_mod_to_equations; lia. }
  destruct ((0xD800 <=? c) && (c <=? 0xDFFF)) eqn:Esur; [discriminate|].
  assert (Hns : ~ (0xD800 <= c <= 0xDFFF)).
  { intros [A B]. apply Z.leb_le in A, B. rewrite A, B in Esur. discriminate. }
  destruct (Z.ltb_spec c 65536).
  - intros [= <-]. split; [|split].
    + cbn [app]. rewrite utf8_decode_3; [f_equal | | | | |];
        Z.div_mod_to_equations; lia.
    + repeat constructor; unfold is_byte; Z.div_mod_to_equations; lia.
    + intros _. repeat constructor; Z.div_mod_to_equations; lia.
  - intros [= <-]. split; [|split].
    + cbn [app]. rewrite utf8_decode_4; [f_equal | | | | | |];
        Z.div_mod_to_equations; lia.
    + repeat constructor; unfold is_byte; Z.div_mod_to_equations; lia.
    + intros _. repeat constructor; Z.div_mod_to_equations; lia.
Qed.

Lemma utf8_encode_cons c s bs :
  utf8_encode (c :: s) = Ok bs ->
  exists b1 b2, utf8_encode_char c = Ok b1 /\ utf8_encode s = Ok b2
                /\ bs = b1 ++ b2.
Proof.
  cbn [utf8_encode]. unfold mbind, result_bind, mret, result_ret.
  destruct (utf8_encode_char c) as [b1|]; [|discriminate].
  destruct (utf8_encode s) as [b2|]; [|discriminate].
  intros [= <-]. eauto.
Qed.

Lemma utf8_round_trip s bs :
  str_ok s -> utf8_encode s = Ok bs ->
  utf8_decode_ignore bs = s
  /\ bytes_ok bs
  /\ (Forall (fun c => c <> 0) s -> Forall (fun b => b <> 0) bs).
Proof.
  intros Hs. revert bs. induction Hs as [|c s Hc Hs IH]; intros bs.
  - intros [= <-]. split; [reflexivity | split; [constructor | constructor]].
  - intros H. apply utf8_encode_cons in H as (b1 & b2 & H1 & H2 & ->).
    destruct (utf8_char_round_trip c b1 b2 Hc H1) as (D1 & B1 & N1).
    destruct (IH b2 H2) as (D2 & B2 & N2).
    split; [|split].
    + rewrite D1, D2. reflexivity.
    + apply Forall_app; auto.
    + intros Hnz. inversion Hnz; subst. apply Forall_app; auto.
Qed.

(** ** Slices and little-endian fields *)

Lemma slice_nonneg {A} (l : list A) a b :
  0 <= a <= b -> b <= Z.of_nat (length l) ->
  slice l (Some a) (Some b) = take (Z.to_nat (b - a)) (drop (Z.to_nat a) l).
Proof.
  intros Hab Hb. unfold slice.
  destruct (Z.ltb_spec a 0); [lia|]. destruct (Z.ltb_spec b 0); [lia|].
  rewrite !Z.min_l by lia. reflexivity.
Qed.

Lemma slice_mid {A} (pre mid post : list A) :
  slice (pre ++ mid ++ post) (Some (Z.of_nat (length pre)))
    (Some (Z.of_nat (length pre) + Z.of_nat (length mid))) = mid.
Proof.
  rewrite slice_nonneg by (rewrite ?length_app; lia).
  rewrite Nat2Z.id, drop_app_length.
  replace (Z.to_nat (Z.of_nat (length pre) + Z.of_nat (length mid)
                     - Z.of_nat (length pre))) with (length mid) by lia.
  apply take_app_length.
Qed.

Lemma slice_mid' {A} (pre mid post : list A) a b :
  a = Z.of_nat (length pre) -> b = a + Z.of_nat (length mid) ->
  slice (pre ++ mid ++ post) (Some a) (Some b) = mid.
Proof. intros -> ->. apply slice_mid. Qed.

Lemma slice_prefix {A} (l : list A) k :
  0 <= k -> slice l None (Some k) = take (Z.to_nat k) l.
Proof.
  intros Hk. unfold slice. destruct (Z.ltb_spec k 0); [lia|].
  rewrite Z.sub_0_r. change (Z.to_nat 0) with 0%nat. rewrite drop_0.
  destruct (Z.le_ge_cases k (Z.of_nat (length l))).
  - rewrite Z.min_l by lia. reflexivity.
  - rewrite Z.min_r by lia. rewrite Nat2Z.id.
    rewrite !take_ge by lia. reflexivity.
Qed.

Lemma slice_assign_mid {A} (pre mid post xs : list A) a b :
  a = length pre -> b = (a + length mid)%nat ->
  slice_assign (pre ++ mid ++ post) a b xs = pre ++ xs ++ post.
Proof.
  intros -> ->. unfold slice_assign. rewrite !length_app.
  rewrite Nat.min_l by lia. rewrite (Nat.min_l _ _) by lia.
  rewrite Nat.max_r by lia.
  rewrite take_app_length. f_equal. f_equal.
  rewrite app_assoc, <- length_app. apply drop_app_length.
Qed.

Lemma length_le_digits n v : length (le_digits n v) = n.
Proof. revert v. induction n; intros v; simpl; [|rewrite IHn]; reflexivity. Qed.

Lemma le_digits_bytes_ok n v : bytes_ok (le_digits n v).
Proof.
  revert v. induction n; intros v; simpl; constructor; [|apply IHn].
  unfold is_byte. apply Z.mod_pos_bound. lia.
Qed.

Lemma from_bytes_le_digits n v :
  from_bytes_little (le_digits n v) = v mod 256 ^ Z.of_nat n.
Proof.
  revert v. induction n as [|n IH]; intros v.
  - simpl. rewrite Z.mod_1_r. reflexivity.
  - cbn [le_digits from_bytes_little]. rewrite IH.
    rewrite Nat2Z.inj_succ, Z.pow_succ_r by lia.
    rewrite Z.rem_mul_r by lia. lia.
Qed.

Lemma to_bytes4_ok v :
  0 <= v < 2 ^ 32 -> to_bytes4_little v = Ok (le_digits 4 v).
Proof.
  intros H. unfold to_bytes4_little.
  destruct (Z.leb_spec 0 v), (Z.ltb_spec v (2 ^ 32)); try lia. reflexivity.
Qed.

Lemma from_bytes_to_bytes4 v :
  0 <= v < 2 ^ 32 -> from_bytes_little (le_digits 4 v) = v.
Proof.
  intros H. rewrite from_bytes_le_digits. apply Z.mod_small.
  change (256 ^ Z.of_nat 4) with (2 ^ 32). exact H.
Qed.

Lemma before_nul_app nb rest :
  Forall (fun b => b <> 0) nb -> before_nul (nb ++ 0 :: rest) = nb.
Proof.
  induction 1 as [|b nb Hb _ IH]; [reflexivity|].
  cbn [app before_nul]. destruct (Z.eqb_spec b 0); [contradiction|].
  rewrite IH. reflexivity.
Qed.

(** ** One index entry *)

Lemma length_entry_layout nb off size :
  (length nb <= 63)%nat -> length (entry_layout nb off size) = 80%nat.
Proof.
  intros H. unfold entry_layout.
  rewrite !length_app, length_replicate, !length_le_digits. simpl. lia.
Qed.

Lemma index_entry_ok f enc :
  utf8_encode (PackDat.name f) = Ok enc ->
  0 <= PackDat.offset f < 2 ^ 32 ->
  Z.of_nat (length (PackDat.data f)) < 2 ^ 32 ->
  PackDat.index_entry f
  = Ok (entry_layout (take 63 enc) (PackDat.offset f)
          (Z.of_nat (length (PackDat.data f)))).
Proof.
  intros Henc Hoff Hsize. unfold PackDat.index_entry.
  rewrite Henc. cbn [mbind result_bind].
  rewrite slice_prefix by lia. change (Z.to_nat 63) with 63%nat.
  set (nb := take 63 enc).
  assert (Hnb : (length nb <= 63)%nat) by (subst nb; rewrite length_take; lia).
  rewrite !to_bytes4_ok by lia. cbn [mbind result_bind mret result_ret].
  f_equal. unfold entry_layout.
  replace (replicate 80 0)
    with ([] ++ replicate (length nb) 0
          ++ (replicate (64 - length nb) 0 ++ replicate 16 0)).
  2:{ cbn [app]. rewrite <- !replicate_add. f_equal. lia. }
  rewrite (slice_assign_mid [] _ _ nb 0 (length nb))
    by (rewrite ?length_replicate; reflexivity).
  cbn [app]. change (replicate 16 0) with ([0; 0; 0; 0] ++ replicate 12 0).
  rewrite (app_assoc nb).
  rewrite (slice_assign_mid _ [0; 0; 0; 0] _ _ 64 68)
    by (rewrite ?length_app, ?length_replicate; simpl; lia).
  change (replicate 12 0) with ([0; 0; 0; 0] ++ replicate 8 0).
  rewrite (app_assoc _ (le_digits 4 _)).
  rewrite (slice_assign_mid _ [0; 0; 0; 0] _ _ 68 72)
    by (rewrite ?length_app, ?length_replicate, ?length_le_digits; simpl; lia).
  change (replicate 8 0) with ([0; 0; 0; 0] ++ [0; 0; 0; 0]).
  rewrite (app_assoc _ (le_digits 4 (Z.of_nat _))).
  rewrite (slice_assign_mid _ [0; 0; 0; 0] _ _ 72 76)
    by (rewrite ?length_app, ?length_replicate, ?length_le_digits; simpl; lia).
  rewrite <- !app_assoc. reflexivity.
Qed.

Lemma parse_entry_layout nb off size :
  (length nb <= 63)%nat -> Forall (fun b => b <> 0) nb ->
  0 <= off < 2 ^ 32 -> 0 <= size < 2 ^ 32 ->
  ExtractDat.parse_entry (entry_layout nb off size) 0
  = {| ExtractDat.name := utf8_decode_ignore nb;
       ExtractDat.packed_size := size;
       ExtractDat.unpacked_size := size;
       ExtractDat.offset := off |}.
Proof.
  intros Hlen Hnz Hoff Hsize. unfold ExtractDat.parse_entry.
  replace (slice (entry_layout nb off size) (Some (0 * 80))
             (Some ((0 + 1) * 80))) with (entry_layout nb off size).
  2:{ symmetry.
      rewrite <- (app_nil_r (entry_layout nb off size)) at 1.
      apply (slice_mid' [] _ []); rewrite ?length_entry_layout by lia;
        reflexivity. }
  set (hd := nb ++ replicate (64 - length nb) 0).
  assert (Hhd : length hd = 64%nat).
  { subst hd. rewrite length_app, length_replicate. lia. }
  assert (E : entry_layout nb off size
              = hd ++ le_digits 4 off ++ le_digits 4 size
                ++ le_digits 4 size ++ [0; 0; 0; 0]).
  { unfold entry_layout, hd. rewrite <- app_assoc. reflexivity. }
  rewrite E. f_equal.
  - rewrite slice_prefix by lia. change (Z.to_nat 64) with 64%nat.
    rewrite <- Hhd, take_app_length. subst hd.
    destruct (64 - length nb)%nat as [|k] eqn:Ek; [lia|].
    cbn [replicate]. rewrite before_nul_app by assumption. reflexivity.
  - rewrite (app_assoc hd), (app_assoc (hd ++ _)).
    rewrite (slice_mid' _ (le_digits 4 size) _ 72 76)
      by (rewrite ?length_app, ?length_le_digits, ?Hhd; reflexivity).
    apply from_bytes_to_bytes4, Hsize.
  - rewrite (app_assoc hd).
    rewrite (slice_mid' _ (le_digits 4 size) _ 68 72)
      by (rewrite ?length_app, ?length_le_digits, ?Hhd; reflexivity).
    apply from_bytes_to_bytes4, Hsize.
  - rewrite (slice_mid' _ (le_digits 4 off) _ 64 68)
      by (rewrite ?length_le_digits, ?Hhd; reflexivity).
    apply from_bytes_to_bytes4, Hoff.
Qed.

(** C7: an entry whose name encodes to at most 63 bytes, with offset and
    size below [2^32], is read back from its 80-byte slot with the same
    name, offset and sizes.  The name is one that the file system gave,
    the pieces of a path joined by [/]: it is a [str] and holds no NUL
    character. *)
Theorem index_entry_round_trip (f : PackDat.FileEntry) (enc : list Z) :
  str_ok (PackDat.name f) -> no_nul (PackDat.name f) ->
  utf8_encode (PackDat.name f) = Ok enc -> (length enc <= 63)%nat ->
  0 <= PackDat.offset f < 2 ^ 32 ->
  Z.of_nat (length (PackDat.data f)) < 2 ^ 32 ->
  exists ent,
    PackDat.index_entry f = Ok ent
    /\ length ent = 80%nat
    /\ ExtractDat.parse_entry ent 0
       = {| ExtractDat.name := PackDat.name f;
            ExtractDat.packed_size := Z.of_nat (length (PackDat.data f));
            ExtractDat.unpacked_size := Z.of_nat (length (PackDat.data f));
            ExtractDat.offset := PackDat.offset f |}.
Proof.
  intros Hs Hnz Henc Hlen Hoff Hsize.
  destruct (utf8_round_trip _ _ Hs Henc) as (Hdec & _ & Hnz').
  eexists. split; [apply (index_entry_ok f enc); assumption|].
  rewrite take_ge by lia. split; [apply length_entry_layout; lia|].
  rewrite parse_entry_layout by (auto; lia). rewrite Hdec. reflexivity.
Qed.

Lemma index_entry_round_trip_witness :
  exists ent,
    PackDat.index_entry entry_sample = Ok ent
    /\ length ent = 80%nat
    /\ ExtractDat.parse_entry ent 0
       = {| ExtractDat.name := str_of "bg/title.png";
            ExtractDat.packed_size := 3;
            ExtractDat.unpacked_size := 3;
            ExtractDat.offset := 70000 |}.
Proof.
  apply (index_entry_round_trip entry_sample (str_of "bg/title.png")).
  - repeat constructor; unfold is_code_point; simpl; lia.
  - repeat constructor; simpl; lia.
  - vm_compute; reflexivity.
  - simpl; lia.
  - simpl; lia.
  - simpl; lia.
Defined.

(** ** The read path checks nothing *)

Lemma length_range n : length (range n) = Z.to_nat n.
Proof. unfold range. rewrite length_map, length_seq. reflexivity. Qed.

Lemma decode_buffer_outcome raw :
  (raw = [] /\ ExtractDat.decode_buffer 0 raw = (Raise IndexError, []))
  \/ (raw <> [] /\ exists payload,
        ExtractDat.decode_buffer 0 raw = (Ok tt, payload)
        /\ length payload = length raw).
Proof.
  destruct raw as [|b0 rest]; [left; split; reflexivity|].
  right. split; [discriminate|]. rewrite decode_buffer_zero.
  eexists. split; [reflexivity|].
  unfold T1, T2, T3. destruct (b0 <? 128); rewrite !length_stage; reflexivity.
Qed.

(** C6, amended: the read path checks nothing of the archive.  The index
    parser returns [file_count] entries whatever the count, the place of
    the index and the offsets and sizes say.  The call fails as a whole
    only when the output directory cannot be made; otherwise it reports
    one outcome for each entry.  Every entry is decoded from the slice
    [dat[offset:offset+packed_size]], clamped to the archive: when that
    slice is empty the entry fails with [IndexError] and the file system
    is not touched; when it is not, the payload is [decode_buffer] of the
    slice, as long as the slice, and the entry fails exactly when the
    file system refuses its directories or its file. *)
Theorem read_path_never_rejects (dat : list Z) :
  exists entries,
    ExtractDat.parse_dat_index dat = Ok entries
    /\ length entries = Z.to_nat (ExtractDat.file_count dat)
    /\ (forall (FS : Type) (H : FileSystem FS) (fs : FS),
          (forall ex fs',
             out_dir_mkdir fs = (Raise ex, fs') ->
             ExtractDat.extract_and_decode dat fs = (Raise ex, fs'))
          /\ (forall fs',
                out_dir_mkdir fs = (Ok tt, fs') ->
                ExtractDat.extract_and_decode dat fs
                = (Ok (Some (fst (ExtractDat.extract_entries dat entries fs'))),
                   snd (ExtractDat.extract_entries dat entries fs'))
                /\ map fst (fst (ExtractDat.extract_entries dat entries fs'))
                   = map ExtractDat.name entries))
    /\ (forall (FS : Type) (H : FileSystem FS) (fs : FS) e,
          let raw := slice dat (Some (ExtractDat.offset e))
                       (Some (ExtractDat.offset e + ExtractDat.packed_size e)) in
          (raw = []
           /\ ExtractDat.extract_entry dat e fs
              = ((ExtractDat.name e, Raise IndexError), fs))
          \/ (raw <> []
              /\ exists payload,
                   ExtractDat.decode_buffer 0 raw = (Ok tt, payload)
                   /\ length payload = length raw
                   /\ ExtractDat.extract_entry dat e fs
                      = store_entry (ExtractDat.name e) payload fs)).
Proof.
  eexists. split; [reflexivity|]. split; [|split].
  - rewrite length_map, length_range. reflexivity.
  - intros FS H fs. unfold ExtractDat.extract_and_decode.
    change (ExtractDat.parse_dat_index dat) with (Ok
      (map (ExtractDat.parse_entry
              (ExtractDat.nibble_swap
                 (slice dat
                    (Some (Z.of_nat (length dat) - 4
                           - ExtractDat.file_count dat * 80))
                    (Some (Z.of_nat (length dat) - 4
                           - ExtractDat.file_count dat * 80
                           + ExtractDat.file_count dat * 80)))))
         (range (ExtractDat.file_count dat)))).
    cbv iota. split.
    + intros ex fs' E. rewrite E. reflexivity.
    + intros fs' E. rewrite E.
      destruct (ExtractDat.extract_entries dat _ fs') as [outs fs''] eqn:R.
      split; [reflexivity|]. cbn [fst].
      pose proof (f_equal fst R) as R'. cbn [fst] in R'. rewrite <- R'.
      rewrite extract_entries_decoded, store_results_names, List.map_map.
      apply map_ext. intros e. unfold decoded_entry.
      destruct (ExtractDat.decode_buffer 0 _) as [[[]|ex] raw']; reflexivity.
  - intros FS H fs e raw. rewrite extract_entry_decoded.
    unfold decoded_entry. fold raw.
    destruct (decode_buffer_outcome raw) as [[E D]|[E (payload & D & L)]];
      rewrite D; [left | right]; split; auto.
    exists payload. split; [reflexivity|]. split; [exact L | reflexivity].
Qed.

Lemma read_path_never_rejects_witness :
  ExtractDat.extract_and_decode oversized_entry_archive ([] : tree)
  = (Ok (Some [([97], Ok [0x41; 0xEA; 0; 1; 0])]),
     [([[97]], File [0x41; 0xEA; 0; 1; 0]); ([], Dir)]).
Proof.
  destruct (read_path_never_rejects oversized_entry_archive)
    as (entries & Hparse & _ & Hrun & _).
  destruct (Hrun tree tree_fs []) as [_ Hok].
  destruct (Hok [([], Dir)] eq_refl) as [E _]. rewrite E.
  assert (Ee : entries
               = [{| ExtractDat.name := [97]; ExtractDat.packed_size := 5;
                     ExtractDat.unpacked_size := 5; ExtractDat.offset := 0 |}]).
  { assert (Hp : Ok entries
                 = Ok [{| ExtractDat.name := [97]; ExtractDat.packed_size := 5;
                          ExtractDat.unpacked_size := 5;
                          ExtractDat.offset := 0 |}])
      by (rewrite <- Hparse; vm_compute; reflexivity).
    injection Hp as Hp. exact Hp. }
  rewrite Ee. vm_compute. reflexivity.
Defined.

(** C6 as stated fails in each of its three cases, here with an empty
    output directory: a count of zero is read as an archive of no
    entries; a count that puts the index before the start of the archive
    yields an entry all the same; and an entry that reaches past the data
    region is decoded from data and index bytes alike, and written. *)
Lemma read_path_accepts_malformed :
  (ExtractDat.file_count [0; 0; 0; 0] = 0
   /\ ExtractDat.extract_and_decode [0; 0; 0; 0] ([] : tree)
      = (Ok (Some []), [([], Dir)]))
  /\ (ExtractDat.file_count [1; 0; 0; 0] = 1
      /\ ExtractDat.index_start [1; 0; 0; 0] = -80
      /\ ExtractDat.extract_and_decode [1; 0; 0; 0] ([] : tree)
         = (Ok (Some [([], Raise IndexError)]), [([], Dir)]))
  /\ (ExtractDat.index_start oversized_entry_archive = 1
      /\ ExtractDat.parse_dat_index oversized_entry_archive
         = Ok [{| ExtractDat.name := [97]; ExtractDat.packed_size := 5;
                  ExtractDat.unpacked_size := 5; ExtractDat.offset := 0 |}]
      /\ ExtractDat.extract_and_decode oversized_entry_archive ([] : tree)
         = (Ok (Some [([97], Ok [0x41; 0xEA; 0; 1; 0])]),
            [([[97]], File [0x41; 0xEA; 0; 1; 0]); ([], Dir)])).
Proof. repeat split; vm_compute; reflexivity. Qed.

(** ** Sequence comparison is a strict total order *)

Section SeqOrder.
Context {A : Type} (eqb ltb : A -> A -> bool).
Hypothesis eqb_eq : forall x y, eqb x y = true <-> x = y.
Hypothesis ltb_irrefl : forall x, ltb x x = false.
Hypothesis ltb_trans :
  forall x y z, ltb x y = true -> ltb y z = true -> ltb x z = true.
Hypothesis ltb_total :
  forall x y, ltb x y = false -> ltb y x = false -> x = y.

Lemma eqb_refl' x : eqb x x = true.
Proof using eqb_eq. apply eqb_eq. reflexivity. Qed.

Lemma eqb_sym' x y : eqb x y = eqb y x.
Proof using eqb_eq.
  destruct (eqb x y) eqn:E1, (eqb y x) eqn:E2; try reflexivity.
  - apply eqb_eq in E1. subst. rewrite eqb_refl' in E2. discriminate.
  - apply eqb_eq in E2. subst. rewrite eqb_refl' in E1. discriminate.
Qed.

Lemma seq_eqb_eq a b : seq_eqb eqb a b = true <-> a = b.
Proof using eqb_eq.
  revert b. induction a as [|x a IH]; intros [|y b]; simpl;
    try (split; [discriminate | discriminate]); [split; reflexivity|].
  rewrite andb_true_iff, eqb_eq, IH. split.
  - intros [-> ->]. reflexivity.
  - intros [= -> ->]. split; reflexivity.
Qed.

Lemma seq_lt_irrefl a : seq_lt eqb ltb a a = false.
Proof using eqb_eq.
  induction a as [|x a IH]; [reflexivity|]. simpl.
  rewrite eqb_refl'. exact IH.
Qed.

Lemma seq_lt_trans a b c :
  seq_lt eqb ltb a b = true -> seq_lt eqb ltb b c = true ->
  seq_lt eqb ltb a c = true.
Proof using eqb_eq ltb_irrefl ltb_trans.
  revert b c. induction a as [|x a IH]; intros [|y b] [|z c]; simpl;
    try discriminate; try reflexivity.
  destruct (eqb x y) eqn:Exy.
  - apply eqb_eq in Exy. subst y. destruct (eqb x z); [apply IH | trivial].
  - destruct (eqb y z) eqn:Eyz.
    + apply eqb_eq in Eyz. subst z. rewrite Exy. trivial.
    + intros Hxy Hyz. pose proof (ltb_trans _ _ _ Hxy Hyz) as Hxz.
      destruct (eqb x z) eqn:Exz; [|exact Hxz].
      apply eqb_eq in Exz. subst z. rewrite ltb_irrefl in Hxz.
      discriminate.
Qed.

Lemma seq_lt_total a b :
  seq_lt eqb ltb a b = false -> seq_lt eqb ltb b a = false -> a = b.
Proof using eqb_eq ltb_total.
  revert b. induction a as [|x a IH]; intros [|y b]; simpl;
    try discriminate; [reflexivity|].
  rewrite (eqb_sym' y x). destruct (eqb x y) eqn:Exy.
  - apply eqb_eq in Exy. subst y. intros H1 H2. f_equal. apply IH; assumption.
  - intros H1 H2. rewrite (ltb_total _ _ H1 H2), eqb_refl' in Exy.
    discriminate.
Qed.
End SeqOrder.

Lemma str_eqb_eq a b : str_eqb a b = true <-> a = b.
Proof. apply seq_eqb_eq, Z.eqb_eq. Qed.

Lemma str_lt_irrefl a : str_lt a a = false.
Proof. apply seq_lt_irrefl, Z.eqb_eq. Qed.

Lemma str_lt_trans a b c :
  str_lt a b = true -> str_lt b c = true -> str_lt a c = true.
Proof.
  apply seq_lt_trans.
  - apply Z.eqb_eq.
  - apply Z.ltb_irrefl.
  - intros x y z. rewrite !Z.ltb_lt. lia.
Qed.

Lemma str_lt_total a b : str_lt a b = false -> str_lt b a = false -> a = b.
Proof.
  apply seq_lt_total.
  - apply Z.eqb_eq.
  - intros x y. rewrite !Z.ltb_ge. lia.
Qed.

Lemma list_str_lt_irrefl p : list_str_lt p p = false.
Proof. apply seq_lt_irrefl, str_eqb_eq. Qed.

Lemma list_str_lt_trans p q r :
  list_str_lt p q = true -> list_str_lt q r = true -> list_str_lt p r = true.
Proof.
  apply seq_lt_trans.
  - apply str_eqb_eq.
  - apply str_lt_irrefl.
  - apply str_lt_trans.
Qed.

Lemma list_str_lt_total p q :
  list_str_lt p q = false -> list_str_lt q p = false -> p = q.
Proof.
  apply seq_lt_total.
  - apply str_eqb_eq.
  - apply str_lt_total.
Qed.

Lemma path_lt_asym a b : PackDat.path_lt a b = true -> path_le a b.
Proof.
  unfold path_le, PackDat.path_lt. intros H.
  destruct (list_str_lt (PackDat.rel_parts b) (PackDat.rel_parts a)) eqn:E;
    [|reflexivity].
  pose proof (list_str_lt_trans _ _ _ H E) as C.
  rewrite list_str_lt_irrefl in C. discriminate.
Qed.

Lemma path_le_trans a b c : path_le a b -> path_le b c -> path_le a c.
Proof.
  unfold path_le, PackDat.path_lt. intros Hab Hbc.
  destruct (list_str_lt (PackDat.rel_parts c) (PackDat.rel_parts a)) eqn:Hca;
    [|reflexivity].
  destruct (list_str_lt (PackDat.rel_parts b) (PackDat.rel_parts c)) eqn:Hbc'.
  - rewrite (list_str_lt_trans _ _ _ Hbc' Hca) in Hab. discriminate.
  - rewrite (list_str_lt_total _ _ Hbc' Hbc) in Hab. congruence.
Qed.

(** ** [sorted] sorts *)

Lemma insert_sorted_Permutation {A} (lt : A -> A -> bool) x l :
  Permutation (insert_sorted lt x l) (x :: l).
Proof.
  induction l as [|y l IH]; simpl; [reflexivity|].
  destruct (lt x y); [reflexivity|].
  rewrite IH. apply perm_swap.
Qed.

Lemma sorted_fold_Permutation {A} (lt : A -> A -> bool) xs acc :
  Permutation (fold_left (fun acc x => insert_sorted lt x acc) xs acc)
    (acc ++ xs).
Proof.
  revert acc. induction xs as [|x xs IH]; intros acc; simpl.
  - rewrite app_nil_r. reflexivity.
  - rewrite IH, insert_sorted_Permutation.
    change (x :: acc ++ xs) with ((x :: acc) ++ xs).
    rewrite (Permutation_middle acc xs x). reflexivity.
Qed.

Lemma sorted_Permutation {A} (lt : A -> A -> bool) xs :
  Permutation (sorted lt xs) xs.
Proof. apply (sorted_fold_Permutation lt xs []). Qed.

Section Sorting.
Context {A : Type} (lt : A -> A -> bool) (le : A -> A -> Prop).
Hypothesis lt_le : forall x y, lt x y = true -> le x y.
Hypothesis not_lt_le : forall x y, lt x y = false -> le y x.
Hypothesis le_trans : forall x y z, le x y -> le y z -> le x z.

Lemma insert_sorted_StronglySorted x l :
  StronglySorted le l -> StronglySorted le (insert_sorted lt x l).
Proof using lt_le not_lt_le le_trans.
  induction 1 as [|y l Hl IH Hy]; simpl.
  - repeat constructor.
  - destruct (lt x y) eqn:E.
    + constructor; [constructor; assumption|].
      constructor; [apply lt_le, E|].
      rewrite List.Forall_forall in *. intros z Hz. eauto.
    + constructor; [exact IH|].
      rewrite List.Forall_forall in *. intros z Hz.
      apply (Permutation_in _ (insert_sorted_Permutation lt x l)) in Hz.
      destruct Hz as [<-|Hz]; [apply not_lt_le, E | auto].
Qed.

Lemma sorted_StronglySorted xs : StronglySorted le (sorted lt xs).
Proof using lt_le not_lt_le le_trans.
  unfold sorted.
  assert (H : forall acc, StronglySorted le acc ->
            StronglySorted le
              (fold_left (fun acc x => insert_sorted lt x acc) xs acc)).
  { induction xs as [|x xs IH]; intros acc Hacc; simpl; [exact Hacc|].
    apply IH, insert_sorted_StronglySorted, Hacc. }
  apply H. constructor.
Qed.
End Sorting.

Lemma sorted_paths items :
  StronglySorted path_le (sorted PackDat.path_lt items).
Proof.
  apply sorted_StronglySorted.
  - apply path_lt_asym.
  - intros x y H. exact H.
  - apply path_le_trans.
Qed.

(** ** The write path: order, offsets and the data region *)

Lemma encode_buffer_ok d :
  d <> [] ->
  exists enc, PackDat.encode_buffer 0 d = (Ok tt, enc) /\ length enc = length d.
Proof.
  destruct d as [|b0 rest]; [contradiction|]. intros _.
  rewrite encode_buffer_zero. eexists. split; [reflexivity|].
  unfold T1, T2, T3. destruct (b0 <? 128); rewrite !length_stage; reflexivity.
Qed.

Lemma encode_files_ok fs off :
  Forall (fun f => PackDat.data f <> []) fs ->
  PackDat.encode_files fs off = Ok (placed fs off).
Proof.
  intros H. revert off. induction H as [|f fs Hf _ IH]; intros off.
  - reflexivity.
  - cbn [PackDat.encode_files placed].
    destruct (encode_buffer_ok _ Hf) as (enc & E & _). rewrite E. cbn [snd].
    rewrite IH. reflexivity.
Qed.

Lemma placed_names fs off :
  map PackDat.name (placed fs off) = map PackDat.name fs.
Proof.
  revert off. induction fs as [|f fs IH]; intros off; [reflexivity|].
  cbn [placed map]. rewrite IH. reflexivity.
Qed.

Lemma length_placed fs off : length (placed fs off) = length fs.
Proof.
  revert off. induction fs as [|f fs IH]; intros off; [reflexivity|].
  cbn [placed length]. rewrite IH. reflexivity.
Qed.

Lemma placed_offset fs off (k : nat) f :
  placed fs off !! k = Some f ->
  PackDat.offset f
  = off + Z.of_nat (length (concat (map PackDat.data (take k (placed fs off))))).
Proof.
  revert off k. induction fs as [|g fs IH]; intros off k; [discriminate|].
  destruct k as [|k]; cbn [placed].
  - intros [= <-]. simpl. lia.
  - intros H. apply IH in H. rewrite H.
    cbn [take map concat]. rewrite length_app. cbn [PackDat.data]. lia.
Qed.

Lemma collect_files_names items :
  map PackDat.name (PackDat.collect_files items)
  = file_names (sorted PackDat.path_lt items).
Proof.
  unfold PackDat.collect_files, file_names.
  induction (sorted PackDat.path_lt items) as [|it l IH]; [reflexivity|].
  cbn [omap list_omap]. destruct (PackDat.file_bytes it); cbn [map]; rewrite ?IH;
    reflexivity.
Qed.

Lemma collect_files_data items :
  Forall (fun it => PackDat.file_bytes it <> Some []) items ->
  Forall (fun f => PackDat.data f <> []) (PackDat.collect_files items).
Proof.
  intros H. unfold PackDat.collect_files.
  assert (Hs : Forall (fun it => PackDat.file_bytes it <> Some [])
                 (sorted PackDat.path_lt items)).
  { rewrite List.Forall_forall in *. intros it Hit. apply H.
    apply (Permutation_in _ (sorted_Permutation PackDat.path_lt items)), Hit. }
  induction Hs as [|it l Hit _ IH]; [constructor|].
  cbn [omap list_omap]. destruct (PackDat.file_bytes it) as [d|]; [|exact IH].
  constructor; [|exact IH]. cbn [PackDat.data]. congruence.
Qed.

Lemma collect_files_pairs items :
  map pair_of (PackDat.collect_files items)
  = input_pairs (sorted PackDat.path_lt items).
Proof.
  unfold PackDat.collect_files, input_pairs.
  induction (sorted PackDat.path_lt items) as [|it l IH]; [reflexivity|].
  cbn [omap list_omap]. destruct (PackDat.file_bytes it); cbn [map]; rewrite ?IH;
    reflexivity.
Qed.

Lemma placed_pairs fs off :
  map pair_of (placed fs off)
  = map (fun f => (PackDat.name f,
                   snd (PackDat.encode_buffer 0 (PackDat.data f)))) fs.
Proof.
  revert off. induction fs as [|f fs IH]; intros off; [reflexivity|].
  cbn [placed map]. rewrite IH. reflexivity.
Qed.

Lemma create_dat_archive_inv items efs archive :
  PackDat.encode_files (PackDat.collect_files items) 0 = Ok efs ->
  PackDat.create_dat_archive items = Ok (Some archive) ->
  exists index,
    PackDat.build_index efs = Ok index
    /\ archive
       = concat (map PackDat.data efs) ++ PackDat.nibble_swap index
         ++ le_digits 4 (Z.of_nat (length (PackDat.collect_files items))).
Proof.
  intros Henc. unfold PackDat.create_dat_archive. rewrite Henc.
  destruct (PackDat.collect_files items) as [|f fs]; [discriminate|].
  cbn [mbind result_bind].
  destruct (PackDat.build_index efs) as [index|]; [|discriminate].
  unfold to_bytes4_little. destruct (_ && _); [|discriminate].
  cbn [mbind result_bind mret result_ret]. intros [= <-].
  exists index. split; [reflexivity|]. rewrite <- app_assoc. reflexivity.
Qed.

(** C8, amended: when no file is empty, the entries are those of the
    listing sorted by path, compared component by component, each with
    its name and with [encode_buffer] of its payload as data; each offset
    is the total length of the encoded payloads before it, starting at 0;
    and the archive begins with those payloads in the same order. *)
Theorem write_path_order_and_offsets (items : list PackDat.DirItem) :
  Forall (fun it => PackDat.file_bytes it <> Some []) items ->
  exists efs,
    PackDat.encode_files (PackDat.collect_files items) 0 = Ok efs
    /\ StronglySorted path_le (sorted PackDat.path_lt items)
    /\ Permutation (sorted PackDat.path_lt items) items
    /\ map PackDat.name efs = file_names (sorted PackDat.path_lt items)
    /\ map pair_of efs
       = map (fun p => (fst p, snd (PackDat.encode_buffer 0 (snd p))))
           (input_pairs (sorted PackDat.path_lt items))
    /\ (forall (k : nat) f, efs !! k = Some f ->
         PackDat.offset f
         = Z.of_nat (length (concat (map PackDat.data (take k efs)))))
    /\ (forall archive,
         PackDat.create_dat_archive items = Ok (Some archive) ->
         exists rest, archive = concat (map PackDat.data efs) ++ rest).
Proof.
  intros H. exists (placed (PackDat.collect_files items) 0).
  assert (E : PackDat.encode_files (PackDat.collect_files items) 0
              = Ok (placed (PackDat.collect_files items) 0))
    by (apply encode_files_ok, collect_files_data, H).
  split; [exact E|]. split; [apply sorted_paths|].
  split; [apply sorted_Permutation|].
  split; [rewrite placed_names; apply collect_files_names|].
  split; [rewrite placed_pairs, <- collect_files_pairs, List.map_map;
          reflexivity|].
  split.
  - intros k f Hk. rewrite (placed_offset _ _ _ _ Hk). lia.
  - intros archive Ha.
    destruct (create_dat_archive_inv _ _ _ E Ha) as (index & _ & ->).
    eexists. reflexivity.
Qed.

Lemma write_path_order_and_offsets_witness :
  exists efs,
    PackDat.encode_files (PackDat.collect_files dir_a_b) 0 = Ok efs
    /\ StronglySorted path_le (sorted PackDat.path_lt dir_a_b)
    /\ Permutation (sorted PackDat.path_lt dir_a_b) dir_a_b
    /\ map PackDat.name efs = file_names (sorted PackDat.path_lt dir_a_b)
    /\ map pair_of efs
       = map (fun p => (fst p, snd (PackDat.encode_buffer 0 (snd p))))
           (input_pairs (sorted PackDat.path_lt dir_a_b))
    /\ (forall (k : nat) f, efs !! k = Some f ->
         PackDat.offset f
         = Z.of_nat (length (concat (map PackDat.data (take k efs)))))
    /\ (forall archive,
         PackDat.create_dat_archive dir_a_b = Ok (Some archive) ->
         exists rest, archive = concat (map PackDat.data efs) ++ rest).
Proof.
  apply (write_path_order_and_offsets dir_a_b).
  repeat constructor; simpl; discriminate.
Defined.

(** C8 as stated fails where a directory and a file share a prefix: the
    file [a/b] is stored before [a.txt], and in byte order the name
    [a.txt] is the smaller one.  And a listing with an empty file is not
    written at all: encoding the empty payload raises. *)
Lemma write_path_not_in_name_byte_order :
  (exists archive,
     PackDat.create_dat_archive dir_a_b = Ok (Some archive)
     /\ ExtractDat.parse_dat_index archive
        = Ok [{| ExtractDat.name := str_of "a/b"; ExtractDat.packed_size := 1;
                 ExtractDat.unpacked_size := 1; ExtractDat.offset := 0 |};
              {| ExtractDat.name := str_of "a.txt"; ExtractDat.packed_size := 1;
                 ExtractDat.unpacked_size := 1; ExtractDat.offset := 1 |}]
     /\ utf8_encode (str_of "a/b") = Ok (str_of "a/b")
     /\ utf8_encode (str_of "a.txt") = Ok (str_of "a.txt")
     /\ str_lt (str_of "a.txt") (str_of "a/b") = true)
  /\ PackDat.create_dat_archive dir_empty_file = Raise IndexError.
Proof.
  split; [|reflexivity].
  eexists. split; [vm_compute; reflexivity|].
  repeat split; vm_compute; reflexivity.
Qed.

(** ** The archive, written and read back *)

Lemma length_slot f : length (slot f) = 80%nat.
Proof.
  unfold slot. apply length_entry_layout. rewrite length_take. lia.
Qed.

Lemma index_entry_slot f : indexable f -> PackDat.index_entry f = Ok (slot f).
Proof.
  intros ((_ & _ & enc & Henc & _) & Hoff & Hsize).
  rewrite (index_entry_ok f enc Henc Hoff Hsize).
  unfold slot, encoded_name. rewrite Henc. reflexivity.
Qed.

Lemma parse_entry_slot f :
  indexable f -> ExtractDat.parse_entry (slot f) 0 = entry_of f.
Proof.
  intros ((Hs & Hnz & enc & Henc & Hlen) & Hoff & Hsize).
  destruct (utf8_round_trip _ _ Hs Henc) as (Hdec & _ & Hnz').
  unfold slot, encoded_name. rewrite Henc, take_ge by lia.
  rewrite parse_entry_layout by (auto; lia).
  rewrite Hdec. reflexivity.
Qed.

Lemma nibble_swap_involutive data :
  bytes_ok data -> ExtractDat.nibble_swap (PackDat.nibble_swap data) = data.
Proof.
  induction 1 as [|b data Hb _ IH]; [reflexivity|].
  unfold ExtractDat.nibble_swap, PackDat.nibble_swap in *. cbn [map].
  rewrite IH. f_equal. apply (swap_nibbles_involutive b Hb).
Qed.

Lemma length_nibble_swap data : length (PackDat.nibble_swap data) = length data.
Proof. apply length_map. Qed.

Lemma slot_bytes_ok f : indexable f -> bytes_ok (slot f).
Proof.
  intros ((Hs & _ & enc & Henc & Hlen) & _ & _).
  destruct (utf8_round_trip _ _ Hs Henc) as (_ & Hb & _).
  unfold slot, encoded_name, entry_layout. rewrite Henc, take_ge by lia.
  unfold bytes_ok. rewrite !Forall_app.
  repeat split; try apply le_digits_bytes_ok.
  - exact Hb.
  - apply Forall_replicate. unfold is_byte. lia.
  - repeat constructor; unfold is_byte; lia.
Qed.

Lemma build_index_ok efs :
  Forall indexable efs ->
  PackDat.build_index efs = Ok (concat (map slot efs)).
Proof.
  induction 1 as [|f efs Hf _ IH]; [reflexivity|].
  cbn [PackDat.build_index]. rewrite (index_entry_slot f Hf), IH. reflexivity.
Qed.

Lemma index_bytes_ok efs :
  Forall indexable efs -> bytes_ok (concat (map slot efs)).
Proof.
  induction 1 as [|f efs Hf _ IH]; [constructor|].
  cbn [map concat]. apply Forall_app_2; [apply slot_bytes_ok, Hf | exact IH].
Qed.

Lemma length_index efs : length (concat (map slot efs)) = (80 * length efs)%nat.
Proof.
  induction efs as [|f efs IH]; [reflexivity|].
  cbn [map concat length]. rewrite length_app, length_slot, IH. lia.
Qed.

Lemma concat_lookup_split {A} (ls : list (list A)) (k : nat) x :
  ls !! k = Some x ->
  concat ls = concat (take k ls) ++ x ++ concat (drop (S k) ls).
Proof.
  intros H. rewrite <- (take_drop_middle ls k x H) at 1.
  rewrite concat_app. reflexivity.
Qed.

Lemma parse_entry_at efs (k : nat) f :
  efs !! k = Some f ->
  ExtractDat.parse_entry (concat (map slot efs)) (Z.of_nat k)
  = ExtractDat.parse_entry (slot f) 0.
Proof.
  intros Hk. unfold ExtractDat.parse_entry.
  assert (Hk' : map slot efs !! k = Some (slot f))
    by (rewrite list_lookup_fmap, Hk; reflexivity).
  replace (slice (concat (map slot efs)) (Some (Z.of_nat k * 80))
             (Some ((Z.of_nat k + 1) * 80))) with (slot f).
  2:{ symmetry. rewrite (concat_lookup_split _ _ _ Hk').
      rewrite firstn_map. apply slice_mid'.
      - rewrite length_index, length_take.
        apply lookup_lt_Some in Hk. lia.
      - rewrite length_slot. lia. }
  replace (slice (slot f) (Some (0 * 80)) (Some ((0 + 1) * 80)))
    with (slot f); [reflexivity|].
  symmetry. rewrite <- (app_nil_r (slot f)) at 1.
  apply (slice_mid' [] _ []); rewrite ?length_slot; reflexivity.
Qed.

Lemma map_range_lookup {A B} (g : Z -> B) (h : A -> B) (l : list A) :
  (forall (k : nat) x, l !! k = Some x -> g (Z.of_nat k) = h x) ->
  map g (range (Z.of_nat (length l))) = map h l.
Proof.
  intros H. unfold range. rewrite Nat2Z.id.
  apply list_eq. intros k. rewrite !list_lookup_fmap.
  destruct (l !! k) as [x|] eqn:E.
  - rewrite lookup_seq_lt by (eapply lookup_lt_Some; eauto).
    simpl. f_equal. apply H, E.
  - rewrite lookup_seq_ge by (apply lookup_ge_None; exact E). reflexivity.
Qed.

Lemma parse_index efs :
  Forall indexable efs ->
  map (ExtractDat.parse_entry (concat (map slot efs)))
    (range (Z.of_nat (length efs)))
  = map entry_of efs.
Proof.
  intros H. apply map_range_lookup. intros k f Hk.
  rewrite (parse_entry_at efs k f Hk). apply parse_entry_slot.
  rewrite Forall_lookup in H. eauto.
Qed.

Lemma slice_suffix {A} (pre suf : list A) :
  suf <> [] ->
  slice (pre ++ suf) (Some (- Z.of_nat (length suf))) None = suf.
Proof.
  intros Hne. unfold slice. rewrite length_app.
  assert (0 < length suf)%nat by (destruct suf; [contradiction | simpl; lia]).
  destruct (Z.ltb_spec (- Z.of_nat (length suf)) 0); [|lia].
  rewrite Z.max_r by lia.
  replace (Z.to_nat (- Z.of_nat (length suf)
                     + Z.of_nat (length pre + length suf)))
    with (length pre) by lia.
  rewrite drop_app_length. apply take_ge. lia.
Qed.

(** Reading the index of an archive laid out as data, swapped index and
    count. *)
Lemma parse_written_archive efs D :
  Forall indexable efs -> Z.of_nat (length efs) < 2 ^ 32 ->
  ExtractDat.parse_dat_index
    (D ++ PackDat.nibble_swap (concat (map slot efs))
       ++ le_digits 4 (Z.of_nat (length efs)))
  = Ok (map entry_of efs).
Proof.
  intros Hidx Hcount. unfold ExtractDat.parse_dat_index.
  set (I := concat (map slot efs)).
  set (n := Z.of_nat (length efs)).
  assert (Hfc : ExtractDat.file_count (D ++ PackDat.nibble_swap I ++ le_digits 4 n)
                = n).
  { unfold ExtractDat.file_count.
    rewrite (app_assoc D).
    replace (-4) with (- Z.of_nat (length (le_digits 4 n)))
      by (rewrite length_le_digits; reflexivity).
    rewrite slice_suffix by discriminate.
    apply from_bytes_to_bytes4. subst n. lia. }
  rewrite Hfc. f_equal.
  assert (HI : length (PackDat.nibble_swap I) = Z.to_nat (n * 80)).
  { rewrite length_nibble_swap. subst I n. rewrite length_index. lia. }
  rewrite (slice_mid' D (PackDat.nibble_swap I) (le_digits 4 n)).
  2:{ rewrite !length_app, HI, length_le_digits. subst n. lia. }
  2:{ rewrite !length_app, HI, length_le_digits. subst n. lia. }
  rewrite nibble_swap_involutive by (apply index_bytes_ok, Hidx).
  apply parse_index, Hidx.
Qed.

Lemma input_pairs_sorted items :
  Permutation (input_pairs (sorted PackDat.path_lt items)) (input_pairs items).
Proof. apply omap_Permutation, sorted_Permutation. Qed.

Lemma total_size_Permutation l l' :
  Permutation l l' -> total_size l = total_size l'.
Proof.
  unfold total_size. induction 1; cbn [map concat]; rewrite ?length_app in *; lia.
Qed.

Lemma length_encoded d : length (snd (PackDat.encode_buffer 0 d)) = length d.
Proof. apply (three_stages_frame 0 d 0), encode_buffer_cases. Qed.

Lemma survives_nonempty d : survives d -> d <> [].
Proof. intros (enc & E & _) ->. discriminate. Qed.

Lemma placed_lookup fs off (k : nat) e :
  placed fs off !! k = Some e ->
  exists f, fs !! k = Some f
            /\ PackDat.name e = PackDat.name f
            /\ PackDat.data e = snd (PackDat.encode_buffer 0 (PackDat.data f)).
Proof.
  revert off k. induction fs as [|g fs IH]; intros off k; [discriminate|].
  destruct k as [|k]; cbn [placed].
  - intros [= <-]. exists g. auto.
  - intros H. apply IH in H. exact H.
Qed.

Lemma placed_indexable fs off :
  Forall (fun f => name_fits (PackDat.name f)) fs ->
  0 <= off ->
  off + Z.of_nat (length (concat (map PackDat.data fs))) < 2 ^ 32 ->
  Forall indexable (placed fs off).
Proof.
  intros H. revert off. induction H as [|f fs Hf _ IH]; intros off Hoff Htot;
    [constructor|].
  cbn [placed]. cbn [map concat] in Htot. rewrite length_app in Htot.
  constructor.
  - unfold indexable. cbn [PackDat.name PackDat.offset PackDat.data].
    rewrite length_encoded. split; [exact Hf | lia].
  - apply IH; rewrite ?length_encoded; lia.
Qed.

Lemma count_le_total fs :
  Forall (fun f => PackDat.data f <> []) fs ->
  (length fs <= length (concat (map PackDat.data fs)))%nat.
Proof.
  induction 1 as [|f fs Hf _ IH]; [reflexivity|].
  cbn [map concat length]. rewrite length_app.
  destruct (PackDat.data f); [contradiction | simpl; lia].
Qed.

Lemma slice_payload efs rest (k : nat) e :
  efs !! k = Some e ->
  PackDat.offset e
  = Z.of_nat (length (concat (map PackDat.data (take k efs)))) ->
  slice (concat (map PackDat.data efs) ++ rest)
    (Some (PackDat.offset e))
    (Some (PackDat.offset e + Z.of_nat (length (PackDat.data e))))
  = PackDat.data e.
Proof.
  intros Hk Hoff.
  assert (Hk' : map PackDat.data efs !! k = Some (PackDat.data e))
    by (rewrite list_lookup_fmap, Hk; reflexivity).
  rewrite (concat_lookup_split _ _ _ Hk'), <- !app_assoc.
  apply slice_mid'; [|reflexivity].
  rewrite Hoff, firstn_map. reflexivity.
Qed.

(** Writing files that fit and reading the archive back. *)
Lemma written_files_read_back fs :
  fs <> [] ->
  Forall (fun f => name_fits (PackDat.name f) /\ survives (PackDat.data f)) fs ->
  Z.of_nat (length (concat (map PackDat.data fs))) < 2 ^ 32 ->
  exists index archive,
    PackDat.encode_files fs 0 = Ok (placed fs 0)
    /\ PackDat.build_index (placed fs 0) = Ok index
    /\ to_bytes4_little (Z.of_nat (length fs))
       = Ok (le_digits 4 (Z.of_nat (length fs)))
    /\ archive
       = concat (map PackDat.data (placed fs 0)) ++ PackDat.nibble_swap index
         ++ le_digits 4 (Z.of_nat (length fs))
    /\ decode_entries archive
       = Ok (map (fun f => (PackDat.name f, Ok (PackDat.data f))) fs).
Proof.
  intros Hne Hall Htot.
  assert (Hdata : Forall (fun f => PackDat.data f <> []) fs).
  { eapply Forall_impl; [exact Hall|]. intros f [_ Hs].
    apply survives_nonempty, Hs. }
  assert (Hnames : Forall (fun f => name_fits (PackDat.name f)) fs).
  { eapply Forall_impl; [exact Hall|]. intros f [Hn _]. exact Hn. }
  assert (Hidx : Forall indexable (placed fs 0))
    by (apply placed_indexable; [exact Hnames | lia | lia]).
  pose proof (count_le_total fs Hdata) as Hcount.
  exists (concat (map slot (placed fs 0))). eexists.
  split; [apply encode_files_ok, Hdata|].
  split; [apply build_index_ok, Hidx|].
  split; [apply to_bytes4_ok; lia|].
  split; [reflexivity|].
  unfold decode_entries.
  rewrite <- (length_placed fs 0) at 1.
  rewrite parse_written_archive by (rewrite ?length_placed; auto; lia).
  cbn [mbind result_bind mret result_ret]. f_equal.
  rewrite map_map. apply list_eq. intros k. rewrite !list_lookup_fmap.
  destruct (placed fs 0 !! k) as [e|] eqn:Ek.
  - destruct (placed_lookup _ _ _ _ Ek) as (f & Hf & Hn & Hd).
    rewrite Hf. cbn [fmap option_fmap option_map]. f_equal.
    unfold decoded_entry, entry_of.
    cbn [ExtractDat.offset ExtractDat.packed_size ExtractDat.name].
    rewrite (slice_payload (placed fs 0) _ k e Ek)
      by (rewrite (placed_offset _ _ _ _ Ek); lia).
    rewrite Forall_lookup in Hall. destruct (Hall k f Hf) as [_ (enc & E1 & E2)].
    rewrite Hd, E1. cbn [snd]. rewrite E2, Hn. reflexivity.
  - assert (fs !! k = None) as ->; [|reflexivity].
    apply lookup_ge_None. apply lookup_ge_None in Ek.
    rewrite length_placed in Ek. exact Ek.
Qed.

Lemma create_dat_archive_ok items efs index count :
  PackDat.collect_files items <> [] ->
  PackDat.encode_files (PackDat.collect_files items) 0 = Ok efs ->
  PackDat.build_index efs = Ok index ->
  to_bytes4_little (Z.of_nat (length (PackDat.collect_files items))) = Ok count ->
  PackDat.create_dat_archive items
  = Ok (Some (concat (map PackDat.data efs) ++ PackDat.nibble_swap index
              ++ count)).
Proof.
  intros Hne E1 E2 E3. unfold PackDat.create_dat_archive.
  rewrite E1, E3. destruct (PackDat.collect_files items); [contradiction|].
  cbn [mbind result_bind]. rewrite E2.
  cbn [mbind result_bind mret result_ret].
  rewrite <- app_assoc. reflexivity.
Qed.

Lemma to_bytes4_overflow v :
  2 ^ 32 <= v -> to_bytes4_little v = Raise OverflowError.
Proof.
  intros H. unfold to_bytes4_little.
  destruct (Z.ltb_spec v (2 ^ 32)); [lia|]. rewrite andb_false_r. reflexivity.
Qed.

Lemma index_entry_too_large f enc :
  utf8_encode (PackDat.name f) = Ok enc ->
  0 <= PackDat.offset f < 2 ^ 32 ->
  2 ^ 32 <= Z.of_nat (length (PackDat.data f)) ->
  PackDat.index_entry f = Raise OverflowError.
Proof.
  intros Henc Hoff Hsize. unfold PackDat.index_entry.
  rewrite Henc. cbn [mbind result_bind].
  rewrite (to_bytes4_ok (PackDat.offset f)) by exact Hoff.
  cbn [mbind result_bind].
  rewrite (to_bytes4_overflow _ Hsize). reflexivity.
Qed.

(** Sizes are 32-bit: a file of [2^32] bytes or more stops the write path
    at its index entry. *)
Lemma archive_too_large_raises d :
  d <> [] -> 2 ^ 32 <= Z.of_nat (length d) ->
  PackDat.create_dat_archive
    [{| PackDat.rel_parts := [str_of "a"]; PackDat.file_bytes := Some d |}]
  = Raise OverflowError.
Proof.
  intros Hne Hlen. unfold PackDat.create_dat_archive.
  change (PackDat.collect_files _)
    with [{| PackDat.name := str_of "a"; PackDat.data := d;
             PackDat.offset := 0 |}].
  cbv iota. rewrite encode_files_ok by (repeat constructor; exact Hne).
  cbn [mbind result_bind placed PackDat.data PackDat.name].
  cbn [PackDat.build_index].
  rewrite (index_entry_too_large _ [97]);
    [reflexivity | reflexivity | cbn [PackDat.offset]; lia |].
  cbn [PackDat.data]. rewrite length_encoded. exact Hlen.
Qed.

(** C2, amended: for a listing with at least one regular file, whose
    names fit in 63 bytes, whose payloads each come back from
    [decode_buffer] after [encode_buffer], and whose sizes add up to less
    than [2^32], the archive is written; every entry of it decodes without
    error, and the (name, payload) pairs decoded are those of the listing,
    in path order.  They are what the read path hands to the file system,
    whichever it is: an entry fails only where the file system refuses it,
    and when it refuses none the files written are the pairs of the
    listing. *)
Theorem archive_round_trip (items : list PackDat.DirItem) :
  input_pairs items <> [] ->
  Forall (fun p => name_fits (fst p) /\ survives (snd p)) (input_pairs items) ->
  total_size (input_pairs items) < 2 ^ 32 ->
  exists archive,
    PackDat.create_dat_archive items = Ok (Some archive)
    /\ decode_entries archive
       = Ok (map (fun p => (fst p, Ok (snd p)))
               (input_pairs (sorted PackDat.path_lt items)))
    /\ Permutation (input_pairs (sorted PackDat.path_lt items))
         (input_pairs items)
    /\ forall (FS : Type) (H : FileSystem FS) (fs : FS),
         ExtractDat.extract_and_decode archive fs
         = run_extraction
             (map (fun p => (fst p, Ok (snd p)))
                (input_pairs (sorted PackDat.path_lt items))) fs
         /\ forall outs fs',
              ExtractDat.extract_and_decode archive fs = (Ok (Some outs), fs') ->
              map fst outs
              = map fst (input_pairs (sorted PackDat.path_lt items))
              /\ (all_written outs ->
                  ExtractDat.written outs
                  = input_pairs (sorted PackDat.path_lt items)).
Proof.
  intros Hne Hall Htot.
  pose proof (input_pairs_sorted items) as Hperm.
  pose proof (collect_files_pairs items) as Hpairs.
  set (fs := PackDat.collect_files items) in *.
  assert (Hfs : fs <> []).
  { intros E. rewrite E in Hpairs. cbn [map] in Hpairs.
    rewrite <- Hpairs in Hperm. apply Permutation_nil in Hperm.
    contradiction. }
  assert (Hall' : Forall (fun f => name_fits (PackDat.name f)
                                   /\ survives (PackDat.data f)) fs).
  { rewrite <- Hperm, <- Hpairs in Hall.
    rewrite List.Forall_map in Hall. exact Hall. }
  assert (Htot' : Z.of_nat (length (concat (map PackDat.data fs))) < 2 ^ 32).
  { rewrite <- (total_size_Permutation _ _ Hperm), <- Hpairs in Htot.
    unfold total_size in Htot. rewrite map_map in Htot. exact Htot. }
  destruct (written_files_read_back fs Hfs Hall' Htot')
    as (index & archive & E1 & E2 & E3 & -> & Hread).
  assert (Hdec : decode_entries
                   (concat (map PackDat.data (placed fs 0))
                    ++ PackDat.nibble_swap index
                    ++ le_digits 4 (Z.of_nat (length fs)))
                 = Ok (map (fun p => (fst p, Ok (snd p)))
                         (input_pairs (sorted PackDat.path_lt items))))
    by (rewrite Hread, <- Hpairs, List.map_map; reflexivity).
  eexists.
  split; [apply (create_dat_archive_ok items _ _ _ Hfs E1 E2 E3)|].
  split; [exact Hdec|]. split; [exact Hperm|].
  intros FS H fs0.
  pose proof (extract_and_decode_run _ _ fs0 Hdec) as Hrun.
  split; [exact Hrun|].
  intros outs fs' E. rewrite Hrun in E.
  apply run_extraction_pairs in E. exact E.
Qed.

Lemma archive_round_trip_witness :
  exists archive,
    PackDat.create_dat_archive dir_two_files = Ok (Some archive)
    /\ decode_entries archive
       = Ok (map (fun p => (fst p, Ok (snd p)))
               (input_pairs (sorted PackDat.path_lt dir_two_files)))
    /\ Permutation (input_pairs (sorted PackDat.path_lt dir_two_files))
         (input_pairs dir_two_files)
    /\ forall (FS : Type) (H : FileSystem FS) (fs : FS),
         ExtractDat.extract_and_decode archive fs
         = run_extraction
             (map (fun p => (fst p, Ok (snd p)))
                (input_pairs (sorted PackDat.path_lt dir_two_files))) fs
         /\ forall outs fs',
              ExtractDat.extract_and_decode archive fs = (Ok (Some outs), fs') ->
              map fst outs
              = map fst (input_pairs (sorted PackDat.path_lt dir_two_files))
              /\ (all_written outs ->
                  ExtractDat.written outs
                  = input_pairs (sorted PackDat.path_lt dir_two_files)).
Proof.
  apply (archive_round_trip dir_two_files).
  - vm_compute. discriminate.
  - repeat constructor; cbn [fst snd];
      try (repeat constructor; unfold is_code_point; simpl; lia);
      try (eexists; split; [vm_compute; reflexivity | simpl; lia]);
      try (apply decode_encode_zero_short;
           [repeat constructor; unfold is_byte; lia | discriminate | simpl; lia]).
  - vm_compute. reflexivity.
Defined.

(** C2 as stated fails: for the empty file set no archive is written at
    all; and of the two files [x] and [x\y], whose names are stored as [x]
    and [x/y], the second is not read back into an empty directory, where
    [x] is by then a file and cannot be made a directory. *)
Lemma archive_not_read_back :
  PackDat.create_dat_archive [] = Ok None
  /\ (exists archive,
        PackDat.create_dat_archive dir_x_and_x_backslash_y = Ok (Some archive)
        /\ input_pairs dir_x_and_x_backslash_y
           = [(str_of "x", [0x41]); (str_of "x/y", [0x42])]
        /\ ExtractDat.extract_and_decode archive ([] : tree)
           = (Ok (Some [(str_of "x", Ok [0x41]);
                        (str_of "x/y", Raise (OSError 17))]),
              [([str_of "x"], File [0x41]); ([], Dir)])).
Proof.
  split; [reflexivity|].
  eexists. split; [vm_compute; reflexivity|].
  split; vm_compute; reflexivity.
Qed.

(** * Further properties of the cipher *)

Lemma decode_buffer_ok s buf :
  s <> 0 \/ buf <> [] -> fst (ExtractDat.decode_buffer s buf) = Ok tt.
Proof.
  intros H. destruct (Z.eq_dec s 0) as [->|Hs].
  - destruct buf as [|b0 rest]; [destruct H; contradiction|].
    rewrite decode_buffer_zero. reflexivity.
  - rewrite decode_buffer_nonzero by exact Hs. reflexivity.
Qed.

Lemma encode_buffer_ok' s buf :
  s <> 0 \/ buf <> [] -> fst (PackDat.encode_buffer s buf) = Ok tt.
Proof.
  intros H. destruct (Z.eq_dec s 0) as [->|Hs].
  - destruct buf as [|b0 rest]; [destruct H; contradiction|].
    rewrite encode_buffer_zero. reflexivity.
  - rewrite encode_buffer_nonzero by exact Hs. reflexivity.
Qed.

(** X1: neither routine raises unless the offset is zero and the buffer
    empty: inside the loops every index into the buffer and into the key
    table is in range, for any offset, negative ones too. *)
Theorem cipher_never_raises_otherwise (buf : list Z) (s : Z) :
  s <> 0 \/ buf <> [] ->
  fst (ExtractDat.decode_buffer s buf) = Ok tt
  /\ fst (PackDat.encode_buffer s buf) = Ok tt.
Proof.
  intros H. split; [apply decode_buffer_ok | apply encode_buffer_ok']; exact H.
Qed.

Lemma cipher_never_raises_otherwise_witness :
  fst (ExtractDat.decode_buffer (-5) [1; 2; 3; 4; 5; 6; 7]) = Ok tt
  /\ fst (PackDat.encode_buffer (-5) [1; 2; 3; 4; 5; 6; 7]) = Ok tt.
Proof.
  apply (cipher_never_raises_otherwise [1; 2; 3; 4; 5; 6; 7] (-5)).
  left. discriminate.
Defined.

Lemma three_stages_bytes_ok s buf out :
  out = buf \/ out = T3 s (T2 s (T1 s buf)) \/ out = T1 s (T2 s (T3 s buf)) ->
  bytes_ok buf -> bytes_ok out.
Proof. intros [-> | [-> | ->]] H; auto with bytes. Qed.

(** X2: both routines keep a buffer of bytes a buffer of bytes: every value
    they store is in [0, 256), whether they return or raise. *)
Theorem cipher_keeps_bytes (buf : list Z) (s : Z) :
  bytes_ok buf ->
  bytes_ok (snd (ExtractDat.decode_buffer s buf))
  /\ bytes_ok (snd (PackDat.encode_buffer s buf)).
Proof.
  intros H. split.
  - apply (three_stages_bytes_ok s buf); auto using decode_buffer_cases.
  - apply (three_stages_bytes_ok s buf); auto using encode_buffer_cases.
Qed.

Lemma cipher_keeps_bytes_witness :
  bytes_ok (snd (ExtractDat.decode_buffer 0 [0x00; 0x80; 0xFF; 0x7F]))
  /\ bytes_ok (snd (PackDat.encode_buffer 0 [0x00; 0x80; 0xFF; 0x7F])).
Proof.
  apply (cipher_keeps_bytes [0x00; 0x80; 0xFF; 0x7F] 0).
  repeat constructor; unfold is_byte; lia.
Defined.

Lemma decode_buffer_head b0 rest :
  exists tl,
    ExtractDat.decode_buffer 0 (b0 :: rest) = (Ok tt, Z.lxor b0 0xFF :: tl).
Proof.
  rewrite decode_buffer_zero.
  destruct (stages_head b0 rest
              (if b0 <? 128 then T1 0 (T2 0 (T3 0 (b0 :: rest)))
               else T3 0 (T2 0 (T1 0 (b0 :: rest))))) as [tl E].
  { destruct (b0 <? 128); auto. }
  exists tl. rewrite E. reflexivity.
Qed.

Lemma undo_123 s buf :
  bytes_ok buf -> T1 s (T2 s (T3 s (T3 s (T2 s (T1 s buf))))) = buf.
Proof.
  intros H. rewrite T3_involutive by auto with bytes.
  rewrite T2_involutive by auto with bytes. apply T1_involutive, H.
Qed.

Lemma undo_321 s buf :
  bytes_ok buf -> T3 s (T2 s (T1 s (T1 s (T2 s (T3 s buf))))) = buf.
Proof.
  intros H. rewrite T1_involutive by auto with bytes.
  rewrite T2_involutive by auto with bytes. apply T3_involutive, H.
Qed.

Lemma decode_buffer_twice b0 rest :
  bytes_ok (b0 :: rest) ->
  exists mid,
    ExtractDat.decode_buffer 0 (b0 :: rest) = (Ok tt, mid)
    /\ ExtractDat.decode_buffer 0 mid = (Ok tt, b0 :: rest).
Proof.
  intros Hok. assert (Hb : is_byte b0) by (inversion Hok; assumption).
  destruct (decode_buffer_head b0 rest) as [tl E].
  exists (Z.lxor b0 0xFF :: tl). split; [exact E|].
  rewrite decode_buffer_zero, (xor_ff_high_bit b0 Hb).
  rewrite decode_buffer_zero in E. injection E as E. rewrite <- E.
  destruct (b0 <? 128); cbn [negb]; f_equal;
    [apply undo_321 | apply undo_123]; exact Hok.
Qed.

Lemma encode_buffer_twice b0 rest :
  bytes_ok (b0 :: rest) ->
  exists mid,
    PackDat.encode_buffer 0 (b0 :: rest) = (Ok tt, mid)
    /\ PackDat.encode_buffer 0 mid = (Ok tt, b0 :: rest).
Proof.
  intros Hok. assert (Hb : is_byte b0) by (inversion Hok; assumption).
  destruct (encode_buffer_head b0 rest) as [tl E].
  exists (Z.lxor b0 0xFF :: tl). split; [exact E|].
  rewrite encode_buffer_zero, (xor_ff_high_bit b0 Hb).
  rewrite encode_buffer_zero in E. injection E as E. rewrite <- E.
  destruct (b0 <? 128); cbn [negb]; f_equal;
    [apply undo_123 | apply undo_321]; exact Hok.
Qed.

(** X3: at offset zero [decode_buffer] is its own inverse on a non-empty
    buffer, and so is [encode_buffer]: the first pass turns the high bit of
    the first byte over, so the second pass takes the other mode, which
    runs the three transforms in the reverse order. *)
Theorem cipher_self_inverse_at_zero (buf : list Z) :
  bytes_ok buf -> buf <> [] ->
  (exists mid,
     ExtractDat.decode_buffer 0 buf = (Ok tt, mid)
     /\ ExtractDat.decode_buffer 0 mid = (Ok tt, buf))
  /\ (exists mid,
        PackDat.encode_buffer 0 buf = (Ok tt, mid)
        /\ PackDat.encode_buffer 0 mid = (Ok tt, buf)).
Proof.
  intros Hok Hne. destruct buf as [|b0 rest]; [contradiction|].
  split; [apply decode_buffer_twice | apply encode_buffer_twice]; exact Hok.
Qed.

Lemma cipher_self_inverse_at_zero_witness :
  (exists mid,
     ExtractDat.decode_buffer 0 [0; 0; 0; 0; 0; 0; 0; 0; 0; 0] = (Ok tt, mid)
     /\ ExtractDat.decode_buffer 0 mid = (Ok tt, [0; 0; 0; 0; 0; 0; 0; 0; 0; 0]))
  /\ (exists mid,
        PackDat.encode_buffer 0 [0; 0; 0; 0; 0; 0; 0; 0; 0; 0] = (Ok tt, mid)
        /\ PackDat.encode_buffer 0 mid = (Ok tt, [0; 0; 0; 0; 0; 0; 0; 0; 0; 0])).
Proof.
  apply (cipher_self_inverse_at_zero [0; 0; 0; 0; 0; 0; 0; 0; 0; 0]).
  - repeat constructor; unfold is_byte; lia.
  - discriminate.
Defined.

(** X4: with a start offset other than zero, encoding what was decoded at
    the same offset gives the buffer back (the converse direction of the
    round trip). *)
Theorem encode_decode_nonzero_offset (buf : list Z) (s : Z) :
  bytes_ok buf -> s <> 0 ->
  exists dec,
    ExtractDat.decode_buffer s buf = (Ok tt, dec)
    /\ PackDat.encode_buffer s dec = (Ok tt, buf).
Proof.
  intros Hok Hs. exists (T3 s (T2 s (T1 s buf))).
  split; [apply decode_buffer_nonzero, Hs|].
  rewrite encode_buffer_nonzero by exact Hs. f_equal. apply undo_123, Hok.
Qed.

Lemma encode_decode_nonzero_offset_witness :
  exists dec,
    ExtractDat.decode_buffer 12 [0x10; 0x80; 0xFF; 0x00; 0x7F; 0x41] = (Ok tt, dec)
    /\ PackDat.encode_buffer 12 dec
       = (Ok tt, [0x10; 0x80; 0xFF; 0x00; 0x7F; 0x41]).
Proof.
  apply (encode_decode_nonzero_offset [0x10; 0x80; 0xFF; 0x00; 0x7F; 0x41] 12).
  - repeat constructor; unfold is_byte; lia.
  - lia.
Defined.

(** ** Buffers decoded in pieces *)

Lemma stage_app m r op s a b :
  stage m r op s (a ++ b)
  = stage m r op s a ++ stage m r op (s + Z.of_nat (length a)) b.
Proof.
  unfold stage. rewrite imap_app. f_equal.
  apply imap_ext. intros p x _. cbv beta.
  replace (s + Z.of_nat (length a + p)) with (s + Z.of_nat (length a) + Z.of_nat p)
    by lia.
  reflexivity.
Qed.

Lemma mode1_decode_app s a b :
  T3 s (T2 s (T1 s (a ++ b)))
  = T3 s (T2 s (T1 s a))
    ++ T3 (s + Z.of_nat (length a)) (T2 (s + Z.of_nat (length a))
         (T1 (s + Z.of_nat (length a)) b)).
Proof.
  unfold T1, T2, T3. rewrite !stage_app, !length_stage. reflexivity.
Qed.

Lemma mode1_encode_app s a b :
  T1 s (T2 s (T3 s (a ++ b)))
  = T1 s (T2 s (T3 s a))
    ++ T1 (s + Z.of_nat (length a)) (T2 (s + Z.of_nat (length a))
         (T3 (s + Z.of_nat (length a)) b)).
Proof.
  unfold T1, T2, T3. rewrite !stage_app, !length_stage. reflexivity.
Qed.

Lemma decode_buffer_mode1 s buf :
  0 <= s -> (s = 0 -> exists b0 rest, buf = b0 :: rest /\ 0x80 <= b0) ->
  ExtractDat.decode_buffer s buf = (Ok tt, T3 s (T2 s (T1 s buf))).
Proof.
  intros Hs H0. destruct (Z.eq_dec s 0) as [->|Hne].
  - destruct (H0 eq_refl) as (b0 & rest & -> & Hb).
    rewrite decode_buffer_zero. destruct (Z.ltb_spec b0 128); [lia | reflexivity].
  - apply decode_buffer_nonzero, Hne.
Qed.

Lemma encode_buffer_mode1 s buf :
  0 <= s -> (s = 0 -> exists b0 rest, buf = b0 :: rest /\ 0x80 <= b0) ->
  PackDat.encode_buffer s buf = (Ok tt, T1 s (T2 s (T3 s buf))).
Proof.
  intros Hs H0. destruct (Z.eq_dec s 0) as [->|Hne].
  - destruct (H0 eq_refl) as (b0 & rest & -> & Hb).
    rewrite encode_buffer_zero. destruct (Z.ltb_spec b0 128); [lia | reflexivity].
  - apply encode_buffer_nonzero, Hne.
Qed.

(** X5: what the start offset is for.  A stream that is processed in mode
    1 (it does not start at offset zero, or its first byte is [0x80] or
    more) can be cut anywhere: processing the first piece at the offset of
    the stream and the second piece at the offset where it starts gives
    the pieces of the stream processed whole.  Both routines. *)
Theorem cipher_in_pieces (a b : list Z) (s : Z) :
  0 <= s -> a <> [] ->
  (s = 0 -> exists b0 rest, a = b0 :: rest /\ 0x80 <= b0) ->
  ExtractDat.decode_buffer s (a ++ b)
  = (Ok tt,
     snd (ExtractDat.decode_buffer s a)
     ++ snd (ExtractDat.decode_buffer (s + Z.of_nat (length a)) b))
  /\ PackDat.encode_buffer s (a ++ b)
     = (Ok tt,
        snd (PackDat.encode_buffer s a)
        ++ snd (PackDat.encode_buffer (s + Z.of_nat (length a)) b)).
Proof.
  intros Hs Ha H0.
  assert (Hlen : s + Z.of_nat (length a) <> 0).
  { destruct a; [contradiction | simpl; lia]. }
  assert (H0' : s = 0 -> exists b0 rest, a ++ b = b0 :: rest /\ 0x80 <= b0).
  { intros E. destruct (H0 E) as (b0 & rest & -> & Hb).
    exists b0, (rest ++ b). split; [reflexivity | exact Hb]. }
  split.
  - rewrite (decode_buffer_mode1 s (a ++ b) Hs H0').
    rewrite (decode_buffer_mode1 s a Hs H0).
    rewrite (decode_buffer_nonzero _ b Hlen). cbn [snd].
    rewrite mode1_decode_app. reflexivity.
  - rewrite (encode_buffer_mode1 s (a ++ b) Hs H0').
    rewrite (encode_buffer_mode1 s a Hs H0).
    rewrite (encode_buffer_nonzero _ b Hlen). cbn [snd].
    rewrite mode1_encode_app. reflexivity.
Qed.

Lemma cipher_in_pieces_witness :
  ExtractDat.decode_buffer 0 ([0x90; 1; 2; 3; 4; 5; 6] ++ [7; 8; 9; 10; 11; 12])
  = (Ok tt,
     snd (ExtractDat.decode_buffer 0 [0x90; 1; 2; 3; 4; 5; 6])
     ++ snd (ExtractDat.decode_buffer (0 + Z.of_nat 7) [7; 8; 9; 10; 11; 12]))
  /\ PackDat.encode_buffer 0 ([0x90; 1; 2; 3; 4; 5; 6] ++ [7; 8; 9; 10; 11; 12])
     = (Ok tt,
        snd (PackDat.encode_buffer 0 [0x90; 1; 2; 3; 4; 5; 6])
        ++ snd (PackDat.encode_buffer (0 + Z.of_nat 7) [7; 8; 9; 10; 11; 12])).
Proof.
  apply (cipher_in_pieces [0x90; 1; 2; 3; 4; 5; 6] [7; 8; 9; 10; 11; 12] 0).
  - lia.
  - discriminate.
  - intros _. exists 0x90, [1; 2; 3; 4; 5; 6]. split; [reflexivity | lia].
Defined.

(** ** The encoder against the decoder *)

Lemma orders_agree_lookup s buf (q : nat) :
  (s + Z.of_nat q) mod 12 <> 9 ->
  T3 s (T2 s (T1 s buf)) !! q = T1 s (T2 s (T3 s buf)) !! q.
Proof.
  intros Hq. unfold T1, T2, T3. rewrite !lookup_stage.
  destruct (buf !! q) as [x|]; [|reflexivity]. cbn [fmap option_fmap option_map].
  destruct (Z.eqb_spec ((s + Z.of_nat q) mod 4) 1) as [H1|H1],
           (Z.eqb_spec ((s + Z.of_nat q) mod 3) 0) as [H2|H2],
           (Z.eqb_spec ((s + Z.of_nat q) mod 6) 2) as [H3|H3];
    try reflexivity;
    exfalso; revert Hq; try revert H1; try revert H2; try revert H3;
    generalize (s + Z.of_nat q); clear; intros; Z.div_mod_to_equations; lia.
Qed.

Lemma encode_decode_same_or_swapped buf :
  (snd (PackDat.encode_buffer 0 buf) = T3 0 (T2 0 (T1 0 buf))
   /\ snd (ExtractDat.decode_buffer 0 buf) = T1 0 (T2 0 (T3 0 buf)))
  \/ (snd (PackDat.encode_buffer 0 buf) = T1 0 (T2 0 (T3 0 buf))
      /\ snd (ExtractDat.decode_buffer 0 buf) = T3 0 (T2 0 (T1 0 buf)))
  \/ buf = [].
Proof.
  destruct buf as [|b0 rest]; [auto|].
  rewrite encode_buffer_zero, decode_buffer_zero.
  destruct (b0 <? 128); auto.
Qed.

(** X6: at offset zero the encoder and the decoder run the transforms in
    opposite orders on every buffer, and the order only matters where a
    negation and an XOR meet: the two routines give the same byte at every
    position but 9, 21, 33, ..., and the same result on a buffer of at
    most nine bytes. *)
Theorem encoder_is_decoder_but_at_9_mod_12 (buf : list Z) :
  (forall q : nat,
     Z.of_nat q mod 12 <> 9 ->
     snd (PackDat.encode_buffer 0 buf) !! q
     = snd (ExtractDat.decode_buffer 0 buf) !! q)
  /\ ((length buf <= 9)%nat ->
      PackDat.encode_buffer 0 buf = ExtractDat.decode_buffer 0 buf).
Proof.
  assert (H : forall q : nat,
            Z.of_nat q mod 12 <> 9 ->
            snd (PackDat.encode_buffer 0 buf) !! q
            = snd (ExtractDat.decode_buffer 0 buf) !! q).
  { intros q Hq.
    destruct (encode_decode_same_or_swapped buf) as [[-> ->]|[[-> ->]| ->]].
    - apply orders_agree_lookup. exact Hq.
    - symmetry. apply orders_agree_lookup. exact Hq.
    - reflexivity. }
  split; [exact H|]. intros Hlen.
  destruct buf as [|b0 rest]; [reflexivity|].
  assert (E : snd (PackDat.encode_buffer 0 (b0 :: rest))
              = snd (ExtractDat.decode_buffer 0 (b0 :: rest))).
  { apply list_eq. intros q. destruct (decide (q < 9)%nat) as [Hlt|Hge].
    - apply H. rewrite Z.mod_small by lia. lia.
    - pose proof (three_stages_frame 0 (b0 :: rest) 0 _
                    (encode_buffer_cases 0 (b0 :: rest))) as [L1 _].
      pose proof (three_stages_frame 0 (b0 :: rest) 0 _
                    (decode_buffer_cases 0 (b0 :: rest))) as [L2 _].
      rewrite !lookup_ge_None_2 by lia. reflexivity. }
  rewrite encode_buffer_zero, decode_buffer_zero in *. cbn [snd] in E.
  rewrite E. reflexivity.
Qed.

Lemma encoder_is_decoder_but_at_9_mod_12_witness :
  PackDat.encode_buffer 0 [0x41; 0x42; 0x43; 0x44; 0x45]
  = ExtractDat.decode_buffer 0 [0x41; 0x42; 0x43; 0x44; 0x45].
Proof.
  destruct (encoder_is_decoder_but_at_9_mod_12 [0x41; 0x42; 0x43; 0x44; 0x45])
    as [_ H].
  apply H. simpl. lia.
Defined.

(** ** The index obfuscation *)

Lemma nibble_swap_bytes_ok data :
  bytes_ok data -> bytes_ok (PackDat.nibble_swap data).
Proof.
  induction 1 as [|b data Hb _ IH]; [constructor|].
  constructor; [apply (swap_nibbles_byte b Hb) | exact IH].
Qed.

(** X7: [nibble_swap] undoes itself on bytes, so the one function serves
    the writer and the reader; it keeps the length and yields bytes. *)
Theorem nibble_swap_round_trip (data : list Z) :
  bytes_ok data ->
  ExtractDat.nibble_swap (PackDat.nibble_swap data) = data
  /\ PackDat.nibble_swap (ExtractDat.nibble_swap data) = data
  /\ length (PackDat.nibble_swap data) = length data
  /\ bytes_ok (PackDat.nibble_swap data).
Proof.
  intros H. split; [apply nibble_swap_involutive, H|].
  split; [apply (nibble_swap_involutive data H)|].
  split; [apply length_nibble_swap | apply nibble_swap_bytes_ok, H].
Qed.

Lemma nibble_swap_round_trip_witness :
  ExtractDat.nibble_swap (PackDat.nibble_swap [0x12; 0xF0; 0x0F; 0xA5])
  = [0x12; 0xF0; 0x0F; 0xA5]
  /\ PackDat.nibble_swap (ExtractDat.nibble_swap [0x12; 0xF0; 0x0F; 0xA5])
     = [0x12; 0xF0; 0x0F; 0xA5]
  /\ length (PackDat.nibble_swap [0x12; 0xF0; 0x0F; 0xA5])
     = length [0x12; 0xF0; 0x0F; 0xA5]
  /\ bytes_ok (PackDat.nibble_swap [0x12; 0xF0; 0x0F; 0xA5]).
Proof.
  apply (nibble_swap_round_trip [0x12; 0xF0; 0x0F; 0xA5]).
  repeat constructor; unfold is_byte; lia.
Defined.

(** * Further properties of the [.dat] writer *)

Lemma encode_files_empty_payload fs off :
  Exists (fun f => PackDat.data f = []) fs ->
  PackDat.encode_files fs off = Raise IndexError.
Proof.
  intros H. revert off. induction fs as [|f fs IH]; intros off.
  - inversion H.
  - cbn [PackDat.encode_files].
    destruct (PackDat.data f) as [|b0 rest] eqn:Ed; [reflexivity|].
    rewrite encode_buffer_zero.
    rewrite IH; [reflexivity|].
    inversion H as [? ? Hf|? ? Hfs]; subst; [congruence | exact Hfs].
Qed.

Lemma collect_files_In items it d :
  In it items -> PackDat.file_bytes it = Some d ->
  In {| PackDat.name := PackDat.relative_name (PackDat.rel_parts it);
        PackDat.data := d; PackDat.offset := 0 |}
     (PackDat.collect_files items).
Proof.
  intros Hin Hd. unfold PackDat.collect_files.
  apply (Permutation_in _ (Permutation_sym (sorted_Permutation PackDat.path_lt items)))
    in Hin.
  induction (sorted PackDat.path_lt items) as [|x l IH]; [contradiction|].
  cbn [omap list_omap]. destruct Hin as [->|Hin].
  - rewrite Hd. left. reflexivity.
  - destruct (PackDat.file_bytes x); [right|]; apply IH, Hin.
Qed.

(** X8: one empty file stops the whole pack: whatever else the directory
    holds, [create_dat_archive] ends with the [IndexError] of
    [encode_buffer] on the empty payload and writes no archive. *)
Theorem empty_file_aborts_pack (items : list PackDat.DirItem) :
  (exists it, In it items /\ PackDat.file_bytes it = Some []) ->
  PackDat.create_dat_archive items = Raise IndexError.
Proof.
  intros (it & Hin & Hd).
  pose proof (collect_files_In items it [] Hin Hd) as Hf.
  unfold PackDat.create_dat_archive.
  rewrite (encode_files_empty_payload (PackDat.collect_files items) 0).
  - destruct (PackDat.collect_files items); [contradiction | reflexivity].
  - apply List.Exists_exists. eexists. split; [exact Hf | reflexivity].
Qed.

Lemma empty_file_aborts_pack_witness :
  PackDat.create_dat_archive dir_empty_file = Raise IndexError.
Proof.
  apply (empty_file_aborts_pack dir_empty_file).
  eexists. split; [right; left; reflexivity | reflexivity].
Defined.

Lemma collect_files_nil items :
  PackDat.collect_files items = [] <-> input_pairs items = [].
Proof.
  pose proof (collect_files_pairs items) as Hp.
  pose proof (input_pairs_sorted items) as Hperm.
  split; intros E.
  - rewrite E in Hp. cbn [map] in Hp. rewrite <- Hp in Hperm.
    apply Permutation_nil in Hperm. exact Hperm.
  - rewrite E in Hperm. apply Permutation_sym, Permutation_nil in Hperm.
    rewrite Hperm in Hp. destruct (PackDat.collect_files items);
      [reflexivity | discriminate].
Qed.

(** ** The name field *)

Lemma entry_layout_lookup_name nb off size (k : nat) :
  (length nb <= 63)%nat -> (k < 64)%nat ->
  entry_layout nb off size !! k = Some (nth k nb 0).
Proof.
  intros Hlen Hk. unfold entry_layout.
  destruct (decide (k < length nb)%nat) as [Hlt|Hge].
  - rewrite lookup_app_l by exact Hlt.
    rewrite nth_lookup. destruct (nb !! k) eqn:E; [reflexivity|].
    apply lookup_ge_None in E. lia.
  - rewrite lookup_app_r by lia.
    rewrite lookup_app_l by (rewrite length_replicate; lia).
    rewrite lookup_replicate_2 by lia.
    rewrite nth_overflow by lia. reflexivity.
Qed.

Lemma entry_layout_lookup_reserved nb off size (k : nat) :
  (length nb <= 63)%nat -> (76 <= k < 80)%nat ->
  entry_layout nb off size !! k = Some 0.
Proof.
  intros Hlen Hk. unfold entry_layout.
  rewrite lookup_app_r by lia.
  rewrite lookup_app_r by (rewrite length_replicate; lia).
  rewrite lookup_app_r by (rewrite length_replicate, length_le_digits; lia).
  rewrite lookup_app_r by (rewrite length_replicate, !length_le_digits; lia).
  rewrite lookup_app_r by (rewrite length_replicate, !length_le_digits; lia).
  rewrite length_replicate, !length_le_digits.
  replace (k - length nb - (64 - length nb) - 4 - 4 - 4)%nat with (k - 76)%nat
    by lia.
  destruct (k - 76)%nat as [|[|[|[|j]]]] eqn:E; try reflexivity. lia.
Qed.

(** X10: the name never runs over its field.  For every name that can be
    encoded, of any length, the index entry is 80 bytes long; its bytes 0
    to 62 are the first 63 bytes of the encoded name, zero-padded; byte 63
    is zero, so the field always ends in a NUL; and the four reserved bytes
    are zero. *)
Theorem name_field_is_bounded (f : PackDat.FileEntry) (enc : list Z) :
  utf8_encode (PackDat.name f) = Ok enc ->
  0 <= PackDat.offset f < 2 ^ 32 ->
  Z.of_nat (length (PackDat.data f)) < 2 ^ 32 ->
  exists ent,
    PackDat.index_entry f = Ok ent
    /\ length ent = 80%nat
    /\ (forall k : nat, (k < 63)%nat -> ent !! k = Some (nth k enc 0))
    /\ ent !! 63%nat = Some 0
    /\ (forall k : nat, (76 <= k < 80)%nat -> ent !! k = Some 0).
Proof.
  intros Henc Hoff Hsize. eexists.
  split; [apply (index_entry_ok f enc Henc Hoff Hsize)|].
  assert (Hnb : (length (take 63 enc) <= 63)%nat) by (rewrite length_take; lia).
  split; [apply length_entry_layout, Hnb|]. split; [|split].
  - intros k Hk. rewrite entry_layout_lookup_name by (auto; lia).
    f_equal. rewrite !nth_lookup, lookup_take_lt by exact Hk. reflexivity.
  - rewrite entry_layout_lookup_name by (auto; lia).
    rewrite nth_overflow by lia. reflexivity.
  - intros k Hk. apply entry_layout_lookup_reserved; assumption.
Qed.

Lemma name_field_is_bounded_witness :
  exists ent,
    PackDat.index_entry long_name_entry = Ok ent
    /\ length ent = 80%nat
    /\ (forall k : nat, (k < 63)%nat ->
         ent !! k = Some (nth k (replicate 70 0x61) 0))
    /\ ent !! 63%nat = Some 0
    /\ (forall k : nat, (76 <= k < 80)%nat -> ent !! k = Some 0).
Proof.
  apply (name_field_is_bounded long_name_entry (replicate 70 0x61)).
  - vm_compute. reflexivity.
  - simpl. lia.
  - simpl. lia.
Defined.

(** ** Every archive written, read back *)

Lemma before_nul_app_nul nb rest :
  before_nul (nb ++ 0 :: rest) = before_nul nb.
Proof.
  induction nb as [|b nb IH]; [reflexivity|].
  cbn [app before_nul]. destruct (b =? 0); [reflexivity|].
  rewrite IH. reflexivity.
Qed.

Lemma parse_entry_layout_any nb off size :
  (length nb <= 63)%nat ->
  0 <= off < 2 ^ 32 -> 0 <= size < 2 ^ 32 ->
  ExtractDat.parse_entry (entry_layout nb off size) 0
  = {| ExtractDat.name := utf8_decode_ignore (before_nul nb);
       ExtractDat.packed_size := size;
       ExtractDat.unpacked_size := size;
       ExtractDat.offset := off |}.
Proof.
  intros Hlen Hoff Hsize. unfold ExtractDat.parse_entry.
  replace (slice (entry_layout nb off size) (Some (0 * 80))
             (Some ((0 + 1) * 80))) with (entry_layout nb off size).
  2:{ symmetry.
      rewrite <- (app_nil_r (entry_layout nb off size)) at 1.
      apply (slice_mid' [] _ []); rewrite ?length_entry_layout by lia;
        reflexivity. }
  set (hd := nb ++ replicate (64 - length nb) 0).
  assert (Hhd : length hd = 64%nat).
  { subst hd. rewrite length_app, length_replicate. lia. }
  assert (E : entry_layout nb off size
              = hd ++ le_digits 4 off ++ le_digits 4 size
                ++ le_digits 4 size ++ [0; 0; 0; 0]).
  { unfold entry_layout, hd. rewrite <- app_assoc. reflexivity. }
  rewrite E. f_equal.
  - rewrite slice_prefix by lia. change (Z.to_nat 64) with 64%nat.
    rewrite <- Hhd, take_app_length. subst hd.
    destruct (64 - length nb)%nat as [|k] eqn:Ek; [lia|].
    cbn [replicate]. rewrite before_nul_app_nul. reflexivity.
  - rewrite (app_assoc hd), (app_assoc (hd ++ _)).
    rewrite (slice_mid' _ (le_digits 4 size) _ 72 76)
      by (rewrite ?length_app, ?length_le_digits, ?Hhd; reflexivity).
    apply from_bytes_to_bytes4, Hsize.
  - rewrite (app_assoc hd).
    rewrite (slice_mid' _ (le_digits 4 size) _ 68 72)
      by (rewrite ?length_app, ?length_le_digits, ?Hhd; reflexivity).
    apply from_bytes_to_bytes4, Hsize.
  - rewrite (slice_mid' _ (le_digits 4 off) _ 64 68)
      by (rewrite ?length_le_digits, ?Hhd; reflexivity).
    apply from_bytes_to_bytes4, Hoff.
Qed.

Lemma index_entry_packable f : packable f -> PackDat.index_entry f = Ok (slot f).
Proof.
  intros ((_ & enc & Henc) & Hoff & Hsize).
  rewrite (index_entry_ok f enc Henc Hoff Hsize).
  unfold slot, encoded_name. rewrite Henc. reflexivity.
Qed.

Lemma parse_entry_packable f :
  packable f -> ExtractDat.parse_entry (slot f) 0 = entry_read f.
Proof.
  intros ((_ & enc & Henc) & Hoff & Hsize).
  unfold slot, encoded_name, entry_read, name_read_back. rewrite Henc.
  apply parse_entry_layout_any; [rewrite length_take; lia | lia | lia].
Qed.

Lemma packable_slot_bytes_ok f : packable f -> bytes_ok (slot f).
Proof.
  intros ((Hs & enc & Henc) & _ & _).
  destruct (utf8_round_trip _ _ Hs Henc) as (_ & Hb & _).
  unfold slot, encoded_name, entry_layout. rewrite Henc.
  unfold bytes_ok. rewrite !Forall_app.
  repeat split; try apply le_digits_bytes_ok.
  - apply Forall_take, Hb.
  - apply Forall_replicate. unfold is_byte. lia.
  - repeat constructor; unfold is_byte; lia.
Qed.

Lemma build_index_packable efs :
  Forall packable efs ->
  PackDat.build_index efs = Ok (concat (map slot efs)).
Proof.
  induction 1 as [|f efs Hf _ IH]; [reflexivity|].
  cbn [PackDat.build_index]. rewrite (index_entry_packable f Hf), IH.
  reflexivity.
Qed.

Lemma packable_index_bytes_ok efs :
  Forall packable efs -> bytes_ok (concat (map slot efs)).
Proof.
  induction 1 as [|f efs Hf _ IH]; [constructor|].
  cbn [map concat]. apply Forall_app_2; [apply packable_slot_bytes_ok, Hf | exact IH].
Qed.

Lemma parse_packable_index efs :
  Forall packable efs ->
  map (ExtractDat.parse_entry (concat (map slot efs)))
    (range (Z.of_nat (length efs)))
  = map entry_read efs.
Proof.
  intros H. apply map_range_lookup. intros k f Hk.
  rewrite (parse_entry_at efs k f Hk). apply parse_entry_packable.
  rewrite Forall_lookup in H. eauto.
Qed.

Lemma file_count_written D I n :
  0 <= n < 2 ^ 32 ->
  ExtractDat.file_count (D ++ I ++ le_digits 4 n) = n.
Proof.
  intros Hn. unfold ExtractDat.file_count. rewrite (app_assoc D).
  replace (-4) with (- Z.of_nat (length (le_digits 4 n)))
    by (rewrite length_le_digits; reflexivity).
  rewrite slice_suffix by discriminate.
  apply from_bytes_to_bytes4, Hn.
Qed.

Lemma parse_packed_archive efs D :
  Forall packable efs -> Z.of_nat (length efs) < 2 ^ 32 ->
  ExtractDat.parse_dat_index
    (D ++ PackDat.nibble_swap (concat (map slot efs))
       ++ le_digits 4 (Z.of_nat (length efs)))
  = Ok (map entry_read efs).
Proof.
  intros Hidx Hcount. unfold ExtractDat.parse_dat_index.
  rewrite file_count_written by lia. f_equal.
  set (I := concat (map slot efs)).
  set (n := Z.of_nat (length efs)).
  assert (HI : length (PackDat.nibble_swap I) = Z.to_nat (n * 80)).
  { rewrite length_nibble_swap. subst I n. rewrite length_index. lia. }
  rewrite (slice_mid' D (PackDat.nibble_swap I) (le_digits 4 n)).
  2:{ rewrite !length_app, HI, length_le_digits. subst n. lia. }
  2:{ rewrite !length_app, HI, length_le_digits. subst n. lia. }
  rewrite nibble_swap_involutive by (apply packable_index_bytes_ok, Hidx).
  apply parse_packable_index, Hidx.
Qed.

Lemma placed_packable fs off :
  Forall (fun f => encodable (PackDat.name f)) fs ->
  0 <= off ->
  off + Z.of_nat (length (concat (map PackDat.data fs))) < 2 ^ 32 ->
  Forall packable (placed fs off).
Proof.
  intros H. revert off. induction H as [|f fs Hf _ IH]; intros off Hoff Htot;
    [constructor|].
  cbn [placed]. cbn [map concat] in Htot. rewrite length_app in Htot.
  constructor.
  - unfold packable. cbn [PackDat.name PackDat.offset PackDat.data].
    rewrite length_encoded. split; [exact Hf | lia].
  - apply IH; rewrite ?length_encoded; lia.
Qed.

Lemma length_placed_data fs off :
  length (concat (map PackDat.data (placed fs off)))
  = length (concat (map PackDat.data fs)).
Proof.
  revert off. induction fs as [|f fs IH]; intros off; [reflexivity|].
  cbn [placed map concat PackDat.data]. rewrite !length_app, IH, length_encoded.
  reflexivity.
Qed.

Lemma length_payload_read_back d : length (payload_read_back d) = length d.
Proof.
  unfold payload_read_back.
  pose proof (three_stages_frame 0 _ 0 _
                (decode_buffer_cases 0 (snd (PackDat.encode_buffer 0 d)))) as [L _].
  rewrite L. apply length_encoded.
Qed.

Lemma extract_entry_placed fs rest (k : nat) e f :
  placed fs 0 !! k = Some e -> fs !! k = Some f -> PackDat.data f <> [] ->
  decoded_entry (concat (map PackDat.data (placed fs 0)) ++ rest)
    (entry_read e)
  = (name_read_back (PackDat.name f), Ok (payload_read_back (PackDat.data f))).
Proof.
  intros Ek Hf Hne.
  destruct (placed_lookup _ _ _ _ Ek) as (f' & Hf' & Hn & Hd).
  assert (f' = f) by congruence. subst f'.
  unfold decoded_entry, entry_read.
  cbn [ExtractDat.offset ExtractDat.packed_size ExtractDat.name].
  rewrite (slice_payload (placed fs 0) _ k e Ek)
    by (rewrite (placed_offset _ _ _ _ Ek); lia).
  rewrite Hd, Hn. unfold payload_read_back.
  destruct (encode_buffer_ok _ Hne) as (enc & E & L). rewrite E. cbn [snd].
  assert (Henc : enc <> []).
  { intros ->. destruct (PackDat.data f); [contradiction | discriminate]. }
  destruct enc as [|e0 tl]; [contradiction|].
  rewrite decode_buffer_zero. reflexivity.
Qed.

(** What [create_dat_archive] writes for files that it can pack, and what
    the reader makes of it. *)
Lemma packed_files_read_back fs :
  fs <> [] ->
  Forall (fun f => encodable (PackDat.name f) /\ PackDat.data f <> []) fs ->
  Z.of_nat (length (concat (map PackDat.data fs))) < 2 ^ 32 ->
  let archive :=
    concat (map PackDat.data (placed fs 0))
    ++ PackDat.nibble_swap (concat (map slot (placed fs 0)))
    ++ le_digits 4 (Z.of_nat (length fs)) in
  PackDat.encode_files fs 0 = Ok (placed fs 0)
  /\ PackDat.build_index (placed fs 0) = Ok (concat (map slot (placed fs 0)))
  /\ to_bytes4_little (Z.of_nat (length fs))
     = Ok (le_digits 4 (Z.of_nat (length fs)))
  /\ ExtractDat.parse_dat_index archive = Ok (map entry_read (placed fs 0))
  /\ decode_entries archive
     = Ok (map (fun f => (name_read_back (PackDat.name f),
                          Ok (payload_read_back (PackDat.data f)))) fs).
Proof.
  intros Hne Hall Htot archive.
  assert (Hdata : Forall (fun f => PackDat.data f <> []) fs).
  { eapply Forall_impl; [exact Hall|]. intros f [_ Hs]. exact Hs. }
  assert (Hnames : Forall (fun f => encodable (PackDat.name f)) fs).
  { eapply Forall_impl; [exact Hall|]. intros f [Hn _]. exact Hn. }
  assert (Hidx : Forall packable (placed fs 0))
    by (apply placed_packable; [exact Hnames | lia | lia]).
  pose proof (count_le_total fs Hdata) as Hcount.
  assert (Hparse : ExtractDat.parse_dat_index archive
                   = Ok (map entry_read (placed fs 0))).
  { subst archive. rewrite <- (length_placed fs 0).
    apply parse_packed_archive; [exact Hidx | rewrite length_placed; lia]. }
  split; [apply encode_files_ok, Hdata|].
  split; [apply build_index_packable, Hidx|].
  split; [apply to_bytes4_ok; lia|].
  split; [exact Hparse|].
  unfold decode_entries. rewrite Hparse.
  cbn [mbind result_bind mret result_ret]. f_equal.
  rewrite map_map. apply list_eq. intros k. rewrite !list_lookup_fmap.
  destruct (placed fs 0 !! k) as [e|] eqn:Ek.
  - destruct (placed_lookup _ _ _ _ Ek) as (f & Hf & _ & _).
    rewrite Hf. cbn [fmap option_fmap option_map]. f_equal.
    subst archive. apply (extract_entry_placed fs _ k e f Ek Hf).
    rewrite Forall_lookup in Hdata. eauto.
  - assert (fs !! k = None) as ->; [|reflexivity].
    apply lookup_ge_None. apply lookup_ge_None in Ek.
    rewrite length_placed in Ek. exact Ek.
Qed.

Lemma collect_files_Forall items (P : list Z * list Z -> Prop) :
  Forall P (input_pairs items) ->
  Forall (fun f => P (pair_of f)) (PackDat.collect_files items).
Proof.
  intros H. rewrite <- (input_pairs_sorted items), <- collect_files_pairs in H.
  rewrite List.Forall_map in H. exact H.
Qed.

Lemma collect_files_total items :
  Z.of_nat (length (concat (map PackDat.data (PackDat.collect_files items))))
  = total_size (input_pairs items).
Proof.
  rewrite <- (total_size_Permutation _ _ (input_pairs_sorted items)),
    <- collect_files_pairs.
  unfold total_size. rewrite map_map. reflexivity.
Qed.

Lemma collect_files_length items :
  length (PackDat.collect_files items) = length (input_pairs items).
Proof.
  rewrite <- (Permutation_length (input_pairs_sorted items)),
    <- collect_files_pairs, length_map.
  reflexivity.
Qed.

Lemma packed_archive_read_back items :
  input_pairs items <> [] ->
  Forall (fun p => encodable (fst p) /\ snd p <> []) (input_pairs items) ->
  total_size (input_pairs items) < 2 ^ 32 ->
  let fs := PackDat.collect_files items in
  let archive :=
    concat (map PackDat.data (placed fs 0))
    ++ PackDat.nibble_swap (concat (map slot (placed fs 0)))
    ++ le_digits 4 (Z.of_nat (length fs)) in
  PackDat.create_dat_archive items = Ok (Some archive)
  /\ ExtractDat.parse_dat_index archive = Ok (map entry_read (placed fs 0))
  /\ decode_entries archive
     = Ok (map (fun p => (name_read_back (fst p), Ok (payload_read_back (snd p))))
             (input_pairs (sorted PackDat.path_lt items))).
Proof.
  intros Hne Hall Htot fs archive.
  assert (Hfs : fs <> []).
  { intros E. apply collect_files_nil in E. contradiction. }
  pose proof (collect_files_Forall items _ Hall) as Hall'.
  rewrite <- collect_files_total in Htot.
  destruct (packed_files_read_back fs Hfs Hall' Htot)
    as (E1 & E2 & E3 & Hparse & Hread).
  split; [apply (create_dat_archive_ok items _ _ _ Hfs E1 E2 E3)|].
  split; [exact Hparse|].
  fold archive in Hread. rewrite Hread, <- collect_files_pairs, map_map.
  reflexivity.
Qed.

(** X11: what the reader makes of any archive the writer wrote.  For a
    directory with at least one file, none of them empty, whose names can
    be encoded and whose sizes add up to less than [2^32], the archive is
    written and every entry of it decodes without error, in path order:
    the name comes back as what [decode] makes of its first 63 bytes up to
    the first NUL, and the payload comes back as [decode_buffer] of
    [encode_buffer] of it, which has the length of the payload.  These
    names and payloads are what the reader hands to the file system,
    whichever it is, and an entry fails only where the file system
    refuses it. *)
Theorem archive_read_back (items : list PackDat.DirItem) :
  input_pairs items <> [] ->
  Forall (fun p => encodable (fst p) /\ snd p <> []) (input_pairs items) ->
  total_size (input_pairs items) < 2 ^ 32 ->
  exists archive,
    PackDat.create_dat_archive items = Ok (Some archive)
    /\ decode_entries archive
       = Ok (map (fun p => (name_read_back (fst p),
                            Ok (payload_read_back (snd p))))
               (input_pairs (sorted PackDat.path_lt items)))
    /\ (forall (FS : Type) (H : FileSystem FS) (fs : FS),
          ExtractDat.extract_and_decode archive fs
          = run_extraction
              (map (fun p => (name_read_back (fst p),
                              Ok (payload_read_back (snd p))))
                 (input_pairs (sorted PackDat.path_lt items))) fs)
    /\ Forall (fun p => length (payload_read_back (snd p)) = length (snd p))
         (input_pairs (sorted PackDat.path_lt items)).
Proof.
  intros Hne Hall Htot.
  destruct (packed_archive_read_back items Hne Hall Htot) as (E & _ & R).
  eexists. split; [exact E|]. split; [exact R|]. split.
  - intros FS H fs. apply extract_and_decode_run, R.
  - apply List.Forall_forall. intros p _. apply length_payload_read_back.
Qed.

Lemma archive_read_back_witness :
  exists archive,
    PackDat.create_dat_archive dir_long_name = Ok (Some archive)
    /\ decode_entries archive
       = Ok (map (fun p => (name_read_back (fst p),
                            Ok (payload_read_back (snd p))))
               (input_pairs (sorted PackDat.path_lt dir_long_name)))
    /\ (forall (FS : Type) (H : FileSystem FS) (fs : FS),
          ExtractDat.extract_and_decode archive fs
          = run_extraction
              (map (fun p => (name_read_back (fst p),
                              Ok (payload_read_back (snd p))))
                 (input_pairs (sorted PackDat.path_lt dir_long_name))) fs)
    /\ Forall (fun p => length (payload_read_back (snd p)) = length (snd p))
         (input_pairs (sorted PackDat.path_lt dir_long_name)).
Proof.
  apply (archive_read_back dir_long_name).
  - vm_compute. discriminate.
  - repeat constructor; cbn [fst snd]; try discriminate;
      try (eexists; vm_compute; reflexivity);
      apply Forall_replicate; unfold is_code_point; lia.
  - vm_compute. reflexivity.
Defined.

Lemma entries_read_lookup fs (k : nat) e :
  map entry_read (placed fs 0) !! k = Some e ->
  exists p f, placed fs 0 !! k = Some p /\ fs !! k = Some f
              /\ e = entry_read p
              /\ length (PackDat.data p) = length (PackDat.data f).
Proof.
  rewrite list_lookup_fmap. destruct (placed fs 0 !! k) as [p|] eqn:Ek;
    [|discriminate].
  cbn [fmap option_fmap option_map]. intros [= <-].
  destruct (placed_lookup _ _ _ _ Ek) as (f & Hf & _ & Hd).
  exists p, f. repeat split; auto. rewrite Hd. apply length_encoded.
Qed.

Lemma placed_end fs (k : nat) p :
  placed fs 0 !! k = Some p ->
  PackDat.offset p + Z.of_nat (length (PackDat.data p))
  = Z.of_nat (length (concat (map PackDat.data (take (S k) (placed fs 0))))).
Proof.
  intros Ek. rewrite (placed_offset _ _ _ _ Ek).
  rewrite (take_S_r _ _ _ Ek), map_app, concat_app, length_app.
  cbn [map concat]. rewrite app_nil_r. lia.
Qed.

Lemma length_concat_take {A} (ls : list (list A)) (k : nat) :
  (length (concat (take k ls)) <= length (concat ls))%nat.
Proof.
  rewrite <- (take_drop k ls) at 2. rewrite concat_app, length_app. lia.
Qed.

(** X12: every archive written is one that a checking reader would
    accept.  Under the same conditions the archive is the payloads, 80
    bytes per file and the 4-byte count; the count read back is the number
    of files and the index starts where the data ends; the entries parsed
    are as many; the first starts at 0, each next one starts where the one
    before ends, and the last ends where the index starts; each has the
    length of its payload, more than 0, as both sizes. *)
Theorem written_archive_is_well_formed (items : list PackDat.DirItem) :
  input_pairs items <> [] ->
  Forall (fun p => encodable (fst p) /\ snd p <> []) (input_pairs items) ->
  total_size (input_pairs items) < 2 ^ 32 ->
  exists archive entries,
    PackDat.create_dat_archive items = Ok (Some archive)
    /\ ExtractDat.parse_dat_index archive = Ok entries
    /\ Z.of_nat (length archive)
       = total_size (input_pairs items)
         + 80 * Z.of_nat (length (input_pairs items)) + 4
    /\ ExtractDat.file_count archive = Z.of_nat (length (input_pairs items))
    /\ ExtractDat.index_start archive = total_size (input_pairs items)
    /\ length entries = length (input_pairs items)
    /\ (forall e, entries !! 0%nat = Some e -> ExtractDat.offset e = 0)
    /\ (forall (k : nat) e e',
         entries !! k = Some e -> entries !! S k = Some e' ->
         ExtractDat.offset e' = ExtractDat.offset e + ExtractDat.packed_size e)
    /\ (forall e, last entries = Some e ->
         ExtractDat.offset e + ExtractDat.packed_size e
         = ExtractDat.index_start archive)
    /\ (forall (k : nat) e,
         entries !! k = Some e ->
         0 < ExtractDat.packed_size e
         /\ ExtractDat.unpacked_size e = ExtractDat.packed_size e
         /\ exists p, input_pairs (sorted PackDat.path_lt items) !! k = Some p
                      /\ ExtractDat.packed_size e = Z.of_nat (length (snd p))).
Proof.
  intros Hne Hall Htot.
  destruct (packed_archive_read_back items Hne Hall Htot) as (E & P & _).
  set (fs := PackDat.collect_files items) in *.
  set (efs := placed fs 0) in *.
  assert (Hn : length fs = length (input_pairs items))
    by apply collect_files_length.
  assert (HD : Z.of_nat (length (concat (map PackDat.data efs)))
               = total_size (input_pairs items)).
  { unfold efs. rewrite length_placed_data. apply collect_files_total. }
  assert (Hdata : Forall (fun f => PackDat.data f <> []) fs).
  { pose proof (collect_files_Forall items _ Hall) as H.
    eapply Forall_impl; [exact H|]. intros f [_ Hf]. exact Hf. }
  pose proof (count_le_total fs Hdata) as Hcount.
  pose proof (collect_files_total items) as Htotal. fold fs in Htotal.
  assert (Hfc : ExtractDat.file_count
                  (concat (map PackDat.data efs)
                   ++ PackDat.nibble_swap (concat (map slot efs))
                   ++ le_digits 4 (Z.of_nat (length fs)))
                = Z.of_nat (length fs)) by (apply file_count_written; lia).
  assert (Hlen : Z.of_nat (length
                  (concat (map PackDat.data efs)
                   ++ PackDat.nibble_swap (concat (map slot efs))
                   ++ le_digits 4 (Z.of_nat (length fs))))
                = total_size (input_pairs items) + 80 * Z.of_nat (length fs) + 4).
  { rewrite !length_app, length_nibble_swap, length_index, length_le_digits.
    unfold efs at 2. rewrite length_placed. lia. }
  eexists. exists (map entry_read efs).
  split; [exact E|]. split; [exact P|].
  split; [rewrite Hlen, Hn; reflexivity|].
  split; [rewrite Hfc, Hn; reflexivity|].
  split; [unfold ExtractDat.index_start; rewrite Hfc, Hlen; lia|].
  split; [rewrite length_map; unfold efs; rewrite length_placed; exact Hn|].
  split; [|split; [|split]].
  - intros e He. apply entries_read_lookup in He as (p & f & Ep & _ & -> & _).
    cbn [entry_read ExtractDat.offset].
    rewrite (placed_offset _ _ _ _ Ep). reflexivity.
  - intros k e e' He He'.
    apply entries_read_lookup in He as (p & f & Ep & _ & -> & _).
    apply entries_read_lookup in He' as (p' & f' & Ep' & _ & -> & _).
    cbn [entry_read ExtractDat.offset ExtractDat.packed_size].
    rewrite (placed_end _ _ _ Ep), (placed_offset _ _ _ _ Ep'). lia.
  - intros e He. rewrite last_lookup, length_map in He.
    apply entries_read_lookup in He as (p & f & Ep & _ & -> & _).
    cbn [entry_read ExtractDat.offset ExtractDat.packed_size].
    unfold ExtractDat.index_start. rewrite Hfc, Hlen.
    rewrite (placed_end _ _ _ Ep).
    apply lookup_lt_Some in Ep. fold efs in Ep |- *.
    replace (S (Init.Nat.pred (length efs))) with (length efs) by lia.
    rewrite take_ge by lia. lia.
  - intros k e He.
    apply entries_read_lookup in He as (p & f & Ep & Ef & -> & L).
    cbn [entry_read ExtractDat.unpacked_size ExtractDat.packed_size].
    rewrite L. split; [|split; [reflexivity|]].
    + rewrite Forall_lookup in Hdata. specialize (Hdata k f Ef).
      destruct (PackDat.data f); [contradiction | simpl; lia].
    + exists (pair_of f). split; [|reflexivity].
      rewrite <- collect_files_pairs. fold fs.
      rewrite list_lookup_fmap, Ef. reflexivity.
Qed.

Lemma written_archive_is_well_formed_witness :
  exists archive entries,
    PackDat.create_dat_archive dir_two_files = Ok (Some archive)
    /\ ExtractDat.parse_dat_index archive = Ok entries
    /\ Z.of_nat (length archive) = 14 + 80 * 2 + 4
    /\ ExtractDat.file_count archive = 2
    /\ ExtractDat.index_start archive = 14.
Proof.
  destruct (written_archive_is_well_formed dir_two_files)
    as (archive & entries & H1 & H2 & H3 & H4 & H5 & _).
  - vm_compute. discriminate.
  - repeat constructor; cbn [fst snd]; try discriminate;
      try (eexists; vm_compute; reflexivity);
      repeat constructor; unfold is_code_point; simpl; lia.
  - vm_compute. reflexivity.
  - exists archive, entries. repeat split; assumption.
Defined.

(** * Further properties of the [.dat] reader *)

Lemma swap_nibbles_any_byte b : is_byte (Transform.swap_nibbles b).
Proof.
  assert (E : Transform.swap_nibbles b = Transform.swap_nibbles (b mod 256)).
  { unfold Transform.swap_nibbles.
    change 256 with (2 ^ 8). rewrite <- Z.land_ones by lia.
    rewrite <- !Z.land_assoc. reflexivity. }
  rewrite E. apply swap_nibbles_byte. unfold is_byte.
  apply Z.mod_pos_bound. lia.
Qed.

Lemma nibble_swap_any_bytes_ok data : bytes_ok (ExtractDat.nibble_swap data).
Proof.
  induction data as [|b data IH]; [constructor|].
  constructor; [apply swap_nibbles_any_byte | exact IH].
Qed.

Lemma slice_bytes_ok l a b : bytes_ok l -> bytes_ok (slice l a b).
Proof. intros H. unfold slice. apply Forall_take, Forall_drop, H. Qed.

Lemma length_slice_le {A} (l : list A) (b c : Z) :
  0 <= b <= c -> (length (slice l (Some b) (Some c)) <= Z.to_nat (c - b))%nat.
Proof.
  intros H. unfold slice. rewrite length_take.
  destruct (Z.ltb_spec b 0); [lia|]. destruct (Z.ltb_spec c 0); lia.
Qed.

Lemma length_slice_prefix_le {A} (l : list A) (c : Z) :
  0 <= c -> (length (slice l None (Some c)) <= Z.to_nat c)%nat.
Proof.
  intros H. unfold slice. rewrite length_take.
  destruct (Z.ltb_spec c 0); lia.
Qed.

Lemma from_bytes_little_range bs :
  bytes_ok bs -> 0 <= from_bytes_little bs < 256 ^ Z.of_nat (length bs).
Proof.
  induction 1 as [|b bs Hb _ IH]; [simpl; lia|].
  cbn [from_bytes_little length]. rewrite Nat2Z.inj_succ, Z.pow_succ_r by lia.
  unfold is_byte in Hb. lia.
Qed.

Lemma from_bytes_little_u32 bs :
  bytes_ok bs -> (length bs <= 4)%nat -> 0 <= from_bytes_little bs < 2 ^ 32.
Proof.
  intros H L. pose proof (from_bytes_little_range bs H) as R.
  assert (256 ^ Z.of_nat (length bs) <= 256 ^ 4)
    by (apply Z.pow_le_mono_r; lia).
  change (256 ^ 4) with (2 ^ 32) in *. lia.
Qed.

Lemma before_nul_props bs :
  (length (before_nul bs) <= length bs)%nat /\ no_nul (before_nul bs).
Proof.
  induction bs as [|b bs [IH1 IH2]]; [split; [reflexivity | constructor]|].
  cbn [before_nul]. destruct (Z.eqb_spec b 0).
  - split; [simpl; lia | constructor].
  - split; [simpl; lia | constructor; assumption].
Qed.

Ltac decoder_cases :=
  repeat match goal with
         | |- context [?a <? ?b] => destruct (Z.ltb_spec a b); try (exfalso; lia)
         | |- context [?a <=? ?b] => destruct (Z.leb_spec a b); try (exfalso; lia)
         | |- context [?a =? ?b] => destruct (Z.eqb_spec a b); try (exfalso; lia)
         | |- context [match ?l with [] => _ | _ :: _ => _ end] =>
             is_var l; destruct l
         end; cbn [negb orb andb].

Ltac split_no_nul :=
  unfold no_nul in *;
  repeat match goal with
         | H : Forall _ (_ :: _) |- _ => inversion H; clear H; subst
         end.

Lemma utf8_decode_ignore_props_n (n : nat) bs :
  (length bs <= n)%nat ->
  (length (utf8_decode_ignore bs) <= length bs)%nat
  /\ (no_nul bs -> no_nul (utf8_decode_ignore bs)).
Proof.
  revert bs. induction n as [|n IH]; intros bs Hlen.
  - destruct bs; [|simpl in Hlen; lia]. split; [reflexivity | constructor].
  - destruct bs as [|ch r1]; [split; [reflexivity | constructor]|].
    cbn [utf8_decode_ignore]. unfold is_continuation.
    rewrite !Z.shiftl_mul_pow2 by lia.
    decoder_cases;
      try match goal with
          | |- context [utf8_decode_ignore ?r] =>
              destruct (IH r ltac:(cbn [length] in *; lia)) as [L N]
          end;
      (split;
       [ cbn [length] in *; lia
       | intros Hnz; split_no_nul; rewrite ?Z.shiftl_mul_pow2 by lia;
         first [ solve [constructor]
               | solve [constructor; [lia | apply N; assumption]]
               | solve [apply N; repeat constructor; assumption] ] ]).
Qed.

Lemma utf8_decode_ignore_props bs :
  (length (utf8_decode_ignore bs) <= length bs)%nat
  /\ (no_nul bs -> no_nul (utf8_decode_ignore bs)).
Proof. apply (utf8_decode_ignore_props_n (length bs)). reflexivity. Qed.

Lemma parse_entry_bounded index i :
  bytes_ok index ->
  let e := ExtractDat.parse_entry index i in
  0 <= ExtractDat.offset e < 2 ^ 32
  /\ 0 <= ExtractDat.packed_size e < 2 ^ 32
  /\ 0 <= ExtractDat.unpacked_size e < 2 ^ 32
  /\ (length (ExtractDat.name e) <= 64)%nat
  /\ no_nul (ExtractDat.name e).
Proof.
  intros Hidx e. subst e. unfold ExtractDat.parse_entry.
  cbn [ExtractDat.offset ExtractDat.packed_size ExtractDat.unpacked_size
       ExtractDat.name].
  set (ent := slice index (Some (i * 80)) (Some ((i + 1) * 80))).
  assert (Hent : bytes_ok ent) by (apply slice_bytes_ok, Hidx).
  repeat split;
    try (apply from_bytes_little_u32;
         [apply slice_bytes_ok, Hent
         | etransitivity; [apply length_slice_le; lia | simpl; lia]]).
  - destruct (utf8_decode_ignore_props
                (before_nul (slice ent None (Some 64)))) as [L _].
    destruct (before_nul_props (slice ent None (Some 64))) as [L' _].
    pose proof (length_slice_prefix_le ent 64 ltac:(lia)). lia.
  - apply utf8_decode_ignore_props, before_nul_props.
Qed.

(** X13: whatever the bytes of the archive, every entry that
    [parse_dat_index] returns has an offset and two sizes in [0, 2^32) and
    a name of at most 64 characters, none of them NUL. *)
Theorem parsed_entries_are_bounded (dat : list Z) (entries : list ExtractDat.Entry) :
  ExtractDat.parse_dat_index dat = Ok entries ->
  Forall (fun e =>
            0 <= ExtractDat.offset e < 2 ^ 32
            /\ 0 <= ExtractDat.packed_size e < 2 ^ 32
            /\ 0 <= ExtractDat.unpacked_size e < 2 ^ 32
            /\ (length (ExtractDat.name e) <= 64)%nat
            /\ no_nul (ExtractDat.name e)) entries.
Proof.
  unfold ExtractDat.parse_dat_index. intros [= <-].
  apply List.Forall_map, List.Forall_forall. intros i _.
  apply parse_entry_bounded, nibble_swap_any_bytes_ok.
Qed.

Lemma parsed_entries_are_bounded_witness :
  Forall (fun e =>
            0 <= ExtractDat.offset e < 2 ^ 32
            /\ 0 <= ExtractDat.packed_size e < 2 ^ 32
            /\ 0 <= ExtractDat.unpacked_size e < 2 ^ 32
            /\ (length (ExtractDat.name e) <= 64)%nat
            /\ no_nul (ExtractDat.name e))
    [{| ExtractDat.name := [97]; ExtractDat.packed_size := 5;
        ExtractDat.unpacked_size := 5; ExtractDat.offset := 0 |}].
Proof.
  apply (parsed_entries_are_bounded oversized_entry_archive).
  vm_compute. reflexivity.
Defined.

(** ** Names too long for the field *)

Lemma utf8_decode_cut_1 ch :
  0xC2 <= ch < 0xF5 -> utf8_decode_ignore [ch] = [].
Proof.
  intros H. cbn [utf8_decode_ignore].
  destruct (Z.ltb_spec ch 128); [lia|].
  destruct (Z.ltb_spec ch 194); [lia|].
  destruct (Z.ltb_spec ch 224); [reflexivity|].
  destruct (Z.ltb_spec ch 240); [reflexivity|].
  destruct (Z.ltb_spec ch 245); [reflexivity | lia].
Qed.

Lemma utf8_decode_cut_2 ch ch2 :
  0xE0 <= ch < 0xF5 -> 0x80 <= ch2 < 0xC0 ->
  (ch = 0xE0 -> 0xA0 <= ch2) -> (ch = 0xED -> ch2 < 0xA0) ->
  (ch = 0xF0 -> 0x90 <= ch2) -> (ch = 0xF4 -> ch2 < 0x90) ->
  utf8_decode_ignore [ch; ch2] = [].
Proof.
  intros H H2 HE0 HED HF0 HF4. cbn [utf8_decode_ignore].
  destruct (Z.ltb_spec ch 128); [lia|].
  destruct (Z.ltb_spec ch 194); [lia|].
  destruct (Z.ltb_spec ch 224); [lia|].
  rewrite !is_continuation_true by assumption. cbn [negb orb].
  destruct (Z.ltb_spec ch 240).
  - replace (if ch2 <? 160 then ch =? 224 else ch =? 237) with false;
      [reflexivity|].
    destruct (Z.ltb_spec ch2 160), (Z.eqb_spec ch 224), (Z.eqb_spec ch 237);
      try reflexivity; lia.
  - destruct (Z.ltb_spec ch 245); [|lia].
    replace (if ch2 <? 144 then ch =? 240 else ch =? 244) with false;
      [reflexivity|].
    destruct (Z.ltb_spec ch2 144), (Z.eqb_spec ch 240), (Z.eqb_spec ch 244);
      try reflexivity; lia.
Qed.

Lemma utf8_decode_cut_3 ch ch2 ch3 :
  0xF0 <= ch < 0xF5 -> 0x80 <= ch2 < 0xC0 -> 0x80 <= ch3 < 0xC0 ->
  (ch = 0xF0 -> 0x90 <= ch2) -> (ch = 0xF4 -> ch2 < 0x90) ->
  utf8_decode_ignore [ch; ch2; ch3] = [].
Proof.
  intros H H2 H3 HF0 HF4. cbn [utf8_decode_ignore].
  destruct (Z.ltb_spec ch 128); [lia|].
  destruct (Z.ltb_spec ch 194); [lia|].
  destruct (Z.ltb_spec ch 224); [lia|].
  destruct (Z.ltb_spec ch 240); [lia|].
  destruct (Z.ltb_spec ch 245); [|lia].
  rewrite !is_continuation_true by assumption. cbn [negb orb].
  replace (if ch2 <? 144 then ch =? 240 else ch =? 244) with false;
    [reflexivity|].
  destruct (Z.ltb_spec ch2 144), (Z.eqb_spec ch 240), (Z.eqb_spec ch 244);
    try reflexivity; lia.
Qed.

(** A character cut short decodes to nothing. *)
Lemma utf8_char_cut c bs (k : nat) :
  is_code_point c -> utf8_encode_char c = Ok bs -> (k < length bs)%nat ->
  utf8_decode_ignore (take k bs) = [].
Proof.
  intros Hc. rewrite (utf8_encode_char_arith c Hc). destruct Hc as [Hlo Hhi].
  destruct (Z.ltb_spec c 128).
  { intros [= <-] Hk. destruct k; [reflexivity | simpl in Hk; lia]. }
  destruct (Z.ltb_spec c 2048).
  { intros [= <-] Hk. destruct k as [|[|k]]; [reflexivity | | simpl in Hk; lia].
    cbn [take]. apply utf8_decode_cut_1. Z.div_mod_to_equations; lia. }
  destruct ((0xD800 <=? c) && (c <=? 0xDFFF)) eqn:Esur; [discriminate|].
  assert (Hns : ~ (0xD800 <= c <= 0xDFFF)).
  { intros [A B]. apply Z.leb_le in A, B. rewrite A, B in Esur. discriminate. }
  destruct (Z.ltb_spec c 65536).
  - intros [= <-] Hk.
    destruct k as [|[|[|k]]]; [reflexivity | | | simpl in Hk; lia]; cbn [take].
    + apply utf8_decode_cut_1. Z.div_mod_to_equations; lia.
    + apply utf8_decode_cut_2; Z.div_mod_to_equations; lia.
  - intros [= <-] Hk.
    destruct k as [|[|[|[|k]]]]; [reflexivity | | | | simpl in Hk; lia];
      cbn [take].
    + apply utf8_decode_cut_1. Z.div_mod_to_equations; lia.
    + apply utf8_decode_cut_2; Z.div_mod_to_equations; lia.
    + apply utf8_decode_cut_3; Z.div_mod_to_equations; lia.
Qed.

Lemma before_nul_no_nul bs : no_nul bs -> before_nul bs = bs.
Proof.
  induction 1 as [|b bs Hb _ IH]; [reflexivity|].
  cbn [before_nul]. destruct (Z.eqb_spec b 0); [contradiction|].
  rewrite IH. reflexivity.
Qed.

Lemma before_nul_app_no_nul bs rest :
  no_nul bs -> before_nul (bs ++ rest) = bs ++ before_nul rest.
Proof.
  induction 1 as [|b bs Hb _ IH]; [reflexivity|].
  cbn [app before_nul]. destruct (Z.eqb_spec b 0); [contradiction|].
  rewrite IH. reflexivity.
Qed.

Lemma utf8_encode_char_nonempty c bs :
  utf8_encode_char c = Ok bs -> bs <> [].
Proof.
  unfold utf8_encode_char.
  repeat match goal with
         | |- context [if ?b then _ else _] => destruct b
         end; intros [= <-]; discriminate.
Qed.

(** Whatever is cut off the end of an encoded string, before or after
    cutting at the first NUL, what is left decodes to a prefix of the
    string. *)
Lemma utf8_cut_decodes_to_prefix s :
  str_ok s ->
  forall enc (k : nat),
    utf8_encode s = Ok enc ->
    exists j : nat, utf8_decode_ignore (before_nul (take k enc)) = take j s.
Proof.
  induction 1 as [|c s Hc Hs IH]; intros enc k.
  - intros [= <-]. exists 0%nat. rewrite take_nil. reflexivity.
  - intros H. apply utf8_encode_cons in H as (b1 & b2 & H1 & H2 & ->).
    destruct (Z.eq_dec c 0) as [->|Hnz].
    + injection H1 as <-. exists 0%nat. destruct k; reflexivity.
    + destruct (utf8_char_round_trip c b1 [] Hc H1) as (_ & _ & N1).
      specialize (N1 Hnz).
      destruct (decide (k < length b1)%nat) as [Hlt|Hge].
      * exists 0%nat. rewrite take_app_le by lia.
        rewrite before_nul_no_nul by (apply Forall_take, N1).
        apply (utf8_char_cut c b1 k Hc H1 Hlt).
      * destruct (IH b2 (k - length b1)%nat H2) as [j Hj].
        exists (S j). rewrite take_app_ge by lia.
        rewrite before_nul_app_no_nul by exact N1.
        destruct (utf8_char_round_trip c b1
                    (before_nul (take (k - length b1) b2)) Hc H1) as (D & _ & _).
        rewrite D, Hj. reflexivity.
Qed.

(** X14: a name too long for its field, or with a NUL inside, is cut, not
    garbled.  For every name that can be encoded, the name read back from
    the entry written for it is a prefix of the name: the cut after 63
    bytes may fall inside a character, and the reader drops what is left
    of that character. *)
Theorem name_is_read_back_as_prefix (f : PackDat.FileEntry) :
  encodable (PackDat.name f) ->
  0 <= PackDat.offset f < 2 ^ 32 ->
  Z.of_nat (length (PackDat.data f)) < 2 ^ 32 ->
  exists ent (j : nat),
    PackDat.index_entry f = Ok ent
    /\ ExtractDat.name (ExtractDat.parse_entry ent 0) = take j (PackDat.name f).
Proof.
  intros Henc Hoff Hsize.
  assert (Hp : packable f) by (split; [exact Henc | split; assumption]).
  destruct Henc as (Hs & enc & Henc).
  destruct (utf8_cut_decodes_to_prefix _ Hs enc 63 Henc) as [j Hj].
  exists (slot f), j. split; [apply index_entry_packable, Hp|].
  rewrite (parse_entry_packable f Hp). cbn [entry_read ExtractDat.name].
  unfold name_read_back. rewrite Henc. exact Hj.
Qed.

Lemma name_is_read_back_as_prefix_witness :
  exists ent (j : nat),
    PackDat.index_entry euro_name_entry = Ok ent
    /\ ExtractDat.name (ExtractDat.parse_entry ent 0)
       = take j (PackDat.name euro_name_entry).
Proof.
  apply (name_is_read_back_as_prefix euro_name_entry).
  - split.
    + apply Forall_app_2; [apply Forall_replicate | repeat constructor];
        unfold is_code_point; lia.
    + eexists. vm_compute. reflexivity.
  - simpl. lia.
  - simpl. lia.
Defined.

(** * The [.pak] tools *)

Section Pak.
Import PyFile.

(** ** The state monad *)

Lemma st_bind_returns {S A B} (m : St S A) (k : A -> St S B) s a s' :
  m s = (Returns a, s') -> (m ≫= k) s = k a s'.
Proof. intros H. unfold mbind, St_bind. rewrite H. reflexivity. Qed.

Lemma st_bind_raises {S A B} (m : St S A) (k : A -> St S B) s e s' :
  m s = (Raises e, s') -> (m ≫= k) s = (Raises e, s').
Proof. intros H. unfold mbind, St_bind. rewrite H. reflexivity. Qed.

(** ** Reading the header *)

Lemma length_take_drop_ge {A} (l : list A) (k p : nat) :
  (p + k <= length l)%nat -> length (take k (drop p l)) = k.
Proof. intros H. rewrite length_take, length_drop. lia. Qed.

Lemma length_take_drop_lt {A} (l : list A) (k p : nat) :
  (0 < k)%nat -> (length l < p + k)%nat ->
  (length (take k (drop p l)) < k)%nat.
Proof. intros Hk H. rewrite length_take, length_drop. lia. Qed.

Lemma read_4_ok file pos :
  0 <= pos -> pos + 4 <= Z.of_nat (length file) ->
  (bs ← read file 4; lift (unpack_u32 bs)) pos
  = (Returns (u32_at file pos), pos + 4).
Proof.
  intros H0 H. unfold read, lift, mbind, St_bind, unpack_u32, u32_at.
  cbn [Z.ltb Z.compare]. change (Z.to_nat 4) with 4%nat.
  rewrite length_take_drop_ge by lia. reflexivity.
Qed.

Lemma read_4_short file pos :
  0 <= pos -> Z.of_nat (length file) < pos + 4 ->
  exists pos', (bs ← read file 4; lift (unpack_u32 bs)) pos
               = (Raises StructError, pos').
Proof.
  intros H0 H. unfold read, lift, mbind, St_bind, unpack_u32.
  cbn [Z.ltb Z.compare]. change (Z.to_nat 4) with 4%nat.
  pose proof (length_take_drop_lt file 4 (Z.to_nat pos) ltac:(lia) ltac:(lia)) as L.
  destruct (Nat.eqb_spec (length (take 4 (drop (Z.to_nat pos) file))) 4);
    [lia|].
  eexists. reflexivity.
Qed.

Lemma read_offsets_step file n pos :
  ExtractPak.read_offsets file (S n) pos
  = (off ← (bs ← read file 4; lift (unpack_u32 bs));
     rest ← ExtractPak.read_offsets file n;
     mret (off :: rest)) pos.
Proof.
  cbn [ExtractPak.read_offsets]. unfold mbind, St_bind.
  destruct (read file 4 pos) as [[bs|e] pos']; reflexivity.
Qed.

Lemma read_offsets_ok file n pos :
  0 <= pos -> pos + 4 * Z.of_nat n <= Z.of_nat (length file) ->
  ExtractPak.read_offsets file n pos
  = (Returns (map (fun i => u32_at file (pos + 4 * Z.of_nat i)) (seq 0 n)),
     pos + 4 * Z.of_nat n).
Proof.
  revert pos. induction n as [|n IH]; intros pos H0 H.
  - cbn. f_equal. lia.
  - rewrite read_offsets_step.
    rewrite (st_bind_returns _ _ _ _ _ (read_4_ok file pos H0 ltac:(lia))).
    rewrite (st_bind_returns _ _ _ _ _ (IH (pos + 4) ltac:(lia) ltac:(lia))).
    cbn [seq map]. unfold mret, St_ret. f_equal; [|lia].
    f_equal. f_equal; [f_equal; lia|].
    rewrite <- seq_shift, map_map. apply map_ext. intros i. f_equal. lia.
Qed.

Lemma read_offsets_short file n pos :
  0 <= pos <= Z.of_nat (length file) ->
  Z.of_nat (length file) < pos + 4 * Z.of_nat n ->
  exists pos', ExtractPak.read_offsets file n pos = (Raises StructError, pos').
Proof.
  revert pos. induction n as [|n IH]; intros pos H0 H; [lia|].
  rewrite read_offsets_step.
  destruct (Z_lt_le_dec (Z.of_nat (length file)) (pos + 4)) as [Hs|Hl].
  - destruct (read_4_short file pos ltac:(lia) Hs) as [pos' E].
    exists pos'. apply st_bind_raises, E.
  - rewrite (st_bind_returns _ _ _ _ _ (read_4_ok file pos ltac:(lia) Hl)).
    destruct (IH (pos + 4) ltac:(lia) ltac:(lia)) as [pos' E].
    exists pos'. apply st_bind_raises, E.
Qed.

(** ** Building the entries *)

Lemma item_drop offsets (a : nat) x rest :
  drop a offsets = x :: rest -> item offsets (Z.of_nat a) = Returns x.
Proof.
  intros H. unfold item. rewrite Nat2Z.id.
  rewrite <- (Nat.add_0_r a), <- lookup_drop, H. reflexivity.
Qed.

Lemma nondecreasing_cons a b l :
  nondecreasing (a :: b :: l) = (a <=? b) && nondecreasing (b :: l).
Proof. reflexivity. Qed.

Lemma tile_cons a b l :
  tile (a :: b :: l)
  = {| ExtractPak.offset := a; ExtractPak.size := b - a |} :: tile (b :: l).
Proof. reflexivity. Qed.

Lemma build_entries_drop offsets (k a : nat) :
  length offsets = (a + k + 1)%nat ->
  ExtractPak.build_entries offsets (map Z.of_nat (seq a k))
  = if nondecreasing (drop a offsets) then Returns (tile (drop a offsets))
    else Raises ValueError.
Proof.
  revert a. induction k as [|k IH]; intros a L.
  - assert (Ld : length (drop a offsets) = 1%nat) by (rewrite length_drop; lia).
    destruct (drop a offsets) as [|x [|y r]]; try discriminate. reflexivity.
  - assert (Ld : length (drop a offsets) = S (S k))
      by (rewrite length_drop; lia).
    destruct (drop a offsets) as [|x [|y r]] eqn:E; try discriminate.
    assert (E' : drop (S a) offsets = y :: r).
    { rewrite <- (Nat.add_1_l a), Nat.add_comm, <- drop_drop, E. reflexivity. }
    cbn [seq map ExtractPak.build_entries].
    rewrite (item_drop _ _ _ _ E).
    replace (Z.of_nat a + 1) with (Z.of_nat (S a)) by lia.
    rewrite (item_drop _ _ _ _ E').
    unfold mbind at 1 2. unfold outcome_bind.
    rewrite IH by lia. rewrite E', nondecreasing_cons, tile_cons.
    destruct (Z.ltb_spec (y - x) 0), (Z.leb_spec x y); try lia;
      [reflexivity|].
    cbn [andb]. destruct (nondecreasing (y :: r)); reflexivity.
Qed.

(** ** What [parse_index] computes *)

Lemma length_pak_offsets file :
  length (pak_offsets file) = S (Z.to_nat (pak_count file)).
Proof.
  unfold pak_offsets. rewrite length_app, length_map, length_seq.
  simpl. lia.
Qed.

Lemma parse_index_unfold file :
  ExtractPak.parse_index file 0
  = (if (length (take 4 file) <? 4)%nat then raise ValueError
     else
       file_count ← lift (unpack_u32 (take 4 file));
       if (file_count <=? 0) || (100000 <? file_count) then raise ValueError
       else
         offsets ← ExtractPak.read_offsets file (Z.to_nat file_count);
         lift (ExtractPak.build_entries (offsets ++ [getsize file])
                 (range file_count)))
      (Z.of_nat (length (take 4 file))).
Proof. reflexivity. Qed.

Lemma parse_index_too_small file :
  Z.of_nat (length file) < 4 ->
  fst (ExtractPak.parse_index file 0) = Raises ValueError.
Proof.
  intros H. rewrite parse_index_unfold.
  destruct (Nat.ltb_spec (length (take 4 file)) 4) as [_|L]; [reflexivity|].
  rewrite length_take in L. lia.
Qed.

Lemma parse_index_header file :
  4 <= Z.of_nat (length file) ->
  ExtractPak.parse_index file 0
  = (if (pak_count file <=? 0) || (100000 <? pak_count file)
     then raise ValueError
     else
       offsets ← ExtractPak.read_offsets file (Z.to_nat (pak_count file));
       lift (ExtractPak.build_entries (offsets ++ [getsize file])
               (range (pak_count file)))) 4.
Proof.
  intros H. rewrite parse_index_unfold.
  assert (L : length (take 4 file) = 4%nat) by (rewrite length_take; lia).
  rewrite L. change (4 <? 4)%nat with false. cbv iota.
  unfold lift at 1, unpack_u32. rewrite L. change (4 =? 4)%nat with true.
  cbv iota. reflexivity.
Qed.

Lemma parse_index_bad_count file :
  4 <= Z.of_nat (length file) ->
  ~ 1 <= pak_count file <= 100000 ->
  fst (ExtractPak.parse_index file 0) = Raises ValueError.
Proof.
  intros H Hc. rewrite parse_index_header by exact H.
  destruct (Z.leb_spec (pak_count file) 0), (Z.ltb_spec 100000 (pak_count file));
    try reflexivity; lia.
Qed.

Lemma parse_index_truncated file :
  pak_truncated file ->
  fst (ExtractPak.parse_index file 0) = Raises StructError.
Proof.
  intros (H & Hc & Hs). rewrite parse_index_header by exact H.
  destruct (Z.leb_spec (pak_count file) 0), (Z.ltb_spec 100000 (pak_count file));
    try lia.
  cbn [orb].
  destruct (read_offsets_short file (Z.to_nat (pak_count file)) 4
              ltac:(lia) ltac:(lia)) as [pos' E].
  rewrite (st_bind_raises _ _ _ _ _ E). reflexivity.
Qed.

Lemma parse_index_complete file :
  4 <= Z.of_nat (length file) ->
  1 <= pak_count file <= 100000 ->
  4 + 4 * pak_count file <= Z.of_nat (length file) ->
  ExtractPak.parse_index file 0
  = (if nondecreasing (pak_offsets file)
     then Returns (tile (pak_offsets file)) else Raises ValueError,
     4 + 4 * pak_count file).
Proof.
  intros H Hc Hs. rewrite parse_index_header by exact H.
  destruct (Z.leb_spec (pak_count file) 0), (Z.ltb_spec 100000 (pak_count file));
    try lia.
  cbn [orb].
  rewrite (st_bind_returns _ _ _ _ _
             (read_offsets_ok file (Z.to_nat (pak_count file)) 4
                ltac:(lia) ltac:(lia))).
  unfold lift, range, getsize.
  change (map _ (seq 0 (Z.to_nat (pak_count file))) ++ _)
    with (pak_offsets file).
  rewrite (build_entries_drop _ (Z.to_nat (pak_count file)) 0)
    by (rewrite length_pak_offsets; lia).
  rewrite drop_0. f_equal. lia.
Qed.

Lemma parse_index_cases file :
  (~ pak_accepted file /\ ~ pak_truncated file
   /\ fst (ExtractPak.parse_index file 0) = Raises ValueError)
  \/ (pak_truncated file /\ ~ pak_accepted file
      /\ fst (ExtractPak.parse_index file 0) = Raises StructError)
  \/ (pak_accepted file /\ ~ pak_truncated file
      /\ ExtractPak.parse_index file 0
         = (Returns (tile (pak_offsets file)), 4 + 4 * pak_count file)).
Proof.
  unfold pak_accepted, pak_truncated.
  destruct (Z_lt_le_dec (Z.of_nat (length file)) 4) as [H|H].
  { left. rewrite (parse_index_too_small file H). repeat split; lia. }
  destruct (Z_le_dec 1 (pak_count file)) as [H1|H1];
    [destruct (Z_le_dec (pak_count file) 100000) as [H2|H2]|].
  2,3: left; rewrite (parse_index_bad_count file H ltac:(lia));
       repeat split; lia.
  destruct (Z_lt_le_dec (Z.of_nat (length file)) (4 + 4 * pak_count file))
    as [Hs|Hs].
  { right; left.
    rewrite (parse_index_truncated file ltac:(unfold pak_truncated; lia)).
    repeat split; lia. }
  rewrite (parse_index_complete file H ltac:(lia) Hs). cbn [fst].
  destruct (nondecreasing (pak_offsets file)).
  - right; right. repeat split; lia.
  - left. repeat split; first [lia | intros (_ & _ & _ & ?); discriminate].
Qed.

(** X15: which archives [parse_index] accepts and how it fails on the
    others.  It returns exactly when the file holds its header, the count
    is between 1 and 100000, all the offsets announced are there, and the
    offsets followed by the size of the file never decrease.  It raises
    [struct.error] exactly when the header announces more offsets than the
    file holds, [ValueError] in the other cases, and nothing else. *)
Theorem parse_index_outcome (file : list Z) :
  ((exists entries, fst (ExtractPak.parse_index file 0) = Returns entries)
   <-> pak_accepted file)
  /\ (fst (ExtractPak.parse_index file 0) = Raises StructError
      <-> pak_truncated file)
  /\ (fst (ExtractPak.parse_index file 0) = Raises ValueError
      <-> ~ pak_accepted file /\ ~ pak_truncated file)
  /\ fst (ExtractPak.parse_index file 0) <> Raises IndexError
  /\ fst (ExtractPak.parse_index file 0) <> Raises RuntimeError.
Proof.
  destruct (parse_index_cases file)
    as [(A & T & E) | [(T & A & E) | (A & T & E)]]; rewrite E; cbn [fst];
    repeat match goal with
           | |- _ /\ _ => split
           | |- _ <-> _ => split
           end;
    try discriminate; try tauto;
    try (intros [? ?]; discriminate); try (intros ?; discriminate).
  eexists; reflexivity.
Qed.


(** ** The entries of an accepted archive *)

Lemma u32_at_range file p : bytes_ok file -> 0 <= u32_at file p < 2 ^ 32.
Proof.
  intros H. unfold u32_at.
  assert (B : bytes_ok (take 4 (drop (Z.to_nat p) file)))
    by (apply Forall_take, Forall_drop, H).
  pose proof (from_bytes_little_range _ B) as R.
  assert (L : (length (take 4 (drop (Z.to_nat p) file)) <= 4)%nat)
    by (rewrite length_take; lia).
  assert (256 ^ Z.of_nat (length (take 4 (drop (Z.to_nat p) file)))
          <= 256 ^ 4) by (apply Z.pow_le_mono_r; lia).
  change (256 ^ 4) with (2 ^ 32) in *. lia.
Qed.

Lemma pak_offsets_nonneg file :
  bytes_ok file -> Forall (fun a => 0 <= a) (pak_offsets file).
Proof.
  intros H. unfold pak_offsets. apply Forall_app_2.
  - apply Forall_map, Forall_true. intros i. cbn.
    pose proof (u32_at_range file (4 + 4 * Z.of_nat i) H). lia.
  - repeat constructor. lia.
Qed.

Lemma length_tile l : length (tile l) = pred (length l).
Proof.
  induction l as [|a [|b l] IH]; [reflexivity..|].
  rewrite tile_cons. cbn [length] in *. rewrite IH. reflexivity.
Qed.

(** The last offset bounds the others. *)
Lemma nondecreasing_le_last l z :
  nondecreasing l = true -> last l = Some z -> Forall (fun a => a <= z) l.
Proof.
  induction l as [|a [|b l] IH]; intros N E.
  - constructor.
  - injection E as <-. repeat constructor. lia.
  - rewrite nondecreasing_cons in N. apply andb_prop in N as [N1 N2].
    apply Z.leb_le in N1.
    specialize (IH N2 E). constructor; [|exact IH].
    inversion IH; subst. lia.
Qed.

Lemma tile_props l z :
  nondecreasing l = true -> last l = Some z -> Forall (fun a => 0 <= a) l ->
  Forall (fun e => 0 <= ExtractPak.offset e /\ 0 <= ExtractPak.size e
                   /\ ExtractPak.offset e + ExtractPak.size e <= z) (tile l).
Proof.
  induction l as [|a [|b l] IH]; intros N E P; [constructor..|].
  pose proof (nondecreasing_le_last _ _ N E) as B.
  rewrite nondecreasing_cons in N. apply andb_prop in N as [N1 N2].
  apply Z.leb_le in N1. rewrite tile_cons.
  inversion P; subst. inversion B as [|? ? _ B']; subst.
  inversion B'; subst.
  constructor; [cbn; lia|]. apply IH; assumption.
Qed.

Lemma tile_contiguous l i e e' :
  tile l !! i = Some e -> tile l !! S i = Some e' ->
  ExtractPak.offset e' = ExtractPak.offset e + ExtractPak.size e.
Proof.
  revert i. induction l as [|a [|b l] IH]; intros i; try discriminate.
  rewrite tile_cons. destruct i as [|i].
  - intros [= <-]. cbn [lookup list_lookup].
    destruct l as [|c l]; [discriminate|]. rewrite tile_cons.
    intros [= <-]. cbn. lia.
  - cbn [lookup list_lookup]. apply IH.
Qed.

Lemma tile_last l z :
  (2 <= length l)%nat -> last l = Some z ->
  exists e, last (tile l) = Some e
            /\ ExtractPak.offset e + ExtractPak.size e = z.
Proof.
  induction l as [|a [|b l] IH]; intros L E; cbn [length] in L; try lia.
  rewrite tile_cons. destruct l as [|c l].
  - injection E as <-. eexists. split; [reflexivity|]. cbn. lia.
  - destruct (IH ltac:(cbn [length]; lia) E) as (e & E1 & E2).
    exists e. split; [|exact E2].
    rewrite tile_cons in *. exact E1.
Qed.

Lemma last_pak_offsets file :
  last (pak_offsets file) = Some (Z.of_nat (length file)).
Proof. unfold pak_offsets. apply last_snoc. Qed.

Lemma parse_index_returns file entries pos :
  ExtractPak.parse_index file 0 = (Returns entries, pos) ->
  pak_accepted file /\ entries = tile (pak_offsets file).
Proof.
  intros E.
  destruct (parse_index_cases file)
    as [(_ & _ & E') | [(_ & _ & E') | (A & _ & E')]];
    rewrite E in E'; try discriminate.
  injection E' as -> _. split; [exact A | reflexivity].
Qed.

(** X16: the entries of an accepted archive.  Whenever [parse_index]
    returns, there are as many entries as the header counts, each lies
    inside the file, each starts where the one before ends, and the last
    ends at the end of the file. *)
Theorem accepted_entries_are_contiguous (file : list Z)
    (entries : list ExtractPak.Entry) (pos : Z) :
  bytes_ok file ->
  ExtractPak.parse_index file 0 = (Returns entries, pos) ->
  Z.of_nat (length entries) = pak_count file
  /\ Forall (fun e => 0 <= ExtractPak.offset e /\ 0 <= ExtractPak.size e
                      /\ ExtractPak.offset e + ExtractPak.size e
                         <= Z.of_nat (length file)) entries
  /\ (forall i e e',
        entries !! i = Some e -> entries !! S i = Some e' ->
        ExtractPak.offset e' = ExtractPak.offset e + ExtractPak.size e)
  /\ (exists e, last entries = Some e
                /\ ExtractPak.offset e + ExtractPak.size e
                   = Z.of_nat (length file)).
Proof.
  intros B E. apply parse_index_returns in E as ((H & Hc & Hs & N) & ->).
  split; [|split; [|split]].
  - rewrite length_tile, length_pak_offsets. cbn [pred]. lia.
  - apply (tile_props _ _ N (last_pak_offsets file)), pak_offsets_nonneg, B.
  - apply tile_contiguous.
  - apply tile_last; [|apply last_pak_offsets].
    rewrite length_pak_offsets. lia.
Qed.

Lemma accepted_entries_are_contiguous_witness :
  Z.of_nat (length (tile (pak_offsets small_pak))) = pak_count small_pak
  /\ Forall (fun e => 0 <= ExtractPak.offset e /\ 0 <= ExtractPak.size e
                      /\ ExtractPak.offset e + ExtractPak.size e
                         <= Z.of_nat (length small_pak))
            (tile (pak_offsets small_pak))
  /\ (forall i e e',
        tile (pak_offsets small_pak) !! i = Some e ->
        tile (pak_offsets small_pak) !! S i = Some e' ->
        ExtractPak.offset e' = ExtractPak.offset e + ExtractPak.size e)
  /\ (exists e, last (tile (pak_offsets small_pak)) = Some e
                /\ ExtractPak.offset e + ExtractPak.size e
                   = Z.of_nat (length small_pak)).
Proof.
  apply (accepted_entries_are_contiguous small_pak _ 12).
  - unfold small_pak. repeat constructor; unfold is_byte; lia.
  - vm_compute. reflexivity.
Defined.

(** ** Extraction *)

Lemma unpack_from_u16_raises data offset e :
  unpack_from_u16 data offset = Raises e -> e = StructError.
Proof.
  unfold unpack_from_u16.
  repeat match goal with
         | |- context [if ?b then _ else _] => destruct b
         end; intros [=]; congruence.
Qed.

Lemma is_xma2_wave_returns data :
  ExtractPak.is_xma2_wave data = Returns (xma2 data).
Proof.
  unfold xma2. unfold ExtractPak.is_xma2_wave.
  destruct (negb _); [reflexivity|].
  destruct (_ =? -1); [reflexivity|].
  destruct (unpack_from_u16 _ _) as [v|e] eqn:E; [reflexivity|].
  apply unpack_from_u16_raises in E as ->. reflexivity.
Qed.

Lemma extract_entries_cons lower {FS} `{!OutDir FS} file pak_name base_name
    i e entries p (fs : FS) w :
  0 <= ExtractPak.size e ->
  ExtractPak.extract_entries lower file pak_name base_name i (e :: entries)
    (p, (fs, w))
  = match write_out (out_name lower pak_name base_name i (entry_bytes file e))
            (entry_bytes file e) fs with
    | (Returns _, fs') =>
        ExtractPak.extract_entries lower file pak_name base_name (i + 1)
          entries
          (ExtractPak.offset e + Z.of_nat (length (entry_bytes file e)),
           (fs', w ++ [(out_name lower pak_name base_name i
                          (entry_bytes file e), entry_bytes file e)]))
    | (Raises ex, fs') =>
        (Raises ex,
         (ExtractPak.offset e + Z.of_nat (length (entry_bytes file e)),
          (fs', w)))
    end.
Proof.
  intros Hs. cbn [ExtractPak.extract_entries].
  unfold mbind at 1 2, St_bind at 1 2, ExtractPak.on_file at 1 2, seek, read.
  cbn [fst snd]. destruct (Z.ltb_spec (ExtractPak.size e) 0); [lia|].
  fold (entry_bytes file e).
  rewrite is_xma2_wave_returns.
  assert (X : forall b : bool,
            lift (S := @ExtractPak.State FS) (if b then Returns (xma2 (entry_bytes file e))
                  else Returns false)
            = lift (Returns (b && xma2 (entry_bytes file e)))).
  { intros []; reflexivity. }
  rewrite X. unfold mbind, St_bind, lift at 1, ExtractPak.write_file.
  cbn [fst snd]. fold (extension lower pak_name (entry_bytes file e)).
  fold (out_name lower pak_name base_name i (entry_bytes file e)).
  destruct (write_out _ _ fs) as [[[]|ex] fs']; reflexivity.
Qed.

Lemma extract_entries_run lower {FS} `{!OutDir FS} file pak_name base_name
    entries :
  Forall (fun e => 0 <= ExtractPak.size e) entries ->
  forall i p (fs : FS) w,
  exists p',
    ExtractPak.extract_entries lower file pak_name base_name i entries
      (p, (fs, w))
    = (fst (write_all (outputs lower file pak_name base_name i entries) fs w),
       (p',
        snd (write_all (outputs lower file pak_name base_name i entries)
               fs w))).
Proof.
  induction 1 as [|e entries He _ IH]; intros i p fs w.
  - exists p. reflexivity.
  - rewrite extract_entries_cons by exact He. cbn [outputs write_all].
    destruct (write_out _ _ fs) as [[[]|ex] fs'].
    + apply IH.
    + eexists. reflexivity.
Qed.

(** What [extract_pak] does on an archive that [parse_index] accepts:
    the output directory is made, and the entries are written. *)
Lemma extract_pak_returns lower {FS} `{!OutDir FS} file pak_name base_name
    entries pos (fs : FS) :
  ExtractPak.parse_index file 0 = (Returns entries, pos) ->
  Forall (fun e => 0 <= ExtractPak.size e) entries ->
  ExtractPak.extract_pak lower file pak_name base_name fs
  = match makedirs fs with
    | (Raises e, fs') => (Raises e, (fs', []))
    | (Returns _, fs') =>
        write_all (outputs lower file pak_name base_name 0 entries) fs' []
    end.
Proof.
  intros E Hs. unfold ExtractPak.extract_pak.
  destruct (makedirs fs) as [[[]|e] fs']; [|reflexivity].
  unfold mbind, St_bind, ExtractPak.on_file at 1. cbn [fst snd]. rewrite E.
  destruct (extract_entries_run lower file pak_name base_name entries Hs
              0 pos fs' []) as [p' R].
  match goal with
  | |- (let '(r, s) := ?X in _) = _ =>
      assert (EX : X = (fst (write_all
                               (outputs lower file pak_name base_name 0 entries)
                               fs' []),
                        (p', snd (write_all
                                    (outputs lower file pak_name base_name 0
                                       entries) fs' []))))
        by exact R;
      rewrite EX
  end.
  cbn [snd]. destruct (write_all _ fs' []) as [r s']. reflexivity.
Qed.

Lemma extract_pak_raises lower {FS} `{!OutDir FS} file pak_name base_name e
    (fs : FS) :
  fst (ExtractPak.parse_index file 0) = Raises e ->
  snd (snd (ExtractPak.extract_pak lower file pak_name base_name fs)) = [].
Proof.
  intros E. unfold ExtractPak.extract_pak.
  destruct (makedirs fs) as [[[]|e'] fs']; [|reflexivity].
  unfold mbind, St_bind, ExtractPak.on_file at 1. cbn [fst snd].
  destruct (ExtractPak.parse_index file 0) as [r pos]. cbn [fst] in E.
  subst r. reflexivity.
Qed.

(** The files written are the first of the files handed over, and all of
    them when nothing was raised. *)
Lemma write_all_written {FS} `{!OutDir FS} files :
  forall (fs : FS) w,
  exists k : nat,
    snd (snd (write_all files fs w)) = w ++ take k files
    /\ (fst (write_all files fs w) = Returns tt -> take k files = files).
Proof.
  induction files as [|[n d] files IH]; intros fs w.
  - exists 0%nat. cbn. rewrite app_nil_r. split; reflexivity.
  - cbn [write_all]. destruct (write_out n d fs) as [[[]|ex] fs'].
    + destruct (IH fs' (w ++ [(n, d)])) as (k & E & R).
      exists (S k). rewrite E, <- app_assoc. split; [reflexivity|].
      intros T. cbn [take]. rewrite (R T). reflexivity.
    + exists 0%nat. cbn. rewrite app_nil_r. split; [reflexivity|discriminate].
Qed.

Lemma map_snd_outputs lower file pak_name base_name i entries :
  map snd (outputs lower file pak_name base_name i entries)
  = map (entry_bytes file) entries.
Proof.
  revert i. induction entries as [|e entries IH]; intros i; [reflexivity|].
  cbn [outputs map snd]. rewrite IH. reflexivity.
Qed.

Lemma tile_sizes_nonneg l :
  nondecreasing l = true ->
  Forall (fun e => 0 <= ExtractPak.size e) (tile l).
Proof.
  induction l as [|a [|b l] IH]; intros N; [constructor..|].
  rewrite nondecreasing_cons in N. apply andb_prop in N as [N1 N2].
  apply Z.leb_le in N1. rewrite tile_cons.
  constructor; [cbn; lia | apply IH, N2].
Qed.

(** The entries between the offsets cut the file from the first offset
    on, when the last offset is the size of the file. *)
Lemma concat_tile file l a :
  nondecreasing l = true -> Forall (fun a => 0 <= a) l ->
  last l = Some (Z.of_nat (length file)) -> head l = Some a ->
  concat (map (entry_bytes file) (tile l)) = drop (Z.to_nat a) file.
Proof.
  revert a. induction l as [|a0 [|b l] IH]; intros a N P E Hd;
    try discriminate.
  - injection E as E. injection Hd as <-. cbn.
    rewrite drop_ge by lia. reflexivity.
  - injection Hd as <-.
    rewrite nondecreasing_cons in N. apply andb_prop in N as [N1 N2].
    apply Z.leb_le in N1. inversion P as [|? ? P0 P']; subst.
    rewrite tile_cons. cbn [map concat].
    rewrite (IH b N2 P' E eq_refl).
    unfold entry_bytes. cbn [ExtractPak.offset ExtractPak.size].
    replace (Z.to_nat b) with (Z.to_nat a0 + Z.to_nat (b - a0))%nat by lia.
    rewrite <- drop_drop. apply take_drop.
Qed.

Lemma length_entry_bytes file e :
  0 <= ExtractPak.offset e -> 0 <= ExtractPak.size e ->
  ExtractPak.offset e + ExtractPak.size e <= Z.of_nat (length file) ->
  Z.of_nat (length (entry_bytes file e)) = ExtractPak.size e.
Proof.
  intros. unfold entry_bytes. rewrite length_take, length_drop. lia.
Qed.

Lemma outputs_sizes lower file pak_name base_name entries i :
  Forall (fun e => 0 <= ExtractPak.offset e /\ 0 <= ExtractPak.size e
                   /\ ExtractPak.offset e + ExtractPak.size e
                      <= Z.of_nat (length file)) entries ->
  Forall2 (fun e w => Z.of_nat (length (snd w)) = ExtractPak.size e)
    entries (outputs lower file pak_name base_name i entries).
Proof.
  intros P. revert i.
  induction P as [|e es (P1 & P2 & P3) _ IH]; intros i; cbn [outputs].
  - constructor.
  - constructor; [|apply IH].
    cbn [snd]. apply length_entry_bytes; assumption.
Qed.

Lemma Forall2_take_l {A B} (P : A -> B -> Prop) l1 l2 (k : nat) :
  Forall2 P l1 l2 -> Forall2 P (take k l1) (take k l2).
Proof.
  intros F. revert k. induction F as [|x y l1 l2 Hxy _ IH]; intros k.
  - rewrite !take_nil. constructor.
  - destruct k as [|k]; [constructor|]. cbn [take]. constructor; [exact Hxy|].
    apply IH.
Qed.

(** X17: what [extract_pak] writes from an accepted archive, on any file
    system.  It makes the output directory and hands the file system one
    file for each entry, in order, until the file system refuses one: it
    raises what the file system raises and nothing else.  Each file
    written holds exactly the bytes of its entry, as many as the size of
    the entry; and when nothing is raised, there is a file for each entry
    and the files written, one after the other, are the archive from its
    first offset to its end. *)
Theorem extract_pak_cuts_the_archive (lower : list Z -> list Z)
    (file pak_name base_name : list Z)
    (entries : list ExtractPak.Entry) (pos : Z)
    (FS : Type) (H : OutDir FS) (fs : FS) :
  bytes_ok file ->
  ExtractPak.parse_index file 0 = (Returns entries, pos) ->
  ExtractPak.extract_pak lower file pak_name base_name fs
  = match makedirs fs with
    | (Raises e, fs') => (Raises e, (fs', []))
    | (Returns _, fs') =>
        write_all (outputs lower file pak_name base_name 0 entries) fs' []
    end
  /\ exists k : nat,
       map snd (snd (snd (ExtractPak.extract_pak lower file pak_name
                            base_name fs)))
       = take k (map (entry_bytes file) entries)
       /\ Forall2 (fun e w => Z.of_nat (length (snd w)) = ExtractPak.size e)
            (take k entries)
            (snd (snd (ExtractPak.extract_pak lower file pak_name
                         base_name fs)))
       /\ (fst (ExtractPak.extract_pak lower file pak_name base_name fs)
           = Returns tt ->
           map snd (snd (snd (ExtractPak.extract_pak lower file pak_name
                                base_name fs)))
           = map (entry_bytes file) entries
           /\ concat (map snd (snd (snd (ExtractPak.extract_pak lower file
                                           pak_name base_name fs))))
              = drop (Z.to_nat (u32_at file 4)) file).
Proof.
  intros B E.
  pose proof (parse_index_returns _ _ _ E) as ((H4 & Hc & Hs & N) & ->).
  pose proof (tile_props _ _ N (last_pak_offsets file)
                (pak_offsets_nonneg file B)) as P.
  pose proof (extract_pak_returns lower file pak_name base_name _ _ fs E
                (tile_sizes_nonneg _ N)) as R.
  split; [exact R|]. rewrite R.
  set (files := outputs lower file pak_name base_name 0
                  (tile (pak_offsets file))) in *.
  assert (T : map (entry_bytes file) (tile (pak_offsets file))
              = map snd files) by (symmetry; apply map_snd_outputs).
  assert (C : concat (map snd files) = drop (Z.to_nat (u32_at file 4)) file).
  { rewrite <- T.
    apply (concat_tile file _ _ N (pak_offsets_nonneg file B)
             (last_pak_offsets file)).
    unfold pak_offsets.
    destruct (Z.to_nat (pak_count file)) as [|n] eqn:En; [lia|].
    reflexivity. }
  pose proof (outputs_sizes lower file pak_name base_name _ 0 P) as F.
  fold files in F.
  destruct (makedirs fs) as [[[]|e] fs'].
  - destruct (write_all_written files fs' []) as (k & W & A).
    cbn [app] in W. exists k. rewrite W, T.
    split; [rewrite firstn_map; reflexivity|].
    split; [apply Forall2_take_l, F|].
    intros Hr. rewrite (A Hr). split; [reflexivity | exact C].
  - exists 0%nat. cbn [fst snd map take].
    split; [reflexivity|]. split; [constructor | discriminate].
Qed.

Lemma extract_pak_cuts_the_archive_witness :
  ExtractPak.extract_pak ascii_lower small_pak (str_of "Text.pak")
    (str_of "Text") ([] : tree)
  = match makedirs ([] : tree) with
    | (Raises e, fs') => (Raises e, (fs', []))
    | (Returns _, fs') =>
        write_all (outputs ascii_lower small_pak (str_of "Text.pak")
                     (str_of "Text") 0 (tile (pak_offsets small_pak))) fs' []
    end
  /\ exists k : nat,
       map snd (snd (snd (ExtractPak.extract_pak ascii_lower small_pak
                            (str_of "Text.pak") (str_of "Text") ([] : tree))))
       = take k (map (entry_bytes small_pak) (tile (pak_offsets small_pak)))
       /\ Forall2 (fun e w => Z.of_nat (length (snd w)) = ExtractPak.size e)
            (take k (tile (pak_offsets small_pak)))
            (snd (snd (ExtractPak.extract_pak ascii_lower small_pak
                         (str_of "Text.pak") (str_of "Text") ([] : tree))))
       /\ (fst (ExtractPak.extract_pak ascii_lower small_pak
                  (str_of "Text.pak") (str_of "Text") ([] : tree))
           = Returns tt ->
           map snd (snd (snd (ExtractPak.extract_pak ascii_lower small_pak
                                (str_of "Text.pak") (str_of "Text")
                                ([] : tree))))
           = map (entry_bytes small_pak) (tile (pak_offsets small_pak))
           /\ concat (map snd (snd (snd (ExtractPak.extract_pak ascii_lower
                                           small_pak (str_of "Text.pak")
                                           (str_of "Text") ([] : tree)))))
              = drop (Z.to_nat (u32_at small_pak 4)) small_pak).
Proof.
  apply (extract_pak_cuts_the_archive ascii_lower small_pak
           (str_of "Text.pak") (str_of "Text") _ 12 tree tree_out_dir []).
  - unfold small_pak. repeat constructor; unfold is_byte; lia.
  - vm_compute. reflexivity.
Defined.

(** On the file system of the examples: the two entries of the small
    archive are written into the empty directory; and under a base name of
    255 letters no entry is, as the names of the files are too long. *)
Lemma extract_pak_small_pak :
  ExtractPak.extract_pak ascii_lower small_pak (str_of "Text.pak")
    (str_of "Text") ([] : tree)
  = (Returns tt,
     ([([str_of "Text_0001.txt"], File []);
       ([str_of "Text_0000.txt"], File [1; 2; 3]); ([], Dir)],
      [(str_of "Text_0000.txt", [1; 2; 3]); (str_of "Text_0001.txt", [])]))
  /\ ExtractPak.extract_pak ascii_lower small_pak
       (replicate 255 97 ++ str_of ".pak") (replicate 255 97) ([] : tree)
     = (Raises (OSError 36), ([([], Dir)], [])).
Proof. split; vm_compute; reflexivity. Qed.

(** ** Writing the header *)

Lemma pack_u32_ok v : is_u32 v -> pack_u32 v = Returns (le_digits 4 v).
Proof.
  intros [H1 H2]. unfold pack_u32.
  destruct (Z.leb_spec 0 v), (Z.ltb_spec v (2 ^ 32)); try lia. reflexivity.
Qed.

Lemma pack_u32_overflow v : ~ is_u32 v -> pack_u32 v = Raises StructError.
Proof.
  unfold is_u32, pack_u32. intros H.
  destruct (Z.leb_spec 0 v), (Z.ltb_spec v (2 ^ 32)); try lia; reflexivity.
Qed.

Lemma is_u32_dec v : {is_u32 v} + {~ is_u32 v}.
Proof.
  unfold is_u32.
  destruct (Z_le_dec 0 v), (Z_lt_dec v (2 ^ 32)); (left; lia) || (right; lia).
Qed.

Lemma write_offsets_cons off offsets pak :
  PackPak.write_offsets (off :: offsets) pak
  = match pack_u32 off with
    | Returns bs => PackPak.write_offsets offsets (pak ++ bs)
    | Raises e => (Raises e, pak)
    end.
Proof.
  cbn [PackPak.write_offsets]. unfold mbind, St_bind, lift, write.
  destruct (pack_u32 off); reflexivity.
Qed.

Lemma write_offsets_ok offsets pak :
  Forall is_u32 offsets ->
  PackPak.write_offsets offsets pak
  = (Returns tt, pak ++ concat (map (le_digits 4) offsets)).
Proof.
  intros H. revert pak. induction H as [|off offsets Ho _ IH]; intros pak.
  - cbn. rewrite app_nil_r. reflexivity.
  - rewrite write_offsets_cons, (pack_u32_ok off Ho), IH.
    cbn [map concat]. rewrite <- app_assoc. reflexivity.
Qed.

Lemma write_offsets_overflow offsets pak :
  Exists (fun v => ~ is_u32 v) offsets ->
  exists pak', PackPak.write_offsets offsets pak = (Raises StructError, pak').
Proof.
  intros H. revert pak. induction H as [off offsets Ho|off offsets _ IH];
    intros pak; rewrite write_offsets_cons.
  - rewrite (pack_u32_overflow off Ho). eexists; reflexivity.
  - destruct (is_u32_dec off) as [Ho|Ho].
    + rewrite (pack_u32_ok off Ho). apply IH.
    + rewrite (pack_u32_overflow off Ho). eexists; reflexivity.
Qed.

Lemma write_data_ok file_data pak :
  PackPak.write_data file_data pak = (Returns tt, pak ++ concat file_data).
Proof.
  revert pak. induction file_data as [|d ds IH]; intros pak.
  - cbn. rewrite app_nil_r. reflexivity.
  - cbn [PackPak.write_data]. unfold mbind, St_bind, write at 1.
    rewrite IH. cbn [concat]. rewrite <- app_assoc. reflexivity.
Qed.

(** ** The offsets *)

Lemma prepare_eq all_files current_offset :
  let '(file_data, offsets, end_offset) :=
    PackPak.prepare all_files current_offset in
  file_data = map (fun f => default [] (PackDat.file_bytes f)) all_files
  /\ offsets ++ [end_offset] = offsets_from current_offset file_data.
Proof.
  revert current_offset.
  induction all_files as [|f fs IH]; intros off; [split; reflexivity|].
  cbn [PackPak.prepare].
  specialize (IH (off + Z.of_nat (length (default [] (PackDat.file_bytes f))))).
  destruct (PackPak.prepare fs _) as [[fd offs] e].
  destruct IH as [-> E]. split; [reflexivity|].
  cbn [map offsets_from app]. rewrite E. reflexivity.
Qed.

Lemma length_offsets_from off datas :
  length (offsets_from off datas) = S (length datas).
Proof.
  revert off. induction datas as [|d ds IH]; intros off; [reflexivity|].
  cbn [offsets_from length]. rewrite IH. reflexivity.
Qed.

Lemma last_offsets_from off datas :
  last (offsets_from off datas)
  = Some (off + Z.of_nat (length (concat datas))).
Proof.
  revert off. induction datas as [|d ds IH]; intros off.
  - cbn. f_equal. lia.
  - cbn [offsets_from concat]. rewrite length_app, Nat2Z.inj_add.
    specialize (IH (off + Z.of_nat (length d))).
    destruct (offsets_from (off + Z.of_nat (length d)) ds) eqn:E.
    + pose proof (length_offsets_from (off + Z.of_nat (length d)) ds) as L.
      rewrite E in L. discriminate.
    + cbn [last]. cbn [last] in IH. rewrite IH. f_equal. lia.
Qed.

Lemma nondecreasing_offsets_from off datas :
  nondecreasing (offsets_from off datas) = true.
Proof.
  revert off. induction datas as [|d ds IH]; intros off; [reflexivity|].
  cbn [offsets_from].
  specialize (IH (off + Z.of_nat (length d))).
  destruct ds as [|d' ds]; cbn [offsets_from] in *;
    rewrite nondecreasing_cons, IH, andb_true_r; apply Z.leb_le; lia.
Qed.

Lemma offsets_from_ge off datas :
  Forall (fun a => off <= a) (offsets_from off datas).
Proof.
  revert off. induction datas as [|d ds IH]; intros off; cbn [offsets_from].
  - repeat constructor. lia.
  - constructor; [lia|].
    eapply Forall_impl; [apply (IH (off + Z.of_nat (length d)))|].
    cbn. intros a Ha. lia.
Qed.

Lemma offsets_from_u32 off datas :
  0 <= off -> off + Z.of_nat (length (concat datas)) < 2 ^ 32 ->
  Forall is_u32 (offsets_from off datas).
Proof.
  intros H0 H.
  pose proof (nondecreasing_le_last _ _ (nondecreasing_offsets_from off datas)
                (last_offsets_from off datas)) as U.
  pose proof (offsets_from_ge off datas) as L.
  rewrite List.Forall_forall in *. intros a Ha.
  specialize (U a Ha). specialize (L a Ha). unfold is_u32. lia.
Qed.

Lemma offsets_from_overflow off datas :
  2 ^ 32 <= off + Z.of_nat (length (concat datas)) ->
  Exists (fun v => ~ is_u32 v) (offsets_from off datas).
Proof.
  intros H. apply List.Exists_exists.
  exists (off + Z.of_nat (length (concat datas))). split.
  - pose proof (last_offsets_from off datas) as E.
    apply last_Some in E as [l' ->]. apply in_or_app. right. left. reflexivity.
  - unfold is_u32. lia.
Qed.

(** ** What [pack_pak] computes *)

Lemma length_pak_header datas :
  length (pak_header datas) = (8 + 4 * length datas)%nat.
Proof.
  unfold pak_header. rewrite length_app, length_le_digits.
  assert (L : forall vs, length (concat (map (le_digits 4) vs))
                         = (4 * length vs)%nat).
  { induction vs as [|v vs IH]; [reflexivity|].
    cbn [map concat length]. rewrite length_app, length_le_digits, IH. lia. }
  rewrite L, length_offsets_from. lia.
Qed.

Lemma write_pak_unfold file_count offsets file_data :
  PackPak.write_pak file_count offsets file_data []
  = match pack_u32 file_count with
    | Raises e => (Raises e, [])
    | Returns bs =>
        match PackPak.write_offsets offsets bs with
        | (Raises e, pak) => (Raises e, pak)
        | (Returns _, pak) =>
            let pad_len := PackPak.FIRST_FILE_OFFSET - Z.of_nat (length pak) in
            if pad_len <? 0 then (Raises RuntimeError, pak)
            else
              PackPak.write_data file_data
                (if 0 <? pad_len then pak ++ replicate (Z.to_nat pad_len) 0
                 else pak)
        end
    end.
Proof.
  unfold PackPak.write_pak, mbind, St_bind, lift, write, tell, raise.
  destruct (pack_u32 file_count) as [bs|e]; [|reflexivity].
  cbn [app]. destruct (PackPak.write_offsets offsets bs) as [[[]|e] pak];
    [|reflexivity].
  destruct (_ <? 0); [reflexivity|].
  destruct (0 <? _); reflexivity.
Qed.

Lemma pack_pak_unfold items :
  packed_data items <> [] ->
  PackPak.pack_pak (Some items)
  = let datas := packed_data items in
    let '(r, pak) :=
      PackPak.write_pak (Z.of_nat (length datas)) (offsets_from 2048 datas)
        datas [] in
    (r, Some pak).
Proof.
  unfold packed_data, PackPak.pack_pak. intros H.
  destruct (PackPak.collect_files items) as [|f fs] eqn:E;
    [contradiction H; reflexivity|].
  pose proof (prepare_eq (f :: fs) PackPak.FIRST_FILE_OFFSET) as P.
  destruct (PackPak.prepare (f :: fs) PackPak.FIRST_FILE_OFFSET)
    as [[fd offs] e].
  destruct P as [-> P]. rewrite P. rewrite length_map. reflexivity.
Qed.

Lemma pack_pak_no_files items :
  packed_data items = [] ->
  PackPak.pack_pak (Some items) = (Raises ValueError, None).
Proof.
  unfold packed_data, PackPak.pack_pak. intros H.
  destruct (PackPak.collect_files items); [reflexivity | discriminate].
Qed.

Lemma pack_pak_fits items :
  pak_fits (packed_data items) ->
  PackPak.pack_pak (Some items)
  = (Returns tt, Some (pak_layout (packed_data items))).
Proof.
  intros [Hn Ht].
  rewrite pack_pak_unfold by (intros E; rewrite E in Hn; cbn in Hn; lia).
  cbv zeta. set (datas := packed_data items) in *.
  rewrite write_pak_unfold.
  rewrite pack_u32_ok by (unfold is_u32; lia).
  rewrite write_offsets_ok by (apply offsets_from_u32; lia).
  fold (pak_header datas).
  pose proof (length_pak_header datas) as L.
  unfold PackPak.FIRST_FILE_OFFSET.
  destruct (Z.ltb_spec (2048 - Z.of_nat (length (pak_header datas))) 0);
    [lia|].
  rewrite write_data_ok. unfold pak_layout.
  destruct (Z.ltb_spec 0 (2048 - Z.of_nat (length (pak_header datas)))).
  - rewrite <- app_assoc. do 3 f_equal. f_equal. f_equal. lia.
  - replace (2048 - length (pak_header datas))%nat with 0%nat by lia.
    reflexivity.
Qed.

Lemma pack_pak_header_too_large items :
  (510 < length (packed_data items))%nat ->
  Z.of_nat (length (packed_data items)) < 2 ^ 32 ->
  2048 + Z.of_nat (length (concat (packed_data items))) < 2 ^ 32 ->
  PackPak.pack_pak (Some items)
  = (Raises RuntimeError, Some (pak_header (packed_data items))).
Proof.
  intros Hn Hn' Ht.
  rewrite pack_pak_unfold by (intros E; rewrite E in Hn; cbn in Hn; lia).
  cbv zeta. set (datas := packed_data items) in *.
  rewrite write_pak_unfold.
  rewrite pack_u32_ok by (unfold is_u32; lia).
  rewrite write_offsets_ok by (apply offsets_from_u32; lia).
  fold (pak_header datas).
  pose proof (length_pak_header datas) as L.
  unfold PackPak.FIRST_FILE_OFFSET.
  destruct (Z.ltb_spec (2048 - Z.of_nat (length (pak_header datas))) 0);
    [reflexivity | lia].
Qed.

Lemma pack_pak_overflow items :
  packed_data items <> [] ->
  2 ^ 32 <= Z.of_nat (length (packed_data items))
  \/ 2 ^ 32 <= 2048 + Z.of_nat (length (concat (packed_data items))) ->
  fst (PackPak.pack_pak (Some items)) = Raises StructError.
Proof.
  intros Hne H. rewrite pack_pak_unfold by exact Hne.
  cbv zeta. set (datas := packed_data items) in *.
  rewrite write_pak_unfold.
  destruct (is_u32_dec (Z.of_nat (length datas))) as [Hc|Hc].
  - rewrite (pack_u32_ok _ Hc).
    destruct H as [H|H]; [unfold is_u32 in Hc; lia|].
    destruct (write_offsets_overflow (offsets_from 2048 datas)
                (le_digits 4 (Z.of_nat (length datas)))
                (offsets_from_overflow 2048 datas H)) as [pak' E].
    rewrite E. reflexivity.
  - rewrite (pack_u32_overflow _ Hc). reflexivity.
Qed.

Lemma pack_pak_cases items :
  let datas := packed_data items in
  (datas = [] /\ PackPak.pack_pak (Some items) = (Raises ValueError, None))
  \/ (datas <> []
      /\ (2 ^ 32 <= Z.of_nat (length datas)
          \/ 2 ^ 32 <= 2048 + Z.of_nat (length (concat datas)))
      /\ fst (PackPak.pack_pak (Some items)) = Raises StructError)
  \/ ((510 < length datas)%nat /\ Z.of_nat (length datas) < 2 ^ 32
      /\ 2048 + Z.of_nat (length (concat datas)) < 2 ^ 32
      /\ PackPak.pack_pak (Some items)
         = (Raises RuntimeError, Some (pak_header datas)))
  \/ (pak_fits datas
      /\ PackPak.pack_pak (Some items) = (Returns tt, Some (pak_layout datas))).
Proof.
  intros datas. subst datas.
  destruct (packed_data items) as [|d ds] eqn:E.
  { left. split; [reflexivity|]. apply pack_pak_no_files, E. }
  rewrite <- E.
  assert (Hne : packed_data items <> []) by (rewrite E; discriminate).
  assert (Hl : (1 <= length (packed_data items))%nat)
    by (rewrite E; cbn; lia).
  destruct (Z_lt_le_dec (Z.of_nat (length (packed_data items))) (2 ^ 32))
    as [Hn|Hn];
    [destruct (Z_lt_le_dec
                 (2048 + Z.of_nat (length (concat (packed_data items))))
                 (2 ^ 32)) as [Ht|Ht]|].
  2,3: right; left; split; [exact Hne|];
       split; [lia | apply pack_pak_overflow; [exact Hne | lia]].
  destruct (le_lt_dec (length (packed_data items)) 510) as [Hs|Hs].
  - right; right; right. split; [split; [lia | exact Ht]|].
    apply pack_pak_fits. split; [lia | exact Ht].
  - right; right; left. repeat split; try assumption.
    apply pack_pak_header_too_large; assumption.
Qed.

(** X18: when [pack_pak] packs and how it fails.  It returns exactly when
    the directory holds between 1 and 510 files and the end offset, 2048
    plus the bytes of all the files, is below [2^32].  It raises
    [ValueError] exactly when there is no file, [RuntimeError] exactly when
    there are more than 510 files whose offsets all fit 32 bits, and
    [struct.error] exactly when there is a file and the count or the end
    offset does not fit 32 bits. *)
Theorem pack_pak_outcome (items : list PackDat.DirItem) :
  let datas := packed_data items in
  let r := fst (PackPak.pack_pak (Some items)) in
  (r = Returns tt <-> pak_fits datas)
  /\ (r = Raises ValueError <-> datas = [])
  /\ (r = Raises RuntimeError
      <-> (510 < length datas)%nat /\ Z.of_nat (length datas) < 2 ^ 32
          /\ 2048 + Z.of_nat (length (concat datas)) < 2 ^ 32)
  /\ (r = Raises StructError
      <-> datas <> []
          /\ (2 ^ 32 <= Z.of_nat (length datas)
              \/ 2 ^ 32 <= 2048 + Z.of_nat (length (concat datas))))
  /\ r <> Raises IndexError.
Proof.
  cbv zeta.
  destruct (pack_pak_cases items)
    as [(A & E) | [(A & B & E) | [(A & B & C & E) | (A & E)]]];
    rewrite E; cbn [fst]; unfold pak_fits in *;
    repeat match goal with
           | |- _ /\ _ => split
           | |- _ <-> _ => split
           end;
    try discriminate; try reflexivity; try (intros ?; discriminate);
    try solve [intros; exfalso; rewrite A in *; cbn [length] in *;
               intuition lia];
    try solve [intros H; exfalso; rewrite H in *; cbn [length] in *;
               intuition lia];
    try solve [intros; intuition (first [lia | congruence])].
Qed.


(** ** The archive written *)

Lemma u32_at_word pre v rest :
  is_u32 v -> u32_at (pre ++ le_digits 4 v ++ rest) (Z.of_nat (length pre)) = v.
Proof.
  intros H. unfold u32_at. rewrite Nat2Z.id, drop_app_length.
  rewrite take_app_length' by (symmetry; apply length_le_digits).
  apply from_bytes_to_bytes4, H.
Qed.

Lemma u32_words vs :
  Forall is_u32 vs ->
  forall pre rest,
    map (fun i => u32_at (pre ++ concat (map (le_digits 4) vs) ++ rest)
                    (Z.of_nat (length pre) + 4 * Z.of_nat i))
        (seq 0 (length vs))
    = vs.
Proof.
  induction 1 as [|v vs Hv _ IH]; intros pre rest; [reflexivity|].
  cbn [length seq map concat]. f_equal.
  - rewrite <- app_assoc.
    replace (Z.of_nat (length pre) + 4 * Z.of_nat 0)
      with (Z.of_nat (length pre)) by lia.
    apply u32_at_word, Hv.
  - rewrite <- seq_shift, map_map.
    rewrite <- (IH (pre ++ le_digits 4 v) rest) at 2.
    apply map_ext. intros i.
    rewrite <- !app_assoc, length_app, length_le_digits. f_equal. lia.
Qed.

Lemma length_pak_layout datas :
  (length datas <= 510)%nat ->
  length (pak_layout datas) = (2048 + length (concat datas))%nat.
Proof.
  intros H. unfold pak_layout.
  rewrite !length_app, length_replicate, length_pak_header. lia.
Qed.

Lemma pak_count_layout datas :
  Z.of_nat (length datas) < 2 ^ 32 ->
  pak_count (pak_layout datas) = Z.of_nat (length datas).
Proof.
  intros H. unfold pak_count, pak_layout, pak_header.
  rewrite <- !app_assoc.
  apply (u32_at_word [] (Z.of_nat (length datas))). unfold is_u32. lia.
Qed.

(** The words of the header after the count. *)
Lemma header_words_layout datas :
  2048 + Z.of_nat (length (concat datas)) < 2 ^ 32 ->
  map (fun i => u32_at (pak_layout datas) (4 + 4 * Z.of_nat i))
      (seq 0 (S (length datas)))
  = offsets_from 2048 datas.
Proof.
  intros H. unfold pak_layout, pak_header.
  pose proof (u32_words (offsets_from 2048 datas)
                (offsets_from_u32 2048 datas ltac:(lia) H)
                (le_digits 4 (Z.of_nat (length datas)))
                (replicate
                   (2048 - length (le_digits 4 (Z.of_nat (length datas))
                                   ++ concat (map (le_digits 4)
                                                (offsets_from 2048 datas))))
                   0 ++ concat datas)) as W.
  rewrite length_offsets_from, length_le_digits in W.
  rewrite <- app_assoc. exact W.
Qed.

Lemma offsets_from_snoc off datas :
  exists front,
    offsets_from off datas
    = front ++ [off + Z.of_nat (length (concat datas))]
    /\ length front = length datas.
Proof.
  pose proof (last_offsets_from off datas) as E.
  apply last_Some in E as [front E]. exists front. split; [exact E|].
  pose proof (length_offsets_from off datas) as L.
  rewrite E, length_app in L. cbn in L. lia.
Qed.

Lemma pak_offsets_layout datas :
  pak_fits datas ->
  pak_offsets (pak_layout datas) = offsets_from 2048 datas.
Proof.
  intros [Hn Ht]. unfold pak_offsets.
  rewrite pak_count_layout by lia. rewrite Nat2Z.id.
  pose proof (header_words_layout datas Ht) as W.
  rewrite seq_S, map_app in W.
  destruct (offsets_from_snoc 2048 datas) as (front & E & L).
  rewrite E in W |- *.
  apply app_inj_2 in W as [W _]; [|reflexivity].
  rewrite W, length_pak_layout by lia. do 2 f_equal. lia.
Qed.

Lemma end_offset_layout datas :
  pak_fits datas ->
  u32_at (pak_layout datas) (4 + 4 * Z.of_nat (length datas))
  = Z.of_nat (length (pak_layout datas)).
Proof.
  intros [Hn Ht].
  pose proof (header_words_layout datas Ht) as W.
  rewrite seq_S, map_app in W.
  destruct (offsets_from_snoc 2048 datas) as (front & E & L).
  rewrite E in W.
  apply app_inj_2 in W as [_ W]; [|reflexivity].
  cbn [map Nat.add] in W. injection W as W.
  rewrite W, length_pak_layout by lia. lia.
Qed.

Lemma drop_pak_layout datas :
  (length datas <= 510)%nat -> drop 2048 (pak_layout datas) = concat datas.
Proof.
  intros H. unfold pak_layout. rewrite app_assoc.
  apply drop_app_length'.
  rewrite length_app, length_replicate, length_pak_header. lia.
Qed.

Lemma padding_pak_layout datas (i : nat) :
  (8 + 4 * length datas <= i < 2048)%nat ->
  pak_layout datas !! i = Some 0.
Proof.
  intros H. unfold pak_layout.
  pose proof (length_pak_header datas) as L.
  rewrite lookup_app_r by lia.
  rewrite lookup_app_l by (rewrite length_replicate; lia).
  apply lookup_replicate_2. lia.
Qed.

Lemma pack_pak_returns items pak :
  PackPak.pack_pak (Some items) = (Returns tt, Some pak) ->
  pak_fits (packed_data items) /\ pak = pak_layout (packed_data items).
Proof.
  intros E.
  destruct (pack_pak_cases items)
    as [(A & E') | [(A & B & E') | [(A & B & C & E') | (A & E')]]];
    rewrite E in E'; try discriminate.
  injection E' as ->. split; [exact A | reflexivity].
Qed.

(** X19: the layout of the archive [pack_pak] writes.  The archive is
    2048 bytes and the files long.  Its first integer is the number of
    files; the next ones are the offsets of the files, which start at 2048
    and leave no gap, and after them the end offset, which is the size of
    the archive.  Zeros fill the header up to offset 2048, and the files
    follow in sorted order. *)
Theorem packed_archive_layout (items : list PackDat.DirItem) (pak : list Z) :
  PackPak.pack_pak (Some items) = (Returns tt, Some pak) ->
  let datas := packed_data items in
  Z.of_nat (length pak) = 2048 + Z.of_nat (length (concat datas))
  /\ pak_count pak = Z.of_nat (length datas)
  /\ pak_offsets pak = offsets_from 2048 datas
  /\ u32_at pak (4 + 4 * Z.of_nat (length datas)) = Z.of_nat (length pak)
  /\ (forall i : nat,
        (8 + 4 * length datas <= i < 2048)%nat -> pak !! i = Some 0)
  /\ drop 2048 pak = concat datas.
Proof.
  intros E datas. subst datas.
  apply pack_pak_returns in E as [F ->].
  pose proof F as [Hn Ht].
  split; [|split; [|split; [|split; [|split]]]].
  - rewrite length_pak_layout by lia. lia.
  - apply pak_count_layout. lia.
  - apply pak_offsets_layout, F.
  - apply end_offset_layout, F.
  - apply padding_pak_layout.
  - apply drop_pak_layout. lia.
Qed.

Lemma packed_archive_layout_witness :
  let pak := pak_layout (packed_data pak_dir) in
  let datas := packed_data pak_dir in
  Z.of_nat (length pak) = 2048 + Z.of_nat (length (concat datas))
  /\ pak_count pak = Z.of_nat (length datas)
  /\ pak_offsets pak = offsets_from 2048 datas
  /\ u32_at pak (4 + 4 * Z.of_nat (length datas)) = Z.of_nat (length pak)
  /\ (forall i : nat,
        (8 + 4 * length datas <= i < 2048)%nat -> pak !! i = Some 0)
  /\ drop 2048 pak = concat datas.
Proof.
  intros pak. apply (packed_archive_layout pak_dir pak).
  vm_compute. reflexivity.
Defined.

(** ** The archive written, read back *)

Lemma offsets_from_head off datas :
  exists rest, offsets_from off datas = off :: rest.
Proof. destruct datas; eexists; reflexivity. Qed.

Lemma entry_bytes_tile datas :
  forall pre,
    map (entry_bytes (pre ++ concat datas))
        (tile (offsets_from (Z.of_nat (length pre)) datas))
    = datas.
Proof.
  induction datas as [|d ds IH]; intros pre; [reflexivity|].
  cbn [offsets_from concat].
  destruct (offsets_from_head (Z.of_nat (length pre) + Z.of_nat (length d)) ds)
    as [rest E].
  specialize (IH (pre ++ d)).
  rewrite length_app, Nat2Z.inj_add, E in IH. rewrite E, tile_cons.
  cbn [map]. rewrite <- app_assoc in IH. rewrite IH. f_equal.
  unfold entry_bytes. cbn [ExtractPak.offset ExtractPak.size].
  rewrite Nat2Z.id, drop_app_length.
  replace (Z.to_nat (Z.of_nat (length pre) + Z.of_nat (length d)
                     - Z.of_nat (length pre))) with (length d) by lia.
  apply take_app_length.
Qed.

Lemma parse_index_layout datas :
  pak_fits datas ->
  ExtractPak.parse_index (pak_layout datas) 0
  = (Returns (tile (offsets_from 2048 datas)),
     4 + 4 * Z.of_nat (length datas)).
Proof.
  intros F. pose proof F as [Hn Ht].
  pose proof (length_pak_layout datas ltac:(lia)) as L.
  pose proof (pak_count_layout datas ltac:(lia)) as C.
  rewrite parse_index_complete by lia.
  rewrite pak_offsets_layout, nondecreasing_offsets_from, C by exact F.
  reflexivity.
Qed.

Lemma entry_bytes_layout datas :
  (length datas <= 510)%nat ->
  map (entry_bytes (pak_layout datas)) (tile (offsets_from 2048 datas))
  = datas.
Proof.
  intros H. unfold pak_layout. rewrite app_assoc.
  set (pre := pak_header datas ++ replicate _ 0).
  assert (L : Z.of_nat (length pre) = 2048).
  { subst pre. rewrite length_app, length_replicate, length_pak_header. lia. }
  rewrite <- L. apply entry_bytes_tile.
Qed.

(** X20: an archive written by [pack_pak] and read by [extract_pak], on
    any file system and whatever the name of the archive.  [parse_index]
    accepts the archive, so [extract_pak] raises only what the file
    system raises; the files it writes hold the bytes of the files
    packed, in the same order, as far as the file system takes them, and
    all of them when nothing is raised. *)
Theorem packed_archive_extracts (items : list PackDat.DirItem) (pak : list Z)
    (lower : list Z -> list Z) (pak_name base_name : list Z)
    (FS : Type) (H : OutDir FS) (fs : FS) :
  PackPak.pack_pak (Some items) = (Returns tt, Some pak) ->
  (exists entries pos,
     ExtractPak.parse_index pak 0 = (Returns entries, pos)
     /\ map (entry_bytes pak) entries = packed_data items
     /\ ExtractPak.extract_pak lower pak pak_name base_name fs
        = match makedirs fs with
          | (Raises e, fs') => (Raises e, (fs', []))
          | (Returns _, fs') =>
              write_all (outputs lower pak pak_name base_name 0 entries) fs' []
          end)
  /\ (exists k : nat,
        map snd (snd (snd (ExtractPak.extract_pak lower pak pak_name
                             base_name fs)))
        = take k (packed_data items))
  /\ (fst (ExtractPak.extract_pak lower pak pak_name base_name fs)
      = Returns tt ->
      map snd (snd (snd (ExtractPak.extract_pak lower pak pak_name
                           base_name fs)))
      = packed_data items).
Proof.
  intros E. apply pack_pak_returns in E as [F ->].
  pose proof F as [Hn Ht].
  pose proof (extract_pak_returns lower (pak_layout (packed_data items))
                pak_name base_name _ _ fs (parse_index_layout _ F)
                (tile_sizes_nonneg _ (nondecreasing_offsets_from _ _))) as R.
  pose proof (entry_bytes_layout (packed_data items) ltac:(lia)) as D.
  split.
  { eexists _, _. split; [apply parse_index_layout, F|].
    split; [exact D | exact R]. }
  rewrite R.
  set (files := outputs lower (pak_layout (packed_data items)) pak_name
                  base_name 0 (tile (offsets_from 2048 (packed_data items))))
    in *.
  assert (T : map snd files = packed_data items)
    by (subst files; rewrite map_snd_outputs; exact D).
  destruct (makedirs fs) as [[[]|e] fs'].
  - destruct (write_all_written files fs' []) as (k & W & A).
    cbn [app] in W. rewrite W. split.
    + exists k. rewrite <- T, firstn_map. reflexivity.
    + intros Hr. rewrite (A Hr). exact T.
  - cbn [fst snd map]. split; [exists 0%nat; reflexivity | discriminate].
Qed.

Lemma packed_archive_extracts_witness :
  ExtractPak.extract_pak ascii_lower (pak_layout (packed_data pak_dir))
    (str_of "SE.pak") (str_of "SE") ([] : tree)
  = (Returns tt,
     ([([str_of "SE_0001.wav"], File [1; 2; 3]);
       ([str_of "SE_0000.wav"], File (str_of "RIFF")); ([], Dir)],
      [(str_of "SE_0000.wav", str_of "RIFF");
       (str_of "SE_0001.wav", [1; 2; 3])]))
  /\ map snd (snd (snd (ExtractPak.extract_pak ascii_lower
                          (pak_layout (packed_data pak_dir))
                          (str_of "SE.pak") (str_of "SE") ([] : tree))))
     = packed_data pak_dir.
Proof.
  assert (R : ExtractPak.extract_pak ascii_lower
                (pak_layout (packed_data pak_dir))
                (str_of "SE.pak") (str_of "SE") ([] : tree)
              = (Returns tt,
                 ([([str_of "SE_0001.wav"], File [1; 2; 3]);
                   ([str_of "SE_0000.wav"], File (str_of "RIFF")); ([], Dir)],
                  [(str_of "SE_0000.wav", str_of "RIFF");
                   (str_of "SE_0001.wav", [1; 2; 3])])))
    by (vm_compute; reflexivity).
  split; [exact R|].
  destruct (packed_archive_extracts pak_dir (pak_layout (packed_data pak_dir))
              ascii_lower (str_of "SE.pak") (str_of "SE") tree tree_out_dir [])
    as (_ & _ & A).
  - vm_compute. reflexivity.
  - apply A. rewrite R. reflexivity.
Defined.

(** ** [verify_pak] *)

Lemma verify_body_unfold file :
  PackPak.verify_body file 0
  = (file_count ← (bs ← read file 4; lift (unpack_u32 bs));
     offsets ← ExtractPak.read_offsets file (Z.to_nat (file_count + 1));
     _ ← lift (item offsets 0);
     end_offset ← lift (PackPak.last_item offsets);
     if negb (end_offset =? getsize file) then mret false else mret true) 0.
Proof.
  unfold PackPak.verify_body, mbind, St_bind.
  destruct (read file 4 0) as [[bs|e] pos]; reflexivity.
Qed.

(** X21: [verify_pak] accepts every archive that [pack_pak] writes. *)
Theorem packed_archive_verifies (items : list PackDat.DirItem) (pak : list Z) :
  PackPak.pack_pak (Some items) = (Returns tt, Some pak) ->
  PackPak.verify_pak pak = true.
Proof.
  intros E. apply pack_pak_returns in E as [F ->].
  pose proof F as [Hn Ht].
  set (datas := packed_data items) in *.
  pose proof (length_pak_layout datas ltac:(lia)) as L.
  unfold PackPak.verify_pak. rewrite verify_body_unfold.
  rewrite (st_bind_returns _ _ _ _ _
             (read_4_ok (pak_layout datas) 0 ltac:(lia) ltac:(lia))).
  fold (pak_count (pak_layout datas)).
  rewrite pak_count_layout by lia.
  rewrite (st_bind_returns _ _ _ _ _
             (read_offsets_ok (pak_layout datas)
                (Z.to_nat (Z.of_nat (length datas) + 1)) (0 + 4)
                ltac:(lia) ltac:(lia))).
  replace (Z.to_nat (Z.of_nat (length datas) + 1)) with (S (length datas))
    by lia.
  change (0 + 4) with 4.
  rewrite (header_words_layout datas Ht).
  destruct (offsets_from_head 2048 datas) as [rest Eh].
  pose proof (last_offsets_from 2048 datas) as El.
  unfold mbind, St_bind, lift, item, PackPak.last_item, getsize.
  cbv beta iota. rewrite El, Eh. cbn [Z.to_nat lookup list_lookup].
  rewrite L.
  destruct (Z.eqb_spec (2048 + Z.of_nat (length (concat datas)))
              (Z.of_nat (2048 + length (concat datas)))); [reflexivity | lia].
Qed.

Lemma packed_archive_verifies_witness :
  PackPak.verify_pak (pak_layout (packed_data pak_dir)) = true.
Proof.
  apply (packed_archive_verifies pak_dir).
  vm_compute. reflexivity.
Defined.


(** ** The names of the files written *)

Lemma outputs_lookup lower file pak_name base_name entries :
  forall k (i : nat) name data,
    outputs lower file pak_name base_name k entries !! i = Some (name, data) ->
    name = out_name lower pak_name base_name (k + Z.of_nat i) data.
Proof.
  induction entries as [|e entries IH]; intros k i name data; [discriminate|].
  cbn [outputs]. destruct i as [|i].
  - intros [= <- <-]. f_equal. lia.
  - cbn [lookup list_lookup]. intros H. apply IH in H. rewrite H.
    f_equal. lia.
Qed.

(** What [extract_pak] has written, whether it returns or raises: the
    first files of those it has for the entries. *)
Lemma extract_pak_written lower {FS} `{!OutDir FS} file pak_name base_name
    (fs : FS) :
  exists entries (k : nat),
    snd (snd (ExtractPak.extract_pak lower file pak_name base_name fs))
    = take k (outputs lower file pak_name base_name 0 entries).
Proof.
  destruct (parse_index_cases file)
    as [(_ & _ & E) | [(_ & _ & E) | ((_ & _ & _ & N) & _ & E)]].
  - exists [], 0%nat. apply (extract_pak_raises _ _ _ _ _ _ E).
  - exists [], 0%nat. apply (extract_pak_raises _ _ _ _ _ _ E).
  - exists (tile (pak_offsets file)).
    rewrite (extract_pak_returns lower _ pak_name base_name _ _ fs E
               (tile_sizes_nonneg _ N)).
    destruct (makedirs fs) as [[[]|e] fs'].
    + destruct (write_all_written
                  (outputs lower file pak_name base_name 0
                     (tile (pak_offsets file))) fs' []) as (k & W & _).
      exists k. exact W.
    + exists 0%nat. reflexivity.
Qed.

Lemma startswith_take data prefix (k : nat) :
  (length prefix <= k)%nat ->
  startswith (take k data) prefix = startswith data prefix.
Proof.
  revert data k. induction prefix as [|p prefix IH]; intros data k H.
  - destruct (take k data), data; reflexivity.
  - cbn [length] in H. destruct k as [|k]; [lia|].
    destruct data as [|d data]; [reflexivity|].
    cbn [take startswith]. rewrite IH by lia. reflexivity.
Qed.

Lemma first_signature_take data (k : nat) :
  (8 <= k)%nat ->
  ExtractPak.first_signature ExtractPak.SIGNATURES (take k data)
  = ExtractPak.first_signature ExtractPak.SIGNATURES data.
Proof.
  intros H. unfold ExtractPak.SIGNATURES.
  cbn [ExtractPak.first_signature].
  rewrite !startswith_take by (cbn; lia). reflexivity.
Qed.

Lemma detect_file_type_head lower data pak_name :
  ExtractPak.detect_file_type lower (slice data None (Some 64)) pak_name
  = ExtractPak.detect_file_type lower data pak_name.
Proof.
  unfold ExtractPak.detect_file_type.
  rewrite slice_prefix by lia.
  rewrite first_signature_take by (change (Z.to_nat 64) with 64%nat; lia).
  reflexivity.
Qed.

Lemma startswith_app data prefix :
  startswith data prefix = true -> exists rest, data = prefix ++ rest.
Proof.
  revert data. induction prefix as [|p prefix IH]; intros data H.
  - exists data. reflexivity.
  - destruct data as [|d data]; [discriminate|].
    cbn [startswith] in H. apply andb_prop in H as [H1 H].
    apply Z.eqb_eq in H1. subst d.
    destruct (IH data H) as [rest ->]. exists rest. reflexivity.
Qed.

Lemma detect_file_type_riff lower data pak_name :
  startswith data (str_of "RIFF") = true ->
  ExtractPak.detect_file_type lower data pak_name = str_of ".wav".
Proof.
  intros H. apply startswith_app in H as [rest ->]. vm_compute. reflexivity.
Qed.

Lemma detect_file_type_in lower data pak_name :
  In (ExtractPak.detect_file_type lower data pak_name)
     (map str_of [".png"; ".bmp"; ".wav"; ".ogg"; ".jpg"; ".txt"; ".bin"]%string).
Proof.
  unfold ExtractPak.detect_file_type, ExtractPak.SIGNATURES.
  cbn [ExtractPak.first_signature].
  repeat match goal with
         | |- context [if ?b then _ else _] => destruct b
         end; cbn [map In]; tauto.
Qed.

Lemma xma2_riff data : xma2 data = true -> startswith data (str_of "RIFF") = true.
Proof.
  unfold xma2, ExtractPak.is_xma2_wave.
  destruct (startswith data (str_of "RIFF")); [reflexivity | discriminate].
Qed.

Lemma extension_xma lower pak_name data :
  extension lower pak_name data = str_of ".xma" <-> xma2 data = true.
Proof.
  unfold extension. rewrite detect_file_type_head. split.
  - destruct (xma2 data); [reflexivity|]. rewrite andb_false_r.
    intros E. pose proof (detect_file_type_in lower data pak_name) as H.
    rewrite E in H. cbn in H.
    repeat destruct H as [H|H]; try discriminate H; contradiction.
  - intros X. rewrite (detect_file_type_riff _ _ _ (xma2_riff _ X)), X.
    reflexivity.
Qed.

(** X22: the extension [.xma].  A file is written under a name that ends
    in [.xma] exactly when [is_xma2_wave] holds of its bytes, whatever the
    name of the archive and the file system: data that starts with [RIFF]
    is always detected as [.wav] first, and no other detection gives
    [.xma]. *)
Theorem xma_name_iff_xma2_audio (lower : list Z -> list Z)
    (file pak_name base_name : list Z) (FS : Type) (H : OutDir FS) (fs : FS)
    (i : nat) (name data : list Z) :
  snd (snd (ExtractPak.extract_pak lower file pak_name base_name fs)) !! i
  = Some (name, data) ->
  (name = base_name ++ str_of "_" ++ format_04d (Z.of_nat i) ++ str_of ".xma"
   <-> ExtractPak.is_xma2_wave data = Returns true).
Proof.
  intros Hi.
  destruct (extract_pak_written lower file pak_name base_name fs)
    as (entries & k & E).
  rewrite E in Hi. apply lookup_take_Some in Hi as [Hi _].
  apply outputs_lookup in Hi. rewrite Z.add_0_l in Hi. subst name.
  rewrite is_xma2_wave_returns. unfold out_name.
  split.
  - intros N. do 3 apply app_inv_head in N. apply extension_xma in N.
    rewrite N. reflexivity.
  - intros [= X]. apply (extension_xma lower pak_name) in X. rewrite X.
    reflexivity.
Qed.

Lemma xma_name_iff_xma2_audio_witness :
  str_of "bgm_0000.xma"
  = str_of "bgm" ++ str_of "_" ++ format_04d (Z.of_nat 0) ++ str_of ".xma"
  <-> ExtractPak.is_xma2_wave (drop 8 xma_pak) = Returns true.
Proof.
  apply (xma_name_iff_xma2_audio ascii_lower xma_pak (str_of "bgm.pak")
           (str_of "bgm") tree tree_out_dir [] 0).
  vm_compute. reflexivity.
Defined.

(** ** No two files under one name *)

Lemma digits_value_snoc s c :
  digits_value (s ++ [c]) = 10 * digits_value s + (c - 48).
Proof. unfold digits_value. rewrite fold_left_app. reflexivity. Qed.

Lemma digits_value_zeros (k : nat) s :
  digits_value (replicate k 48 ++ s) = digits_value s.
Proof.
  unfold digits_value. rewrite fold_left_app. f_equal.
  induction k as [|k IH]; [reflexivity|]. cbn [replicate fold_left].
  exact IH.
Qed.

Lemma decimal_value fuel n :
  0 <= n -> (Z.to_nat n < fuel)%nat -> digits_value (decimal fuel n) = n.
Proof.
  revert n. induction fuel as [|fuel IH]; intros n H0 Hf; [lia|].
  cbn [decimal]. rewrite digits_value_snoc.
  destruct (Z.ltb_spec n 10).
  - cbn. rewrite Z.mod_small by lia. lia.
  - rewrite IH.
    + pose proof (Z.div_mod n 10 ltac:(lia)). lia.
    + apply Z.div_pos; lia.
    + assert (n / 10 < n) by (apply Z.div_lt; lia).
      assert (0 <= n / 10) by (apply Z.div_pos; lia). lia.
Qed.

Lemma decimal_digits fuel n : Forall is_digit (decimal fuel n).
Proof.
  revert n. induction fuel as [|fuel IH]; intros n; [constructor|].
  cbn [decimal]. apply Forall_app_2.
  - destruct (n <? 10); [constructor | apply IH].
  - repeat constructor; unfold is_digit;
      pose proof (Z.mod_pos_bound n 10 ltac:(lia)); lia.
Qed.

Lemma format_04d_value i : 0 <= i -> digits_value (format_04d i) = i.
Proof.
  intros H. unfold format_04d. rewrite digits_value_zeros.
  apply decimal_value; lia.
Qed.

Lemma format_04d_digits i : Forall is_digit (format_04d i).
Proof.
  unfold format_04d. apply Forall_app_2; [|apply decimal_digits].
  apply Forall_replicate. unfold is_digit. lia.
Qed.

(** Digits followed by an extension: the digits end at the dot. *)
Lemma digits_then_dot d1 :
  forall d2 e1 e2,
    Forall is_digit d1 -> Forall is_digit d2 ->
    d1 ++ 46 :: e1 = d2 ++ 46 :: e2 -> d1 = d2.
Proof.
  induction d1 as [|c d1 IH]; intros d2 e1 e2 H1 H2 E.
  - destruct d2 as [|c d2]; [reflexivity|].
    injection E as E _. inversion H2 as [|? ? Hc _]; subst.
    unfold is_digit in Hc. lia.
  - destruct d2 as [|c' d2].
    + injection E as E _. inversion H1 as [|? ? Hc _]; subst.
      unfold is_digit in Hc. lia.
    + injection E as -> E. f_equal.
      inversion H1; inversion H2; subst. eapply IH; eassumption.
Qed.

Lemma extension_in lower pak_name data :
  In (extension lower pak_name data) extensions.
Proof.
  unfold extension.
  pose proof (detect_file_type_in lower (slice data None (Some 64)) pak_name)
    as H.
  destruct (_ && _).
  - cbn. tauto.
  - cbn in H |- *. tauto.
Qed.

Lemma extension_dot lower pak_name data :
  exists e, extension lower pak_name data = 46 :: e.
Proof.
  pose proof (extension_in lower pak_name data) as H. cbn in H.
  repeat destruct H as [H|H]; try contradiction;
    rewrite <- H; eexists; reflexivity.
Qed.

Lemma out_name_inj lower pak_name base_name i j d d' :
  0 <= i -> 0 <= j ->
  out_name lower pak_name base_name i d
  = out_name lower pak_name base_name j d' ->
  i = j.
Proof.
  intros Hi Hj E. unfold out_name in E. do 2 apply app_inv_head in E.
  destruct (extension_dot lower pak_name d) as [e1 E1].
  destruct (extension_dot lower pak_name d') as [e2 E2].
  rewrite E1, E2 in E.
  apply digits_then_dot in E; [|apply format_04d_digits..].
  rewrite <- (format_04d_value i Hi), <- (format_04d_value j Hj), E.
  reflexivity.
Qed.

Lemma outputs_names lower file pak_name base_name entries :
  forall k name,
    In name (map fst (outputs lower file pak_name base_name k entries)) ->
    exists j d, k <= j /\ name = out_name lower pak_name base_name j d.
Proof.
  induction entries as [|e entries IH]; intros k name; [intros []|].
  cbn [outputs map fst In]. intros [<-|H].
  - exists k, (entry_bytes file e). split; [lia | reflexivity].
  - destruct (IH _ _ H) as (j & d & Hj & ->).
    exists j, d. split; [lia | reflexivity].
Qed.

Lemma outputs_NoDup lower file pak_name base_name entries :
  forall k, 0 <= k ->
    List.NoDup (map fst (outputs lower file pak_name base_name k entries)).
Proof.
  induction entries as [|e entries IH]; intros k Hk; [constructor|].
  cbn [outputs map fst]. constructor; [|apply IH; lia].
  intros H. apply outputs_names in H as (j & d & Hj & E).
  apply out_name_inj in E; lia.
Qed.

(** X23: no file written by [extract_pak] replaces another.  Whatever the
    archive, its name and the file system, the names of the files written
    are pairwise different, also beyond entry 9999, where the index takes
    more than four digits. *)
Theorem extracted_names_are_distinct (lower : list Z -> list Z)
    (file pak_name base_name : list Z) (FS : Type) (H : OutDir FS) (fs : FS) :
  List.NoDup
    (map fst
       (snd (snd (ExtractPak.extract_pak lower file pak_name base_name fs)))).
Proof.
  destruct (extract_pak_written lower file pak_name base_name fs)
    as (entries & k & E).
  rewrite E.
  pose proof (outputs_NoDup lower file pak_name base_name entries 0 ltac:(lia))
    as N.
  rewrite <- (take_drop k (outputs lower file pak_name base_name 0 entries)),
    map_app in N.
  apply NoDup_app_remove_r in N. exact N.
Qed.

(** ** Packing again what was extracted *)

Lemma str_lt_app_prefix p a b : str_lt (p ++ a) (p ++ b) = str_lt a b.
Proof.
  induction p as [|c p IH]; [reflexivity|].
  cbn [app]. unfold str_lt in *. cbn [seq_lt]. rewrite Z.eqb_refl. exact IH.
Qed.

Lemma str_lt_app_same_length a :
  forall b x y,
    length a = length b -> str_lt a b = true ->
    str_lt (a ++ x) (b ++ y) = true.
Proof.
  unfold str_lt.
  induction a as [|c a IH]; intros [|c' b] x y L H; try discriminate.
  cbn [app seq_lt] in *. destruct (c =? c'); [|exact H].
  apply IH; [cbn [length] in L; lia | exact H].
Qed.

(** The indices [pack_pak] can reach take four digits, and their order is
    the order of the strings. *)
Lemma format_04d_order i j :
  0 <= i < j -> j < 510 ->
  length (format_04d i) = length (format_04d j)
  /\ str_lt (format_04d i) (format_04d j) = true.
Proof.
  intros Hi Hj.
  assert (C : forallb (fun a =>
                forallb (fun b =>
                  implb (fst a <? fst b)
                    ((length (snd a) =? length (snd b))%nat
                     && str_lt (snd a) (snd b)))
                  (map (fun i => (i, format_04d i)) (range 510)))
                (map (fun i => (i, format_04d i)) (range 510)) = true)
    by (vm_compute; reflexivity).
  rewrite forallb_forall in C.
  assert (R : forall k, 0 <= k < 510 ->
            In (k, format_04d k) (map (fun i => (i, format_04d i)) (range 510))).
  { intros k Hk. apply (in_map (fun i => (i, format_04d i))).
    unfold range. rewrite <- (Z2Nat.id k) by lia. apply in_map, in_seq. lia. }
  specialize (C _ (R i ltac:(lia))). rewrite forallb_forall in C.
  specialize (C _ (R j ltac:(lia))). cbn [fst snd] in C.
  destruct (Z.ltb_spec i j); [|lia]. cbn [implb] in C.
  apply andb_prop in C as [C1 C2]. apply Nat.eqb_eq in C1.
  split; assumption.
Qed.

Lemma out_name_order lower pak_name base_name i j d d' :
  0 <= i < j -> j < 510 ->
  str_lt (out_name lower pak_name base_name i d)
         (out_name lower pak_name base_name j d') = true.
Proof.
  intros Hi Hj. unfold out_name. rewrite !str_lt_app_prefix.
  destruct (format_04d_order i j Hi Hj) as [L S].
  apply str_lt_app_same_length; assumption.
Qed.

Lemma path_lt_single a b n1 n2 :
  PackDat.rel_parts a = [n1] -> PackDat.rel_parts b = [n2] ->
  str_lt n1 n2 = true -> PackDat.path_lt a b = true.
Proof.
  intros Ea Eb H. unfold PackDat.path_lt, list_str_lt. rewrite Ea, Eb.
  cbn [seq_lt]. destruct (str_eqb n1 n2) eqn:E; [|exact H].
  apply str_eqb_eq in E. subst n2. rewrite str_lt_irrefl in H. discriminate.
Qed.

Lemma outputs_In lower file pak_name base_name entries :
  forall k w,
    In w (outputs lower file pak_name base_name k entries) ->
    exists j, k <= j < k + Z.of_nat (length entries)
              /\ fst w = out_name lower pak_name base_name j (snd w).
Proof.
  induction entries as [|e entries IH]; intros k w; [intros []|].
  cbn [outputs In length]. intros [<-|H].
  - exists k. split; [lia | reflexivity].
  - destruct (IH _ _ H) as (j & Hj & E). exists j. split; [lia | exact E].
Qed.

(** The files written come out of [extract_pak] in the order of their
    paths. *)
Lemma extracted_dir_sorted lower file pak_name base_name entries :
  forall k,
    0 <= k -> k + Z.of_nat (length entries) <= 510 ->
    StronglySorted (fun a b => PackDat.path_lt a b = true)
      (extracted_dir (outputs lower file pak_name base_name k entries)).
Proof.
  induction entries as [|e entries IH]; intros k Hk Hn; [constructor|].
  cbn [length] in Hn. cbn [outputs extracted_dir map].
  constructor; [apply IH; lia|].
  apply List.Forall_forall. intros it Hit.
  apply in_map_iff in Hit as (w & <- & Hw).
  apply outputs_In in Hw as (j & Hj & E).
  eapply path_lt_single; [reflexivity | reflexivity |].
  cbn [fst]. rewrite E. apply out_name_order; lia.
Qed.

(** A list in strict order is the only sorted list of its items. *)
Lemma sorted_unique (l : list PackDat.DirItem) :
  forall l2,
    StronglySorted (fun a b => PackDat.path_lt a b = true) l ->
    StronglySorted path_le l2 ->
    Permutation l l2 -> l2 = l.
Proof.
  induction l as [|x l IH]; intros l2 S1 S2 P.
  - apply Permutation_nil in P. exact P.
  - destruct l2 as [|y l2];
      [apply Permutation_sym, Permutation_nil in P; discriminate|].
    inversion S1 as [|? ? S1' M1]; subst.
    inversion S2 as [|? ? S2' M2]; subst.
    rewrite List.Forall_forall in M1, M2.
    assert (y = x) as ->.
    { assert (Hy : In y (x :: l))
        by (apply (Permutation_in _ (Permutation_sym P)); left; reflexivity).
      assert (Hx : In x (y :: l2))
        by (apply (Permutation_in _ P); left; reflexivity).
      destruct Hy as [Hy|Hy]; [congruence|].
      destruct Hx as [Hx|Hx]; [congruence|].
      specialize (M1 _ Hy). specialize (M2 _ Hx). unfold path_le in M2.
      cbv beta in M1. rewrite M1 in M2. discriminate. }
    f_equal. apply IH; [assumption..|].
    apply Permutation_cons_inv in P. exact P.
Qed.

Lemma filter_files_all (l : list PackDat.DirItem) :
  Forall (fun f => is_Some (PackDat.file_bytes f)) l ->
  filter (fun f => is_Some (PackDat.file_bytes f)) l = l.
Proof.
  induction 1 as [|f l Hf _ IH]; [reflexivity|].
  rewrite filter_cons_True by exact Hf. rewrite IH. reflexivity.
Qed.

Lemma extracted_dir_files written :
  Forall (fun f => is_Some (PackDat.file_bytes f)) (extracted_dir written).
Proof.
  unfold extracted_dir. apply Forall_map, Forall_true. intros w. cbn.
  eexists; reflexivity.
Qed.

Lemma packed_data_extracted_dir listing lower file pak_name base_name entries :
  (length entries <= 510)%nat ->
  Permutation listing
    (extracted_dir (outputs lower file pak_name base_name 0 entries)) ->
  packed_data listing = map (entry_bytes file) entries.
Proof.
  intros Hn P. unfold packed_data, PackPak.collect_files.
  set (dir := extracted_dir _) in *.
  assert (F : Forall (fun f => is_Some (PackDat.file_bytes f)) listing).
  { apply List.Forall_forall. intros it Hit.
    apply (Permutation_in _ P) in Hit.
    pose proof (extracted_dir_files
                  (outputs lower file pak_name base_name 0 entries)) as D.
    rewrite List.Forall_forall in D. apply D, Hit. }
  rewrite (filter_files_all _ F).
  rewrite (sorted_unique dir (sorted PackDat.path_lt listing)).
  - subst dir. unfold extracted_dir. rewrite List.map_map.
    rewrite <- (map_snd_outputs lower file pak_name base_name 0 entries).
    reflexivity.
  - apply extracted_dir_sorted; lia.
  - apply sorted_paths.
  - rewrite sorted_Permutation. symmetry. exact P.
Qed.

(** X24: packing again what was extracted.  Take an archive written by
    [pack_pak], extract it into an empty directory, and, when the
    extraction has raised nothing, pack that directory: the archive
    written is the same, byte for byte, whatever the order in which the
    directory is listed.  The names given by [extract_pak] keep the files
    in the order of the archive. *)
Theorem repacking_gives_the_same_archive (items : list PackDat.DirItem)
    (pak : list Z) (lower : list Z -> list Z) (pak_name base_name : list Z)
    (FS : Type) (H : OutDir FS) (fs : FS)
    (listing : list PackDat.DirItem) :
  PackPak.pack_pak (Some items) = (Returns tt, Some pak) ->
  fst (ExtractPak.extract_pak lower pak pak_name base_name fs) = Returns tt ->
  Permutation listing
    (extracted_dir
       (snd (snd (ExtractPak.extract_pak lower pak pak_name base_name fs)))) ->
  PackPak.pack_pak (Some listing) = (Returns tt, Some pak).
Proof.
  intros E Hr P. apply pack_pak_returns in E as [F ->].
  pose proof F as [Hn Ht].
  rewrite (extract_pak_returns lower _ pak_name base_name _ _ fs
             (parse_index_layout _ F)
             (tile_sizes_nonneg _ (nondecreasing_offsets_from _ _)))
    in Hr, P.
  destruct (makedirs fs) as [[[]|e] fs']; [|discriminate].
  destruct (write_all_written
              (outputs lower (pak_layout (packed_data items)) pak_name
                 base_name 0 (tile (offsets_from 2048 (packed_data items))))
              fs' []) as (k & W & A).
  rewrite W, (A Hr) in P. cbn [app] in P.
  apply packed_data_extracted_dir in P;
    [|rewrite length_tile, length_offsets_from; cbn [pred]; lia].
  rewrite entry_bytes_layout in P by lia.
  rewrite <- P. apply pack_pak_fits. rewrite P. exact F.
Qed.

Lemma repacking_gives_the_same_archive_witness :
  PackPak.pack_pak
    (Some (rev (extracted_dir
                  (snd (snd (ExtractPak.extract_pak ascii_lower
                               (pak_layout (packed_data pak_dir))
                               (str_of "SE.pak") (str_of "SE")
                               ([] : tree)))))))
  = (Returns tt, Some (pak_layout (packed_data pak_dir))).
Proof.
  apply (repacking_gives_the_same_archive pak_dir _ ascii_lower
           (str_of "SE.pak") (str_of "SE") tree tree_out_dir []).
  - vm_compute. reflexivity.
  - vm_compute. reflexivity.
  - symmetry. apply Permutation_rev.
Defined.

(** ** [is_xma2_wave] *)

Lemma startswith_occurs needle data :
  startswith data needle = true <-> occurs_at needle data 0.
Proof.
  unfold occurs_at. rewrite drop_0. revert data.
  induction needle as [|p needle IH]; intros data.
  - cbn. rewrite take_0. tauto.
  - destruct data as [|d data]; [cbn; split; discriminate|].
    cbn [startswith length take]. rewrite andb_true_iff, Z.eqb_eq, IH.
    split; [intros [-> ->]; reflexivity | intros [= -> ->]; tauto].
Qed.

Lemma occurs_at_nil needle q : needle <> [] -> ~ occurs_at needle [] q.
Proof.
  unfold occurs_at. rewrite drop_nil, take_nil. intros H E. apply H.
  symmetry. exact E.
Qed.

(** [find] gives the first position of the needle, or [-1]. *)
Lemma find_from_spec needle data :
  needle <> [] ->
  forall i,
    (find_from needle data i = -1
     /\ forall q, ~ occurs_at needle data q)
    \/ (exists p : nat,
          find_from needle data i = i + Z.of_nat p
          /\ occurs_at needle data p
          /\ forall q, (q < p)%nat -> ~ occurs_at needle data q).
Proof.
  intros Hn. induction data as [|d data IH]; intros i.
  - left. cbn [find_from].
    destruct (startswith [] needle) eqn:E.
    + apply startswith_occurs in E. exfalso. exact (occurs_at_nil _ _ Hn E).
    + split; [reflexivity|]. intros q. apply occurs_at_nil, Hn.
  - cbn [find_from]. destruct (startswith (d :: data) needle) eqn:E.
    + right. exists 0%nat. split; [lia|]. split.
      * apply startswith_occurs, E.
      * intros q Hq. lia.
    + assert (N0 : ~ occurs_at needle (d :: data) 0).
      { intros O. apply startswith_occurs in O. congruence. }
      destruct (IH (i + 1)) as [[E1 N] | (p & E1 & O & N)].
      * left. split; [exact E1|]. intros [|q]; [exact N0 | apply N].
      * right. exists (S p). split; [lia|]. split; [exact O|].
        intros [|q] Hq; [exact N0 | apply N; lia].
Qed.

Lemma u16_at data (p : nat) b0 b1 :
  data !! p = Some b0 -> data !! S p = Some b1 ->
  unpack_from_u16 data (Z.of_nat p) = Returns (b0 + 256 * b1).
Proof.
  intros H0 H1. unfold unpack_from_u16.
  pose proof (lookup_lt_Some _ _ _ H1) as L.
  destruct (Z.ltb_spec (Z.of_nat p) 0); [lia|].
  destruct (Z.ltb_spec (Z.of_nat (length data) - Z.of_nat p) 2); [lia|].
  rewrite Nat2Z.id.
  rewrite (drop_S _ _ _ H0), firstn_cons.
  rewrite (drop_S _ _ _ H1), firstn_cons, take_0.
  cbn [from_bytes_little]. f_equal. lia.
Qed.

Lemma u16_short data (p : nat) :
  data !! S p = None ->
  unpack_from_u16 data (Z.of_nat p) = Raises StructError.
Proof.
  intros H. apply lookup_ge_None in H. unfold unpack_from_u16.
  destruct (Z.ltb_spec (Z.of_nat p) 0); [lia|].
  destruct (Z.ltb_spec (Z.of_nat (length data) - Z.of_nat p) 2);
    [reflexivity | lia].
Qed.

Lemma first_occurrence_unique needle data p p' :
  occurs_at needle data p ->
  (forall q, (q < p)%nat -> ~ occurs_at needle data q) ->
  occurs_at needle data p' ->
  (forall q, (q < p')%nat -> ~ occurs_at needle data q) ->
  p = p'.
Proof.
  intros O N O' N'.
  destruct (Nat.lt_trichotomy p p') as [H|[H|H]]; [|exact H|].
  - exfalso. exact (N' _ H O).
  - exfalso. exact (N _ H O').
Qed.

(** X25: what [is_xma2_wave] looks at.  It raises nothing, and it holds
    exactly of the data that start with [RIFF] and have the two bytes
    [0x66], [0x01] eight bytes after the first [fmt ], wherever that is:
    data cut before these two bytes give false. *)
Theorem is_xma2_wave_reads_the_format_tag (data : list Z) :
  bytes_ok data ->
  (exists b, ExtractPak.is_xma2_wave data = Returns b)
  /\ (ExtractPak.is_xma2_wave data = Returns true
      <-> startswith data (str_of "RIFF") = true
          /\ exists p : nat,
               occurs_at (str_of "fmt ") data p
               /\ (forall q, (q < p)%nat -> ~ occurs_at (str_of "fmt ") data q)
               /\ data !! (p + 8)%nat = Some 0x66
               /\ data !! (p + 9)%nat = Some 0x01).
Proof.
  intros B. split; [eexists; apply is_xma2_wave_returns|].
  unfold ExtractPak.is_xma2_wave.
  destruct (startswith data (str_of "RIFF")); cbn [negb];
    [|split; [discriminate | intros [? _]; discriminate]].
  unfold find.
  destruct (find_from_spec (str_of "fmt ") data ltac:(discriminate) 0)
    as [[E N] | (p & E & O & N)]; rewrite E.
  { cbn [Z.eqb]. split; [discriminate|].
    intros (_ & p & O & _). exfalso. exact (N p O). }
  destruct (Z.eqb_spec (0 + Z.of_nat p) (-1)); [lia|].
  replace (0 + Z.of_nat p + 8) with (Z.of_nat (p + 8)) by lia.
  destruct (data !! S (p + 8)) as [b1|] eqn:E1.
  - destruct (lookup_lt_is_Some_2 data (p + 8)) as [b0 E0].
    { apply lookup_lt_Some in E1. lia. }
    rewrite (u16_at _ _ _ _ E0 E1).
    assert (B0 : is_byte b0) by (eapply Forall_lookup_1; eassumption).
    assert (B1 : is_byte b1) by (eapply Forall_lookup_1; eassumption).
    unfold is_byte in B0, B1.
    replace (S (p + 8)) with (p + 9)%nat in E1 by lia. split.
    + intros [= T]. apply Z.eqb_eq in T. split; [reflexivity|].
      exists p. repeat split; try assumption.
      * rewrite E0. f_equal. lia.
      * rewrite E1. f_equal. lia.
    + intros (_ & p' & O' & N' & T0 & T1).
      assert (p = p') as <- by (eapply first_occurrence_unique; eassumption).
      rewrite E0 in T0. rewrite E1 in T1.
      injection T0 as ->. injection T1 as ->. reflexivity.
  - rewrite (u16_short _ _ E1). split; [discriminate|].
    intros (_ & p' & O' & N' & _ & T1).
    assert (p = p') as <- by (eapply first_occurrence_unique; eassumption).
    replace (S (p + 8)) with (p + 9)%nat in E1 by lia. congruence.
Qed.

Lemma is_xma2_wave_reads_the_format_tag_witness :
  (exists b, ExtractPak.is_xma2_wave xma_data = Returns b)
  /\ (ExtractPak.is_xma2_wave xma_data = Returns true
      <-> startswith xma_data (str_of "RIFF") = true
          /\ exists p : nat,
               occurs_at (str_of "fmt ") xma_data p
               /\ (forall q, (q < p)%nat
                             -> ~ occurs_at (str_of "fmt ") xma_data q)
               /\ xma_data !! (p + 8)%nat = Some 0x66
               /\ xma_data !! (p + 9)%nat = Some 0x01).
Proof.
  apply (is_xma2_wave_reads_the_format_tag xma_data).
  vm_compute. repeat constructor; discriminate.
Defined.

(** ** [detect_file_type] *)

(** X26: the type detected depends on the first eight bytes of the data
    and on the name of the archive only; the 64 bytes that [extract_pak]
    passes are more than [detect_file_type] reads. *)
Theorem detection_reads_eight_bytes (lower : list Z -> list Z)
    (data data' pak_name : list Z) :
  take 8 data = take 8 data' ->
  ExtractPak.detect_file_type lower data pak_name
  = ExtractPak.detect_file_type lower data' pak_name.
Proof.
  intros H. unfold ExtractPak.detect_file_type.
  rewrite <- (first_signature_take data 8), <- (first_signature_take data' 8),
    H by lia.
  reflexivity.
Qed.

Lemma detection_reads_eight_bytes_witness :
  ExtractPak.detect_file_type ascii_lower (str_of "OggS0000....")
    (str_of "Text.pak")
  = ExtractPak.detect_file_type ascii_lower (str_of "OggS0000")
      (str_of "Text.pak").
Proof.
  apply (detection_reads_eight_bytes ascii_lower).
  reflexivity.
Defined.


(** ** What [verify_pak] checks *)

Lemma verify_pak_too_small file :
  Z.of_nat (length file) < 4 -> PackPak.verify_pak file = false.
Proof.
  intros H. unfold PackPak.verify_pak. rewrite verify_body_unfold.
  destruct (read_4_short file 0 ltac:(lia) ltac:(lia)) as [pos' E].
  rewrite (st_bind_raises _ _ _ _ _ E). reflexivity.
Qed.

Lemma verify_pak_truncated file :
  4 <= Z.of_nat (length file) -> 0 <= pak_count file ->
  Z.of_nat (length file) < 8 + 4 * pak_count file ->
  PackPak.verify_pak file = false.
Proof.
  intros H Hc Hs. unfold PackPak.verify_pak. rewrite verify_body_unfold.
  rewrite (st_bind_returns _ _ _ _ _ (read_4_ok file 0 ltac:(lia) ltac:(lia))).
  fold (pak_count file).
  destruct (read_offsets_short file (Z.to_nat (pak_count file + 1)) (0 + 4)
              ltac:(lia) ltac:(lia)) as [pos' E].
  rewrite (st_bind_raises _ _ _ _ _ E). reflexivity.
Qed.

Lemma verify_pak_complete file :
  4 <= Z.of_nat (length file) -> 0 <= pak_count file ->
  8 + 4 * pak_count file <= Z.of_nat (length file) ->
  PackPak.verify_pak file
  = (u32_at file (4 + 4 * pak_count file) =? Z.of_nat (length file)).
Proof.
  intros H Hc Hs. unfold PackPak.verify_pak. rewrite verify_body_unfold.
  rewrite (st_bind_returns _ _ _ _ _ (read_4_ok file 0 ltac:(lia) ltac:(lia))).
  fold (pak_count file).
  rewrite (st_bind_returns _ _ _ _ _
             (read_offsets_ok file (Z.to_nat (pak_count file + 1)) (0 + 4)
                ltac:(lia) ltac:(lia))).
  replace (Z.to_nat (pak_count file + 1)) with (S (Z.to_nat (pak_count file)))
    by lia.
  rewrite seq_S, map_app. cbn [map Nat.add].
  unfold mbind, St_bind, lift, item, PackPak.last_item, getsize.
  cbv beta iota. rewrite last_snoc.
  destruct (Z.to_nat (pak_count file)) as [|n] eqn:En.
  - cbn [seq map app Z.to_nat lookup list_lookup].
    replace (0 + 4 + 4 * Z.of_nat 0) with (4 + 4 * pak_count file) by lia.
    destruct (_ =? _); reflexivity.
  - cbn [seq map app Z.to_nat lookup list_lookup].
    replace (0 + 4 + 4 * Z.of_nat (S n)) with (4 + 4 * pak_count file) by lia.
    destruct (_ =? _); reflexivity.
Qed.

(** X27: what [verify_pak] checks.  On a file of bytes it returns [True]
    exactly when the file holds the count, one offset more than the count
    and, in the last of them, its own size; the other offsets, the first
    one too, and the count itself decide nothing. *)
Theorem verify_pak_checks_the_end_offset (file : list Z) :
  bytes_ok file ->
  (PackPak.verify_pak file = true
   <-> 8 + 4 * pak_count file <= Z.of_nat (length file)
       /\ u32_at file (4 + 4 * pak_count file) = Z.of_nat (length file)).
Proof.
  intros B. pose proof (u32_at_range file 0 B) as R. fold (pak_count file) in R.
  destruct (Z_lt_le_dec (Z.of_nat (length file)) 4) as [H|H].
  { rewrite (verify_pak_too_small file H). split; [discriminate | lia]. }
  destruct (Z_lt_le_dec (Z.of_nat (length file)) (8 + 4 * pak_count file))
    as [Hs|Hs].
  { rewrite (verify_pak_truncated file H ltac:(lia) Hs).
    split; [discriminate | lia]. }
  rewrite (verify_pak_complete file H ltac:(lia) Hs), Z.eqb_eq. tauto.
Qed.

Lemma verify_pak_checks_the_end_offset_witness :
  PackPak.verify_pak [0; 0; 0; 0; 8; 0; 0; 0] = true
  <-> 8 + 4 * pak_count [0; 0; 0; 0; 8; 0; 0; 0]
      <= Z.of_nat (length [0; 0; 0; 0; 8; 0; 0; 0])
      /\ u32_at [0; 0; 0; 0; 8; 0; 0; 0]
           (4 + 4 * pak_count [0; 0; 0; 0; 8; 0; 0; 0])
         = Z.of_nat (length [0; 0; 0; 0; 8; 0; 0; 0]).
Proof.
  apply (verify_pak_checks_the_end_offset [0; 0; 0; 0; 8; 0; 0; 0]).
  repeat constructor; unfold is_byte; lia.
Defined.

(** ** What a failed [pack_pak] leaves behind *)

(** X28: what a failed [pack_pak] leaves behind.  With no file to pack
    the output is not opened.  With more than 510 files (a count and
    offsets that fit 32 bits) the output has been opened and written when
    [RuntimeError] is raised: it is left holding the header alone, more
    than 2048 bytes of it, and none of the files. *)
Theorem failed_pack_leaves_the_header (items : list PackDat.DirItem) :
  (packed_data items = [] ->
   PackPak.pack_pak (Some items) = (Raises ValueError, None))
  /\ ((510 < length (packed_data items))%nat ->
      Z.of_nat (length (packed_data items)) < 2 ^ 32 ->
      2048 + Z.of_nat (length (concat (packed_data items))) < 2 ^ 32 ->
      exists header,
        PackPak.pack_pak (Some items) = (Raises RuntimeError, Some header)
        /\ length header = (8 + 4 * length (packed_data items))%nat
        /\ pak_count header = Z.of_nat (length (packed_data items))).
Proof.
  split; [apply pack_pak_no_files|].
  intros Hn Hc Ht.
  exists (pak_header (packed_data items)). split; [|split].
  - apply pack_pak_header_too_large; assumption.
  - apply length_pak_header.
  - unfold pak_count, pak_header.
    apply (u32_at_word [] (Z.of_nat (length (packed_data items)))).
    unfold is_u32. lia.
Qed.

Lemma failed_pack_leaves_the_header_witness :
  exists header,
    PackPak.pack_pak (Some crowded_dir) = (Raises RuntimeError, Some header)
    /\ length header = (8 + 4 * length (packed_data crowded_dir))%nat
    /\ pak_count header = Z.of_nat (length (packed_data crowded_dir)).
Proof.
  apply (failed_pack_leaves_the_header crowded_dir).
  - vm_compute. lia.
  - vm_compute. reflexivity.
  - vm_compute. reflexivity.
Defined.


End Pak.
